(** * URBE starter kit: the token, the factory and the registry contracts

    A shallow embedding of the Solidity contracts of the repository
    ([URBEToken.sol], [TokenFactory.sol], the [TokenRegistry] contract and
    [SimpleStorage.sol]), the properties their specification states about
    them, and further properties of their ledgers, views and settings.

    Conventions of the embedding:
    - a [uint256] and an [address] are numbers of [N]; checked arithmetic
      (Solidity 0.8) is written out and fails with [Panic 0x11], unchecked
      blocks wrap around modulo [2^256];
    - a [mapping] is a [gmap] read with the zero value as default;
    - a dynamic storage array is a [list];
    - an external function is a function from the state before the call to
      a [result]: [Ok] carries the state after the call, [Revert] the error,
      and a reverted call leaves the state as it was;
    - a call that a function makes to another contract is one step: what
      the other contract answers, or whether a transfer to it succeeds, is
      an argument of the call;
    - the base contracts imported from OpenZeppelin (v5: [Ownable] with an
      initial owner, custom errors) are written out where the contracts
      inherit them. *)

From Stdlib Require Import NArith Lia List.
From stdpp Require Import base option list gmap strings numbers.


Open Scope N_scope.

(** ** The EVM side: words, addresses, failures *)

Module EVM.

Abbreviation address := N (only parsing).
Abbreviation uint256 := N (only parsing).

(** [2^256], and the largest [uint256]. *)
Definition modulus : N := Eval vm_compute in 2 ^ 256.
Definition uint256_max : N := Eval vm_compute in 2 ^ 256 - 1.

(** The roles of [AccessControl] are [bytes32] values: the default admin
    role is zero, the three named roles are hashes of their names. *)
Inductive role : Type :=
| DEFAULT_ADMIN_ROLE
| MINTER_ROLE
| BURNER_ROLE
| PAUSER_ROLE
| OtherRole (id : N).

Global Instance role_eq_dec : EqDecision role.
Proof. solve_decision. Defined.

(** Errors of the inherited OpenZeppelin contracts. *)
Inductive oz_error : Type :=
| OwnableUnauthorizedAccount (account : address)
| OwnableInvalidOwner (account : address)
| ReentrancyGuardReentrantCall
| EnforcedPause
| ExpectedPause
| AccessControlUnauthorizedAccount (account : address) (r : role)
| AccessControlBadConfirmation
| ERC20InsufficientBalance (sender : address) (balance needed : uint256)
| ERC20InvalidSender (sender : address)
| ERC20InvalidReceiver (receiver : address)
| ERC20InsufficientAllowance (spender : address) (allowance needed : uint256)
| ERC20InvalidApprover (approver : address)
| ERC20InvalidSpender (spender : address).

(** Why a call reverted: a custom error of the contract ([E]), an error
    of a base contract, a compiler panic, a bare [revert()], or the
    failure of a contract creation. *)
Inductive failure (E : Type) : Type :=
| Custom (e : E)
| Base (e : oz_error)
| Panic (code : N)
| EmptyRevert
| CreateFailed.

Inductive result (E A : Type) : Type :=
| Ok (a : A)
| Revert (f : failure E).

Arguments Custom {E} e.
Arguments Base {E} e.
Arguments Panic {E} code.
Arguments EmptyRevert {E}.
Arguments CreateFailed {E}.
Arguments Ok {E A} a.
Arguments Revert {E A} f.

Definition bind {E A B} (m : result E A) (k : A -> result E B) : result E B :=
  match m with
  | Ok a => k a
  | Revert f => Revert f
  end.

(** [require c f]: go on when [c] holds, revert with [f] otherwise. *)
Definition require {E} (c : bool) (f : failure E) : result E unit :=
  if c then Ok tt else Revert f.

Definition arithmetic_overflow : N := 17. (* Panic(0x11) *)
Definition array_out_of_bounds : N := 50. (* Panic(0x32) *)

(** Checked [a + b] and [a - b] of Solidity 0.8. *)
Definition checked_add {E} (a b : uint256) : result E uint256 :=
  if a + b <=? uint256_max then Ok (a + b) else Revert (Panic arithmetic_overflow).

Definition checked_sub {E} (a b : uint256) : result E uint256 :=
  if b <=? a then Ok (a - b) else Revert (Panic arithmetic_overflow).

(** [unchecked { a + b }] and [unchecked { a - b }]. *)
Definition wrapping_add (a b : uint256) : uint256 := (a + b) mod modulus.
Definition wrapping_sub (a b : uint256) : uint256 :=
  (a + modulus - b mod modulus) mod modulus.

(** The state a call leaves behind: a revert rolls everything back. *)
Definition state_after {E S} (s : S) (r : result E S) : S :=
  match r with
  | Ok s' => s'
  | Revert _ => s
  end.

Definition succeeds {E A} (r : result E A) : Prop := exists a, r = Ok a.
Definition reverts {E A} (r : result E A) : Prop := exists f, r = Revert f.

End EVM.

Export EVM.

Notation "'let!' x ':=' m 'in' k" := (bind m (fun x => k))
  (at level 10, x name, m at level 100, k at level 200).
Notation "'require!' c 'else' f 'in' k" := (bind (require c f) (fun _ => k))
  (at level 10, c at level 100, f at level 100, k at level 200).
Notation "'with!' m 'in' k" := (bind m (fun _ => k))
  (at level 10, m at level 100, k at level 200).

(** ** URBEToken.sol *)

Module URBEToken.

(** The custom errors of the contract. *)
Inductive error : Type :=
| MintingDisabled
| BurningDisabled
| PausingDisabled
| MaxSupplyExceeded
| ZeroAmount
| ZeroAddress
| InsufficientBalance.

Abbreviation res := (result error).

(** Storage of the contract with the storage of its base contracts:
    [Ownable._owner], [Pausable._paused], the status of
    [ReentrancyGuard], [AccessControl._roles], and of [ERC20] the total
    supply, the balances and the allowances. *)
Record state : Type := mkState {
  name : string;
  symbol : string;
  owner : address;
  paused : bool;
  entered : bool;
  roles : role -> address -> bool;
  totalSupply : uint256;
  balances : gmap N N;
  allowances : gmap (N * N) N;
  maxSupply : uint256;
  mintingEnabled : bool;
  burningEnabled : bool;
  pausingEnabled : bool
}.

Definition balanceOf (s : state) (a : address) : uint256 :=
  default 0 (balances s !! a).

Definition allowance (s : state) (o sp : address) : uint256 :=
  default 0 (allowances s !! (o, sp)).

Definition hasRole (s : state) (r : role) (a : address) : bool := roles s r a.

Definition set_owner (s : state) (o : address) : state :=
  mkState (name s) (symbol s) o (paused s) (entered s) (roles s) (totalSupply s)
    (balances s) (allowances s) (maxSupply s) (mintingEnabled s)
    (burningEnabled s) (pausingEnabled s).

Definition set_paused (s : state) (b : bool) : state :=
  mkState (name s) (symbol s) (owner s) b (entered s) (roles s) (totalSupply s)
    (balances s) (allowances s) (maxSupply s) (mintingEnabled s)
    (burningEnabled s) (pausingEnabled s).

Definition set_role (s : state) (r : role) (a : address) (b : bool) : state :=
  mkState (name s) (symbol s) (owner s) (paused s) (entered s)
    (fun r' a' => if decide (r' = r /\ a' = a) then b else roles s r' a')
    (totalSupply s) (balances s) (allowances s) (maxSupply s)
    (mintingEnabled s) (burningEnabled s) (pausingEnabled s).

Definition set_totalSupply (s : state) (n : uint256) : state :=
  mkState (name s) (symbol s) (owner s) (paused s) (entered s) (roles s) n
    (balances s) (allowances s) (maxSupply s) (mintingEnabled s)
    (burningEnabled s) (pausingEnabled s).

Definition set_balance (s : state) (a : address) (n : uint256) : state :=
  mkState (name s) (symbol s) (owner s) (paused s) (entered s) (roles s)
    (totalSupply s) (<[a := n]> (balances s)) (allowances s) (maxSupply s)
    (mintingEnabled s) (burningEnabled s) (pausingEnabled s).

Definition set_allowance (s : state) (o sp : address) (n : uint256) : state :=
  mkState (name s) (symbol s) (owner s) (paused s) (entered s) (roles s)
    (totalSupply s) (balances s) (<[(o, sp) := n]> (allowances s)) (maxSupply s)
    (mintingEnabled s) (burningEnabled s) (pausingEnabled s).

Definition set_mintingEnabled (s : state) (b : bool) : state :=
  mkState (name s) (symbol s) (owner s) (paused s) (entered s) (roles s)
    (totalSupply s) (balances s) (allowances s) (maxSupply s) b
    (burningEnabled s) (pausingEnabled s).

Definition set_burningEnabled (s : state) (b : bool) : state :=
  mkState (name s) (symbol s) (owner s) (paused s) (entered s) (roles s)
    (totalSupply s) (balances s) (allowances s) (maxSupply s)
    (mintingEnabled s) b (pausingEnabled s).

Definition set_pausingEnabled (s : state) (b : bool) : state :=
  mkState (name s) (symbol s) (owner s) (paused s) (entered s) (roles s)
    (totalSupply s) (balances s) (allowances s) (maxSupply s)
    (mintingEnabled s) (burningEnabled s) b.

(** *** Modifiers of the base contracts *)

Definition onlyOwner (sender : address) (s : state) : res unit :=
  require (owner s =? sender) (Base (OwnableUnauthorizedAccount sender)).

Definition onlyRole (r : role) (sender : address) (s : state) : res unit :=
  require (hasRole s r sender) (Base (AccessControlUnauthorizedAccount sender r)).

Definition nonReentrant (s : state) : res unit :=
  require (negb (entered s)) (Base ReentrancyGuardReentrantCall).

Definition whenNotPaused (s : state) : res unit :=
  require (negb (paused s)) (Base EnforcedPause).

Definition whenPaused (s : state) : res unit :=
  require (paused s) (Base ExpectedPause).

(** *** ERC20 internals, with the override of [_update] *)

(** [ERC20._update]: a zero [from] mints, a zero [to] burns. Only the
    addition to the total supply is checked. *)
Definition ERC20_update (from to : address) (value : uint256) (s : state) : res state :=
  let! s1 :=
    (if from =? 0 then
       let! t := checked_add (totalSupply s) value in
       Ok (set_totalSupply s t)
     else
       let fromBalance := balanceOf s from in
       require! negb (fromBalance <? value)
         else Base (ERC20InsufficientBalance from fromBalance value) in
       Ok (set_balance s from (fromBalance - value))) in
  if to =? 0 then
    Ok (set_totalSupply s1 (wrapping_sub (totalSupply s1) value))
  else
    Ok (set_balance s1 to (wrapping_add (balanceOf s1 to) value)).

(** [URBEToken._update]: the override adds [whenNotPaused]. *)
Definition _update (from to : address) (value : uint256) (s : state) : res state :=
  with! whenNotPaused s in
  ERC20_update from to value s.

Definition _mint (account : address) (value : uint256) (s : state) : res state :=
  require! negb (account =? 0) else Base (ERC20InvalidReceiver 0) in
  _update 0 account value s.

Definition _burn (account : address) (value : uint256) (s : state) : res state :=
  require! negb (account =? 0) else Base (ERC20InvalidSender 0) in
  _update account 0 value s.

Definition _transfer (from to : address) (value : uint256) (s : state) : res state :=
  require! negb (from =? 0) else Base (ERC20InvalidSender 0) in
  require! negb (to =? 0) else Base (ERC20InvalidReceiver 0) in
  _update from to value s.

Definition _approve (o sp : address) (value : uint256) (s : state) : res state :=
  require! negb (o =? 0) else Base (ERC20InvalidApprover 0) in
  require! negb (sp =? 0) else Base (ERC20InvalidSpender 0) in
  Ok (set_allowance s o sp value).

Definition _spendAllowance (o sp : address) (value : uint256) (s : state) : res state :=
  let currentAllowance := allowance s o sp in
  if currentAllowance <? uint256_max then
    require! negb (currentAllowance <? value)
      else Base (ERC20InsufficientAllowance sp currentAllowance value) in
    _approve o sp (currentAllowance - value) s
  else Ok s.

(** *** Internal functions of URBEToken *)

Definition _mintTokens (to : address) (amount : uint256) (s : state) : res state :=
  require! mintingEnabled s else Custom MintingDisabled in
  require! negb (to =? 0) else Custom ZeroAddress in
  require! negb (amount =? 0) else Custom ZeroAmount in
  let! sum := checked_add (totalSupply s) amount in
  require! negb (maxSupply s <? sum) else Custom MaxSupplyExceeded in
  _mint to amount s.

Definition _burnTokens (from : address) (amount : uint256) (s : state) : res state :=
  require! burningEnabled s else Custom BurningDisabled in
  require! negb (amount =? 0) else Custom ZeroAmount in
  require! negb (balanceOf s from <? amount) else Custom InsufficientBalance in
  _burn from amount s.

Definition _burnTokensFrom (from : address) (amount : uint256) (s : state) : res state :=
  require! burningEnabled s else Custom BurningDisabled in
  require! negb (from =? 0) else Custom ZeroAddress in
  require! negb (amount =? 0) else Custom ZeroAmount in
  require! negb (balanceOf s from <? amount) else Custom InsufficientBalance in
  _burn from amount s.

(** *** Constructor *)

Definition empty_state (name_ symbol_ : string) : state :=
  mkState name_ symbol_ 0 false false (fun _ _ => false) 0 ∅ ∅ 0 false false false.

Definition set_config (s : state) (max : uint256) (m b p : bool) : state :=
  mkState (name s) (symbol s) (owner s) (paused s) (entered s) (roles s)
    (totalSupply s) (balances s) (allowances s) max m b p.

(** The base constructors run first: [Ownable(initialOwner)] rejects the
    zero owner before the body of the constructor runs. *)
Definition constructor (name_ symbol_ : string) (initialSupply maxSupply_ : uint256)
    (initialOwner : address) (mintingEnabled_ burningEnabled_ pausingEnabled_ : bool)
    : res state :=
  require! negb (initialOwner =? 0) else Base (OwnableInvalidOwner 0) in
  let s := set_owner (empty_state name_ symbol_) initialOwner in
  require! negb (initialOwner =? 0) else Custom ZeroAddress in
  require! negb (maxSupply_ =? 0) else Custom ZeroAmount in
  require! negb (maxSupply_ <? initialSupply) else Custom MaxSupplyExceeded in
  let s := set_config s maxSupply_ mintingEnabled_ burningEnabled_ pausingEnabled_ in
  let s := set_role s DEFAULT_ADMIN_ROLE initialOwner true in
  let s := set_role s MINTER_ROLE initialOwner true in
  let s := set_role s BURNER_ROLE initialOwner true in
  let s := set_role s PAUSER_ROLE initialOwner true in
  if 0 <? initialSupply then _mint initialOwner initialSupply s else Ok s.

(** *** External functions *)

Inductive call : Type :=
| mint (to : address) (amount : uint256)
| mintByMinter (to : address) (amount : uint256)
| burn (amount : uint256)
| burnFrom (from : address) (amount : uint256)
| pause
| unpause
| toggleMinting (enabled : bool)
| toggleBurning (enabled : bool)
| togglePausing (enabled : bool)
| grantMinterRole (account : address)
| revokeMinterRole (account : address)
| grantBurnerRole (account : address)
| revokeBurnerRole (account : address)
| grantPauserRole (account : address)
| revokePauserRole (account : address)
(* inherited from ERC20 *)
| transfer (to : address) (value : uint256)
| approve (spender : address) (value : uint256)
| transferFrom (from to : address) (value : uint256)
(* inherited from AccessControl *)
| grantRole (r : role) (account : address)
| revokeRole (r : role) (account : address)
| renounceRole (r : role) (callerConfirmation : address)
(* inherited from Ownable *)
| transferOwnership (newOwner : address)
| renounceOwnership.

Definition grant_by_owner (r : role) (account sender : address) (b : bool)
    (s : state) : res state :=
  with! onlyOwner sender s in
  require! negb (account =? 0) else Custom ZeroAddress in
  Ok (set_role s r account b).

(** [exec sender s c]: the call [c] sent by [sender] in state [s]. The
    modifiers run in the order the source lists them. *)
Definition exec (sender : address) (s : state) (c : call) : res state :=
  match c with
  | mint to amount =>
      with! onlyOwner sender s in
      with! nonReentrant s in
      with! whenNotPaused s in
      _mintTokens to amount s
  | mintByMinter to amount =>
      with! onlyRole MINTER_ROLE sender s in
      with! nonReentrant s in
      with! whenNotPaused s in
      _mintTokens to amount s
  | burn amount =>
      with! nonReentrant s in
      with! whenNotPaused s in
      _burnTokens sender amount s
  | burnFrom from amount =>
      with! onlyRole BURNER_ROLE sender s in
      with! nonReentrant s in
      with! whenNotPaused s in
      _burnTokensFrom from amount s
  | pause =>
      with! onlyRole PAUSER_ROLE sender s in
      with! whenNotPaused s in
      require! pausingEnabled s else Custom PausingDisabled in
      Ok (set_paused s true)
  | unpause =>
      with! onlyRole PAUSER_ROLE sender s in
      with! whenPaused s in
      require! pausingEnabled s else Custom PausingDisabled in
      Ok (set_paused s false)
  | toggleMinting enabled =>
      with! onlyOwner sender s in
      Ok (set_mintingEnabled s enabled)
  | toggleBurning enabled =>
      with! onlyOwner sender s in
      Ok (set_burningEnabled s enabled)
  | togglePausing enabled =>
      with! onlyOwner sender s in
      Ok (set_pausingEnabled s enabled)
  | grantMinterRole a => grant_by_owner MINTER_ROLE a sender true s
  | revokeMinterRole a => grant_by_owner MINTER_ROLE a sender false s
  | grantBurnerRole a => grant_by_owner BURNER_ROLE a sender true s
  | revokeBurnerRole a => grant_by_owner BURNER_ROLE a sender false s
  | grantPauserRole a => grant_by_owner PAUSER_ROLE a sender true s
  | revokePauserRole a => grant_by_owner PAUSER_ROLE a sender false s
  | transfer to value => _transfer sender to value s
  | approve spender value => _approve sender spender value s
  | transferFrom from to value =>
      let! s1 := _spendAllowance from sender value s in
      _transfer from to value s1
  | grantRole r account =>
      with! onlyRole DEFAULT_ADMIN_ROLE sender s in
      Ok (set_role s r account true)
  | revokeRole r account =>
      with! onlyRole DEFAULT_ADMIN_ROLE sender s in
      Ok (set_role s r account false)
  | renounceRole r callerConfirmation =>
      require! callerConfirmation =? sender else Base AccessControlBadConfirmation in
      Ok (set_role s r callerConfirmation false)
  | transferOwnership newOwner =>
      with! onlyOwner sender s in
      require! negb (newOwner =? 0) else Base (OwnableInvalidOwner 0) in
      Ok (set_owner s newOwner)
  | renounceOwnership =>
      with! onlyOwner sender s in
      Ok (set_owner s 0)
  end.

(** [remainingMintableSupply()], a view with a checked subtraction. *)
Definition remainingMintableSupply (s : state) : res uint256 :=
  checked_sub (maxSupply s) (totalSupply s).

(** The sum of the values of a map of balances. *)
Definition sum_balances (m : gmap N N) : N :=
  map_fold (fun _ v acc => v + acc) 0 m.

(** The ledger of [ERC20] is consistent when the balances add up to the
    total supply, which fits in a word. *)
Definition ledger_consistent (s : state) : Prop :=
  sum_balances (balances s) = totalSupply s /\ totalSupply s <= uint256_max.

(** The invariant of the supply: a consistent ledger whose total supply
    is at most the maximum. *)
Definition supply_inv (s : state) : Prop :=
  ledger_consistent s /\ totalSupply s <= maxSupply s.

(** The states the contract can be in: the state the constructor leaves
    and the states successful calls lead to. *)
Inductive reachable : state -> Prop :=
| reachable_constructor name_ symbol_ initialSupply maxSupply_ initialOwner m b p s :
    constructor name_ symbol_ initialSupply maxSupply_ initialOwner m b p = Ok s ->
    reachable s
| reachable_call s sender c s' :
    reachable s -> exec sender s c = Ok s' -> reachable s'.

(** A deployment used in the examples: one token minted to the owner
    (address 1) out of a maximum of ten, every feature enabled. *)
Definition sample_token : state :=
  match constructor "URBE Token"%string "URBE"%string 1 10 1 true true true with
  | Ok s => s
  | Revert _ => empty_state "URBE Token"%string "URBE"%string
  end.

End URBEToken.


(** ** TokenFactory.sol *)

(** The context of a call: [msg.sender] and [block.timestamp]. The value
    sent with a call ([msg.value]) is an argument of the [payable]
    functions; a call to a function that is not [payable] carries none, the
    dispatcher of the contract rejects it before the function is entered. *)
Record msg : Type := mkMsg {
  sender : address;
  timestamp : uint256
}.

Module TokenFactory.

Inductive error : Type :=
| FactoryPaused
| EmptyName
| EmptySymbol
| ZeroInitialSupply
| ZeroMaxSupply
| InitialSupplyExceedsMax
| MaxTokensPerCreatorExceeded
| InsufficientDeploymentFee
| InvalidTokenAddress
| NoTokensFound
| IndexOutOfBounds.

Abbreviation res := (result error).

Record TokenInfo : Type := mkTokenInfo {
  tokenAddress : address;
  name : string;
  symbol : string;
  initialSupply : uint256;
  maxSupply : uint256;
  creator : address;
  createdAt : uint256;
  mintingEnabled : bool;
  burningEnabled : bool;
  pausingEnabled : bool
}.

(** The value a mapping gives for a key never written. *)
Definition zero_TokenInfo : TokenInfo :=
  mkTokenInfo 0 EmptyString EmptyString 0 0 0 0 false false false.

(** Storage of the factory, with [Ownable._owner], the status of
    [ReentrancyGuard], and of the account of the contract its own address,
    its balance and its nonce (the number of the next contract it
    creates). *)
Record state : Type := mkState {
  owner : address;
  entered : bool;
  tokensByCreator : gmap N (list N);
  tokenInfo : gmap N TokenInfo;
  allTokens : list N;
  totalTokensDeployed : uint256;
  maxTokensPerCreator : uint256;
  deploymentFee : uint256;
  factoryPaused : bool;
  self : address;
  balance : N;
  nonce : N
}.

Definition getTokensByCreator (s : state) (c : address) : list N :=
  default [] (tokensByCreator s !! c).

Definition getTokenCountByCreator (s : state) (c : address) : uint256 :=
  N.of_nat (length (getTokensByCreator s c)).

Definition getTokenInfo (s : state) (t : address) : TokenInfo :=
  default zero_TokenInfo (tokenInfo s !! t).

Definition getAllTokens (s : state) : list N := allTokens s.

Definition getTotalTokensDeployed (s : state) : uint256 := totalTokensDeployed s.

Definition isTokenCreator (s : state) (c : address) : bool :=
  0 <? N.of_nat (length (getTokensByCreator s c)).

(** One turn of the loop of [getTokensByCreatorPaginated], at index [i]:
    [tokens[i] = allCreatorTokens[offset + i]]. *)
Definition page_step (allCreatorTokens : list N) (offset : uint256)
    (acc : res (list N)) (i : nat) : res (list N) :=
  let! tokens := acc in
  let! j := checked_add offset (N.of_nat i) in
  match allCreatorTokens !! N.to_nat j with
  | None => Revert (Panic array_out_of_bounds)
  | Some t =>
      require! bool_decide (i < length tokens)%nat else Panic array_out_of_bounds in
      Ok (<[i := t]> tokens)
  end.

Definition getTokensByCreatorPaginated (s : state) (creator_ : address)
    (offset limit : uint256) : res (list N * uint256) :=
  let allCreatorTokens := getTokensByCreator s creator_ in
  let total := N.of_nat (length allCreatorTokens) in
  if total <=? offset then Ok ([], total)
  else
    let! endIndex := checked_add offset limit in
    let endIndex := if total <? endIndex then total else endIndex in
    let! resultLength := checked_sub endIndex offset in
    let! tokens :=
      fold_left (page_step allCreatorTokens offset)
        (seq 0 (N.to_nat resultLength))
        (Ok (replicate (N.to_nat resultLength) 0)) in
    Ok (tokens, total).

Definition getTokenByCreatorAtIndex (s : state) (creator_ : address)
    (index : uint256) : res TokenInfo :=
  let creatorTokens := getTokensByCreator s creator_ in
  require! negb (N.of_nat (length creatorTokens) <=? index)
    else Custom IndexOutOfBounds in
  match creatorTokens !! N.to_nat index with
  | None => Revert (Panic array_out_of_bounds)
  | Some t => Ok (getTokenInfo s t)
  end.

(** The tokens of [allTokens] whose record names [c] as creator. *)
Definition created_by (s : state) (c : address) : list N :=
  filter (fun t => creator (getTokenInfo s t) = c) (allTokens s).

Definition set_owner (s : state) (o : address) : state :=
  mkState o (entered s) (tokensByCreator s) (tokenInfo s) (allTokens s)
    (totalTokensDeployed s) (maxTokensPerCreator s) (deploymentFee s)
    (factoryPaused s) (self s) (balance s) (nonce s).

Definition set_deploymentFee (s : state) (fee : uint256) : state :=
  mkState (owner s) (entered s) (tokensByCreator s) (tokenInfo s) (allTokens s)
    (totalTokensDeployed s) (maxTokensPerCreator s) fee
    (factoryPaused s) (self s) (balance s) (nonce s).

Definition set_maxTokensPerCreator (s : state) (max : uint256) : state :=
  mkState (owner s) (entered s) (tokensByCreator s) (tokenInfo s) (allTokens s)
    (totalTokensDeployed s) max (deploymentFee s)
    (factoryPaused s) (self s) (balance s) (nonce s).

Definition set_factoryPaused (s : state) (p : bool) : state :=
  mkState (owner s) (entered s) (tokensByCreator s) (tokenInfo s) (allTokens s)
    (totalTokensDeployed s) (maxTokensPerCreator s) (deploymentFee s)
    p (self s) (balance s) (nonce s).

Definition set_balance (s : state) (b : N) : state :=
  mkState (owner s) (entered s) (tokensByCreator s) (tokenInfo s) (allTokens s)
    (totalTokensDeployed s) (maxTokensPerCreator s) (deploymentFee s)
    (factoryPaused s) (self s) b (nonce s).

(** The four writes at the end of [_deployToken], and the nonce that the
    creation of the token used up. *)
Definition record_token (s : state) (creator_ : address) (info : TokenInfo)
    (total : uint256) : state :=
  mkState (owner s) (entered s)
    (<[creator_ := getTokensByCreator s creator_ ++ [tokenAddress info]]> (tokensByCreator s))
    (<[tokenAddress info := info]> (tokenInfo s))
    (allTokens s ++ [tokenAddress info])
    total (maxTokensPerCreator s) (deploymentFee s)
    (factoryPaused s) (self s) (balance s) (nonce s + 1).

Definition onlyOwner (m : msg) (s : state) : res unit :=
  require (owner s =? sender m) (Base (OwnableUnauthorizedAccount (sender m))).

Definition nonReentrant (s : state) : res unit :=
  require (negb (entered s)) (Base ReentrancyGuardReentrantCall).

(** A [payable] function that succeeds keeps the value sent. *)
Definition receive_value (msg_value : uint256) (s : state) : state :=
  set_balance s (balance s + msg_value).

Definition constructor (self_ initialOwner : address)
    (initialDeploymentFee initialMaxTokensPerCreator : uint256) : res state :=
  require! negb (initialOwner =? 0) else Base (OwnableInvalidOwner 0) in
  require! negb (initialOwner =? 0) else Custom InvalidTokenAddress in
  Ok (mkState initialOwner false ∅ ∅ [] 0 initialMaxTokensPerCreator
        initialDeploymentFee false self_ 0 1).

Inductive call : Type :=
| deployToken (msg_value : uint256) (name_ symbol_ : string) (initialSupply_ maxSupply_ : uint256)
    (mintingEnabled_ burningEnabled_ pausingEnabled_ : bool)
| deployTokenWithOwner (msg_value : uint256) (name_ symbol_ : string) (initialSupply_ maxSupply_ : uint256)
    (tokenOwner : address) (mintingEnabled_ burningEnabled_ pausingEnabled_ : bool)
| setDeploymentFee (newFee : uint256)
| setMaxTokensPerCreator (newMax : uint256)
| setFactoryPaused (paused : bool)
| withdrawFees (amount : uint256) (to : address) (success : bool)
| receive (msg_value : uint256)
(* inherited from Ownable *)
| transferOwnership (newOwner : address)
| renounceOwnership.

Section Model.

(** [new_token_address n]: the address the EVM gives to the contract
    the factory creates when its nonce is [n]. *)
Variable new_token_address : N -> address.

Definition _deployToken (m : msg) (msg_value : uint256) (name_ symbol_ : string)
    (initialSupply_ maxSupply_ : uint256) (tokenOwner : address)
    (mintingEnabled_ burningEnabled_ pausingEnabled_ : bool) (s : state)
    : res (state * address) :=
  require! negb (factoryPaused s) else Custom FactoryPaused in
  require! negb (String.length name_ =? 0)%nat else Custom EmptyName in
  require! negb (String.length symbol_ =? 0)%nat else Custom EmptySymbol in
  require! negb (initialSupply_ =? 0) else Custom ZeroInitialSupply in
  require! negb (maxSupply_ =? 0) else Custom ZeroMaxSupply in
  require! negb (maxSupply_ <? initialSupply_) else Custom InitialSupplyExceedsMax in
  require! negb (tokenOwner =? 0) else Custom InvalidTokenAddress in
  require! negb (msg_value <? deploymentFee s) else Custom InsufficientDeploymentFee in
  let creatorTokenCount := getTokenCountByCreator s (sender m) in
  require! negb (maxTokensPerCreator s <=? creatorTokenCount)
    else Custom MaxTokensPerCreatorExceeded in
  (* new URBEToken(...): a failed creation reverts the deployment *)
  match URBEToken.constructor name_ symbol_ initialSupply_ maxSupply_ tokenOwner
          mintingEnabled_ burningEnabled_ pausingEnabled_ with
  | Revert _ => Revert CreateFailed
  | Ok _ =>
      let tokenAddress_ := new_token_address (nonce s) in
      let info :=
        mkTokenInfo tokenAddress_ name_ symbol_ initialSupply_ maxSupply_
          (sender m) (timestamp m)
          mintingEnabled_ burningEnabled_ pausingEnabled_ in
      let! total := checked_add (totalTokensDeployed s) 1 in
      Ok (record_token s (sender m) info total, tokenAddress_)
  end.

(** [exec m s c]: the call [c] with the context [m] in state [s]. For
    [withdrawFees] the call carries the outcome of the transfer of the
    amount to [to]. *)
Definition exec (m : msg) (s : state) (c : call) : res state :=
  match c with
  | deployToken msg_value name_ symbol_ initialSupply_ maxSupply_ me be pe =>
      with! nonReentrant s in
      let! r := _deployToken m msg_value name_ symbol_ initialSupply_ maxSupply_
                  (sender m) me be pe s in
      Ok (receive_value msg_value (fst r))
  | deployTokenWithOwner msg_value name_ symbol_ initialSupply_ maxSupply_
      tokenOwner me be pe =>
      with! nonReentrant s in
      let! r := _deployToken m msg_value name_ symbol_ initialSupply_ maxSupply_
                  tokenOwner me be pe s in
      Ok (receive_value msg_value (fst r))
  | setDeploymentFee newFee =>
      with! onlyOwner m s in
      Ok (set_deploymentFee s newFee)
  | setMaxTokensPerCreator newMax =>
      with! onlyOwner m s in
      Ok (set_maxTokensPerCreator s newMax)
  | setFactoryPaused paused =>
      with! onlyOwner m s in
      Ok (set_factoryPaused s paused)
  | withdrawFees amount to success =>
      with! onlyOwner m s in
      require! negb (to =? 0) else Custom InvalidTokenAddress in
      require! negb (balance s <? amount) else Custom InsufficientDeploymentFee in
      require! success else EmptyRevert in
      Ok (if to =? self s then s else set_balance s (balance s - amount))
  | receive msg_value => Ok (receive_value msg_value s)
  | transferOwnership newOwner =>
      with! onlyOwner m s in
      require! negb (newOwner =? 0) else Base (OwnableInvalidOwner 0) in
      Ok (set_owner s newOwner)
  | renounceOwnership =>
      with! onlyOwner m s in
      Ok (set_owner s 0)
  end.

(** The token a call creates when it succeeds: the return value of the
    two deployment functions. *)
Definition deployed (m : msg) (s : state) (c : call) : option address :=
  match c with
  | deployToken _ _ _ _ _ _ _ _ =>
      match exec m s c with
      | Ok _ => Some (new_token_address (nonce s))
      | Revert _ => None
      end
  | deployTokenWithOwner _ _ _ _ _ _ _ _ _ =>
      match exec m s c with
      | Ok _ => Some (new_token_address (nonce s))
      | Revert _ => None
      end
  | _ => None
  end.

(** A run of calls: a call that reverts leaves the state as it was. *)
Fixpoint run (s : state) (cs : list (msg * call)) : state :=
  match cs with
  | [] => s
  | (m, c) :: cs' => run (state_after s (exec m s c)) cs'
  end.

(** How many calls of a run created the token [t]. *)
Fixpoint deployments_of (t : address) (s : state) (cs : list (msg * call)) : nat :=
  match cs with
  | [] => O
  | (m, c) :: cs' =>
      ((if decide (deployed m s c = Some t) then 1 else 0)
       + deployments_of t (state_after s (exec m s c)) cs')%nat
  end.

Inductive reachable : state -> Prop :=
| reachable_constructor self_ initialOwner fee max s :
    constructor self_ initialOwner fee max = Ok s -> reachable s
| reachable_call s m c s' :
    reachable s -> exec m s c = Ok s' -> reachable s'.

(** A successful call either leaves the fields of the ledger alone or
    records the token created at the current nonce. *)
Definition ledger_step (s s' : state) : Prop :=
  (allTokens s' = allTokens s /\ tokenInfo s' = tokenInfo s /\
   totalTokensDeployed s' = totalTokensDeployed s /\ nonce s' = nonce s) \/
  (exists info,
      tokenAddress info = new_token_address (nonce s) /\
      allTokens s' = allTokens s ++ [tokenAddress info] /\
      tokenInfo s' = <[tokenAddress info := info]> (tokenInfo s) /\
      totalTokensDeployed s' = totalTokensDeployed s + 1 /\
      nonce s' = nonce s + 1).

(** What the bookkeeping of the factory keeps true. *)
Record ledger_inv (s : state) : Prop := mkLedgerInv {
  inv_count : totalTokensDeployed s = N.of_nat (length (allTokens s));
  inv_created : forall t, t ∈ allTokens s -> exists k, k < nonce s /\ t = new_token_address k;
  inv_nodup : NoDup (allTokens s);
  inv_unwritten : forall t, t ∉ allTokens s -> tokenInfo s !! t = None
}.

(** What the index by creator keeps true: the list of a creator holds
    the tokens whose record names it, in the order of [allTokens];
    every record is filed under its own address; the counter has not
    wrapped. *)
Record index_inv (s : state) : Prop := mkIndexInv {
  inv_index : forall c, getTokensByCreator s c = created_by s c;
  inv_address : forall t, t ∈ allTokens s -> tokenAddress (getTokenInfo s t) = t;
  inv_bound : totalTokensDeployed s <= uint256_max
}.

End Model.

(** *** A factory used in the examples

    Created tokens get the addresses 1001, 1002, ...; the factory (at
    address 500) is owned by address 1, asks a fee of 5 wei and lets
    every creator deploy one token. Address 2 deploys a token. *)
Definition sample_new_token_address (n : N) : address := 1000 + n.

Definition sample_factory : state :=
  match constructor 500 1 5 1 with
  | Ok s => s
  | Revert _ => mkState 0 false ∅ ∅ [] 0 0 0 false 0 0 0
  end.

Definition sample_deployToken : call :=
  deployToken 5 "Token" "TKN" 100 1000 true true true.

Definition sample_factory_1 : state :=
  run sample_new_token_address sample_factory
    [(mkMsg 2 1700000000, sample_deployToken)].

(** A deployment for another owner (address 4), with one wei above the
    fee. *)
Definition sample_deployTokenWithOwner : call :=
  deployTokenWithOwner 6 "Gift" "GFT" 50 50 4 true false false.

End TokenFactory.

(** ** The TokenRegistry contract *)

Module TokenRegistry.

Inductive error : Type :=
| RegistryPaused
| InvalidTokenAddress
| TokenAlreadyRegistered
| TokenNotRegistered
| InvalidCreatorAddress
| InvalidCategoryId
| InsufficientRegistrationFee
| EmptyName
| EmptySymbol
| EmptyDescription
| OnlyCreator
| OnlyVerifiedCreator
| IndexOutOfBounds
| TokenNotVerified.

Abbreviation res := (result error).

Module TokenMetadata.
Record t : Type := mk {
  tokenAddress : address;
  name : string;
  symbol : string;
  decimals : N;
  totalSupply : uint256;
  maxSupply : uint256;
  creator : address;
  registeredAt : uint256;
  description : string;
  website : string;
  logo : string;
  verified : bool;
  active : bool;
  category : uint256;
  tags : list string
}.

(** The value of a slot of the mapping that was never written. *)
Definition zero : t :=
  mk 0 EmptyString EmptyString 0 0 0 0 0 EmptyString EmptyString EmptyString
     false false 0 [].

Definition set_texts (md : t) (description_ website_ logo_ : string) : t :=
  mk (tokenAddress md) (name md) (symbol md) (decimals md) (totalSupply md)
     (maxSupply md) (creator md) (registeredAt md) description_ website_ logo_
     (verified md) (active md) (category md) (tags md).

Definition set_verified (md : t) (b : bool) : t :=
  mk (tokenAddress md) (name md) (symbol md) (decimals md) (totalSupply md)
     (maxSupply md) (creator md) (registeredAt md) (description md)
     (website md) (logo md) b (active md) (category md) (tags md).

Definition set_maxSupply (md : t) (n : uint256) : t :=
  mk (tokenAddress md) (name md) (symbol md) (decimals md) (totalSupply md)
     n (creator md) (registeredAt md) (description md)
     (website md) (logo md) (verified md) (active md) (category md) (tags md).
End TokenMetadata.

Module CreatorInfo.
Record t : Type := mk {
  creator : address;
  totalTokens : uint256;
  verifiedTokens : uint256;
  totalVolume : uint256;
  lastActivity : uint256;
  verified : bool;
  name : string;
  description : string
}.

Definition zero : t := mk 0 0 0 0 0 false EmptyString EmptyString.

Definition set_totalTokens (ci : t) (n : uint256) : t :=
  mk (creator ci) n (verifiedTokens ci) (totalVolume ci) (lastActivity ci)
     (verified ci) (name ci) (description ci).

Definition set_verifiedTokens (ci : t) (n : uint256) : t :=
  mk (creator ci) (totalTokens ci) n (totalVolume ci) (lastActivity ci)
     (verified ci) (name ci) (description ci).

Definition set_lastActivity (ci : t) (n : uint256) : t :=
  mk (creator ci) (totalTokens ci) (verifiedTokens ci) (totalVolume ci) n
     (verified ci) (name ci) (description ci).

Definition set_verified (ci : t) (b : bool) : t :=
  mk (creator ci) (totalTokens ci) (verifiedTokens ci) (totalVolume ci)
     (lastActivity ci) b (name ci) (description ci).

Definition set_name (ci : t) (n : string) : t :=
  mk (creator ci) (totalTokens ci) (verifiedTokens ci) (totalVolume ci)
     (lastActivity ci) (verified ci) n (description ci).

Definition set_description (ci : t) (d : string) : t :=
  mk (creator ci) (totalTokens ci) (verifiedTokens ci) (totalVolume ci)
     (lastActivity ci) (verified ci) (name ci) d.
End CreatorInfo.

Module CategoryInfo.
Record t : Type := mk {
  name : string;
  description : string;
  tokenCount : uint256;
  active : bool
}.

Definition zero : t := mk EmptyString EmptyString 0 false.

Definition set_info (ci : t) (name_ description_ : string) (active_ : bool) : t :=
  mk name_ description_ (tokenCount ci) active_.
End CategoryInfo.

(** Storage of the registry, with [Ownable._owner], the status of
    [ReentrancyGuard], and the address and the balance of the contract. *)
Record state : Type := mkState {
  owner : address;
  entered : bool;
  tokenMetadata : gmap N TokenMetadata.t;
  creatorInfo : gmap N CreatorInfo.t;
  categories : gmap N CategoryInfo.t;
  allTokens : list N;
  allCreators : list N;
  totalTokensRegistered : uint256;
  totalCreators : uint256;
  totalCategories : uint256;
  registrationFee : uint256;
  registryPaused : bool;
  tokenFactory : address;
  minTokensForVerification : uint256;
  minVolumeForVerification : uint256;
  self : address;
  balance : N
}.

(** Reading the mappings. *)
Definition getTokenMetadata (s : state) (t : address) : TokenMetadata.t :=
  default TokenMetadata.zero (tokenMetadata s !! t).

Definition getCreatorInfo (s : state) (c : address) : CreatorInfo.t :=
  default CreatorInfo.zero (creatorInfo s !! c).

Definition getCategoryInfo (s : state) (id : uint256) : CategoryInfo.t :=
  default CategoryInfo.zero (categories s !! id).

Definition getAllTokens (s : state) : list N := allTokens s.
Definition getAllCreators (s : state) : list N := allCreators s.

Definition isTokenRegistered (s : state) (t : address) : bool :=
  TokenMetadata.active (getTokenMetadata s t).

Definition isCreatorRegistered (s : state) (c : address) : bool :=
  negb (CreatorInfo.creator (getCreatorInfo s c) =? 0).

Definition set_owner (s : state) (o : address) : state :=
  mkState o (entered s) (tokenMetadata s) (creatorInfo s) (categories s)
    (allTokens s) (allCreators s) (totalTokensRegistered s) (totalCreators s)
    (totalCategories s) (registrationFee s) (registryPaused s)
    (tokenFactory s) (minTokensForVerification s) (minVolumeForVerification s)
    (self s) (balance s).

Definition set_registrationFee (s : state) (fee : uint256) : state :=
  mkState (owner s) (entered s) (tokenMetadata s) (creatorInfo s)
    (categories s) (allTokens s) (allCreators s) (totalTokensRegistered s)
    (totalCreators s) (totalCategories s) fee (registryPaused s)
    (tokenFactory s) (minTokensForVerification s) (minVolumeForVerification s)
    (self s) (balance s).

Definition set_registryPaused (s : state) (p : bool) : state :=
  mkState (owner s) (entered s) (tokenMetadata s) (creatorInfo s)
    (categories s) (allTokens s) (allCreators s) (totalTokensRegistered s)
    (totalCreators s) (totalCategories s) (registrationFee s) p
    (tokenFactory s) (minTokensForVerification s) (minVolumeForVerification s)
    (self s) (balance s).

Definition set_requirements (s : state) (minTokens minVolume : uint256) : state :=
  mkState (owner s) (entered s) (tokenMetadata s) (creatorInfo s)
    (categories s) (allTokens s) (allCreators s) (totalTokensRegistered s)
    (totalCreators s) (totalCategories s) (registrationFee s)
    (registryPaused s) (tokenFactory s) minTokens minVolume (self s)
    (balance s).

Definition set_tokenMetadata (s : state) (t : address) (md : TokenMetadata.t) : state :=
  mkState (owner s) (entered s) (<[t := md]> (tokenMetadata s))
    (creatorInfo s) (categories s) (allTokens s) (allCreators s)
    (totalTokensRegistered s) (totalCreators s) (totalCategories s)
    (registrationFee s) (registryPaused s) (tokenFactory s)
    (minTokensForVerification s) (minVolumeForVerification s) (self s)
    (balance s).

Definition set_creatorInfo (s : state) (c : address) (ci : CreatorInfo.t) : state :=
  mkState (owner s) (entered s) (tokenMetadata s)
    (<[c := ci]> (creatorInfo s)) (categories s) (allTokens s) (allCreators s)
    (totalTokensRegistered s) (totalCreators s) (totalCategories s)
    (registrationFee s) (registryPaused s) (tokenFactory s)
    (minTokensForVerification s) (minVolumeForVerification s) (self s)
    (balance s).

Definition set_category (s : state) (id : uint256) (ci : CategoryInfo.t) : state :=
  mkState (owner s) (entered s) (tokenMetadata s) (creatorInfo s)
    (<[id := ci]> (categories s)) (allTokens s) (allCreators s)
    (totalTokensRegistered s) (totalCreators s) (totalCategories s)
    (registrationFee s) (registryPaused s) (tokenFactory s)
    (minTokensForVerification s) (minVolumeForVerification s) (self s)
    (balance s).

Definition set_totalCategories (s : state) (n : uint256) : state :=
  mkState (owner s) (entered s) (tokenMetadata s) (creatorInfo s)
    (categories s) (allTokens s) (allCreators s) (totalTokensRegistered s)
    (totalCreators s) n (registrationFee s) (registryPaused s)
    (tokenFactory s) (minTokensForVerification s) (minVolumeForVerification s)
    (self s) (balance s).

Definition push_token (s : state) (t : address) (n : uint256) : state :=
  mkState (owner s) (entered s) (tokenMetadata s) (creatorInfo s)
    (categories s) (allTokens s ++ [t]) (allCreators s) n (totalCreators s)
    (totalCategories s) (registrationFee s) (registryPaused s)
    (tokenFactory s) (minTokensForVerification s) (minVolumeForVerification s)
    (self s) (balance s).

Definition push_creator (s : state) (c : address) (n : uint256) : state :=
  mkState (owner s) (entered s) (tokenMetadata s) (creatorInfo s)
    (categories s) (allTokens s) (allCreators s ++ [c])
    (totalTokensRegistered s) n (totalCategories s) (registrationFee s)
    (registryPaused s) (tokenFactory s) (minTokensForVerification s)
    (minVolumeForVerification s) (self s) (balance s).

Definition set_balance (s : state) (b : N) : state :=
  mkState (owner s) (entered s) (tokenMetadata s) (creatorInfo s)
    (categories s) (allTokens s) (allCreators s) (totalTokensRegistered s)
    (totalCreators s) (totalCategories s) (registrationFee s)
    (registryPaused s) (tokenFactory s) (minTokensForVerification s)
    (minVolumeForVerification s) (self s) b.

Definition set_tokenFactory (s : state) (a : address) : state :=
  mkState (owner s) (entered s) (tokenMetadata s) (creatorInfo s) (categories s)
    (allTokens s) (allCreators s) (totalTokensRegistered s) (totalCreators s)
    (totalCategories s) (registrationFee s) (registryPaused s) a
    (minTokensForVerification s) (minVolumeForVerification s) (self s)
    (balance s).

Definition onlyOwner (m : msg) (s : state) : res unit :=
  require (owner s =? sender m) (Base (OwnableUnauthorizedAccount (sender m))).

Definition nonReentrant (s : state) : res unit :=
  require (negb (entered s)) (Base ReentrancyGuardReentrantCall).

Definition receive_value (msg_value : uint256) (s : state) : state :=
  set_balance s (balance s + msg_value).

(** [bytes(x).length == 0] *)
Definition is_empty (x : string) : bool := (String.length x =? 0)%nat.

(** *** What a token answers to the registry

    [_registerToken] asks the token for its name, symbol, decimals and
    total supply with low-level calls, and for its maximum supply with a
    [try] call. Each answer is either a failed call, a successful call
    that returns no data, data that does not decode to the expected type,
    or a value. *)
Inductive answer (A : Type) : Type :=
| CallFailed
| NoData
| Malformed
| Returned (a : A).

Arguments CallFailed {A}.
Arguments NoData {A}.
Arguments Malformed {A}.
Arguments Returned {A} a.

Record token_answers : Type := mkAnswers {
  name_answer : answer string;
  symbol_answer : answer string;
  decimals_answer : answer N;
  totalSupply_answer : answer uint256;
  maxSupply_answer : answer uint256
}.

(** [if (!success || data.length == 0) revert InvalidTokenAddress();]
    followed by [abi.decode], which reverts without data on data it
    cannot decode. *)
Definition decode_required {A} (a : answer A) : res A :=
  match a with
  | CallFailed | NoData => Revert (Custom InvalidTokenAddress)
  | Malformed => Revert EmptyRevert
  | Returned v => Ok v
  end.

(** [if (success && data.length > 0) x = abi.decode(...)], with a default
    for [x] otherwise. *)
Definition decode_optional {A} (dflt : A) (a : answer A) : res A :=
  match a with
  | CallFailed | NoData => Ok dflt
  | Malformed => Revert EmptyRevert
  | Returned v => Ok v
  end.

(** [try URBEToken(tokenAddress).maxSupply() returns (uint256 maxSupply)]:
    a failed call is caught, return data that does not decode is not. *)
Definition try_maxSupply (md : TokenMetadata.t) (a : answer uint256)
    : res TokenMetadata.t :=
  match a with
  | CallFailed => Ok md
  | NoData | Malformed => Revert EmptyRevert
  | Returned v => Ok (TokenMetadata.set_maxSupply md v)
  end.

(** The answers to [decimals()], [totalSupply()] and [maxSupply()] that
    the registry can take in: no data it cannot decode, decimals that fit
    a [uint8], and for [maxSupply()] a failed call or a value. *)
Definition answers_decode (a : token_answers) : bool :=
  match decimals_answer a with
  | Malformed => false
  | Returned d => d <=? 255
  | _ => true
  end &&
  match totalSupply_answer a with
  | Malformed => false
  | _ => true
  end &&
  match maxSupply_answer a with
  | CallFailed | Returned _ => true
  | _ => false
  end.

(** *** Internal functions *)

Definition _createCategory (name_ description_ : string) (s : state) : res state :=
  let categoryId := totalCategories s in
  let s1 := set_category s categoryId (CategoryInfo.mk name_ description_ 0 true) in
  let! n := checked_add (totalCategories s1) 1 in
  Ok (set_totalCategories s1 n).

(** The update of the creator at the end of [_registerToken]. *)
Definition update_creator (m : msg) (creator_ : address) (s : state) : res state :=
  if CreatorInfo.creator (getCreatorInfo s creator_) =? 0 then
    let s1 := set_creatorInfo s creator_
                (CreatorInfo.mk creator_ 1 0 0 (timestamp m) false
                   EmptyString EmptyString) in
    let! n := checked_add (totalCreators s1) 1 in
    Ok (push_creator s1 creator_ n)
  else
    let! n := checked_add (CreatorInfo.totalTokens (getCreatorInfo s creator_)) 1 in
    let s1 := set_creatorInfo s creator_
                (CreatorInfo.set_totalTokens (getCreatorInfo s creator_) n) in
    Ok (set_creatorInfo s1 creator_
          (CreatorInfo.set_lastActivity (getCreatorInfo s1 creator_) (timestamp m))).

Definition _registerToken (m : msg) (msg_value : uint256) (tokenAddress_ : address)
    (description_ website_ logo_ : string) (category_ : uint256)
    (tags_ : list string) (creator_ : address) (a : token_answers) (s : state)
    : res state :=
  require! negb (registryPaused s) else Custom RegistryPaused in
  require! negb (tokenAddress_ =? 0) else Custom InvalidTokenAddress in
  require! negb (TokenMetadata.active (getTokenMetadata s tokenAddress_))
    else Custom TokenAlreadyRegistered in
  require! negb (totalCategories s <=? category_) else Custom InvalidCategoryId in
  require! negb (msg_value <? registrationFee s)
    else Custom InsufficientRegistrationFee in
  let! name_ := decode_required (name_answer a) in
  let! symbol_ := decode_required (symbol_answer a) in
  require! negb (is_empty name_) else Custom EmptyName in
  require! negb (is_empty symbol_) else Custom EmptySymbol in
  let! decimals_ := decode_optional 18 (decimals_answer a) in
  require! decimals_ <=? 255 else EmptyRevert in
  let! totalSupply_ := decode_optional 0 (totalSupply_answer a) in
  let metadata :=
    TokenMetadata.mk tokenAddress_ name_ symbol_ decimals_ totalSupply_ 0
      creator_ (timestamp m) description_ website_ logo_ false true
      category_ tags_ in
  let! metadata := try_maxSupply metadata (maxSupply_answer a) in
  let s1 := set_tokenMetadata s tokenAddress_ metadata in
  let! n := checked_add (totalTokensRegistered s1) 1 in
  let s2 := push_token s1 tokenAddress_ n in
  update_creator m creator_ s2.

(** *** Constructor *)

Definition constructor (self_ initialOwner : address) (initialRegistrationFee : uint256)
    (initialTokenFactory : address)
    (initialMinTokensForVerification initialMinVolumeForVerification : uint256)
    : res state :=
  require! negb (initialOwner =? 0) else Base (OwnableInvalidOwner 0) in
  require! negb (initialOwner =? 0) else Custom InvalidCreatorAddress in
  require! negb (initialTokenFactory =? 0) else Custom InvalidTokenAddress in
  let s := mkState initialOwner false ∅ ∅ ∅ [] [] 0 0 0 initialRegistrationFee
             false initialTokenFactory initialMinTokensForVerification
             initialMinVolumeForVerification self_ 0 in
  let! s := _createCategory "DeFi" "Decentralized Finance tokens" s in
  let! s := _createCategory "Gaming" "Gaming and NFT tokens" s in
  let! s := _createCategory "Infrastructure" "Infrastructure and utility tokens" s in
  let! s := _createCategory "Social" "Social and community tokens" s in
  _createCategory "Other" "Other miscellaneous tokens" s.

(** *** External functions *)

Inductive call : Type :=
| registerToken (msg_value : uint256) (tokenAddress_ : address)
    (description_ website_ logo_ : string) (category_ : uint256)
    (tags_ : list string) (a : token_answers)
| registerTokenForCreator (msg_value : uint256) (tokenAddress_ : address)
    (description_ website_ logo_ : string) (category_ : uint256)
    (tags_ : list string) (creator_ : address) (a : token_answers)
| updateTokenMetadata (tokenAddress_ : address) (description_ website_ logo_ : string)
| registerCreator (name_ description_ : string)
| updateCreatorInfo (name_ description_ : string)
| setRegistrationFee (newFee : uint256)
| setRegistryPaused (paused : bool)
| setVerificationRequirements (minTokens minVolume : uint256)
| setTokenVerification (tokenAddress_ : address) (verified_ : bool)
| setCreatorVerification (creator_ : address) (verified_ : bool)
| createCategory (name_ description_ : string)
| updateCategory (categoryId : uint256) (name_ description_ : string) (active_ : bool)
| withdrawFees (amount : uint256) (to : address) (success : bool)
| receive (msg_value : uint256)
(* inherited from Ownable *)
| transferOwnership (newOwner : address)
| renounceOwnership.

Definition do_updateTokenMetadata (m : msg) (tokenAddress_ : address)
    (description_ website_ logo_ : string) (s : state) : res state :=
  require! TokenMetadata.creator (getTokenMetadata s tokenAddress_) =? sender m
    else Custom OnlyCreator in
  require! TokenMetadata.active (getTokenMetadata s tokenAddress_)
    else Custom TokenNotRegistered in
  Ok (set_tokenMetadata s tokenAddress_
        (TokenMetadata.set_texts (getTokenMetadata s tokenAddress_)
           description_ website_ logo_)).

Definition do_registerCreator (m : msg) (name_ description_ : string) (s : state)
    : res state :=
  require! negb (is_empty name_) else Custom EmptyName in
  require! negb (is_empty description_) else Custom EmptyDescription in
  let old := getCreatorInfo s (sender m) in
  let isNewCreator := CreatorInfo.creator old =? 0 in
  let s1 := set_creatorInfo s (sender m)
              (CreatorInfo.mk (sender m)
                 (if isNewCreator then 0 else CreatorInfo.totalTokens old)
                 (if isNewCreator then 0 else CreatorInfo.verifiedTokens old)
                 (if isNewCreator then 0 else CreatorInfo.totalVolume old)
                 (timestamp m)
                 (if isNewCreator then false else CreatorInfo.verified old)
                 name_ description_) in
  if isNewCreator then
    let! n := checked_add (totalCreators s1) 1 in
    Ok (push_creator s1 (sender m) n)
  else Ok s1.

Definition do_updateCreatorInfo (m : msg) (name_ description_ : string) (s : state)
    : res state :=
  let old := getCreatorInfo s (sender m) in
  require! negb (CreatorInfo.creator old =? 0) else Custom InvalidCreatorAddress in
  require! negb (is_empty name_) else Custom EmptyName in
  require! negb (is_empty description_) else Custom EmptyDescription in
  Ok (set_creatorInfo s (sender m)
        (CreatorInfo.set_lastActivity
           (CreatorInfo.set_description (CreatorInfo.set_name old name_) description_)
           (timestamp m))).

Definition do_setTokenVerification (m : msg) (tokenAddress_ : address)
    (verified_ : bool) (s : state) : res state :=
  with! onlyOwner m s in
  require! TokenMetadata.active (getTokenMetadata s tokenAddress_)
    else Custom TokenNotRegistered in
  let s1 := set_tokenMetadata s tokenAddress_
              (TokenMetadata.set_verified (getTokenMetadata s tokenAddress_) verified_) in
  let creator_ := TokenMetadata.creator (getTokenMetadata s1 tokenAddress_) in
  let ci := getCreatorInfo s1 creator_ in
  if verified_ then
    let! n := checked_add (CreatorInfo.verifiedTokens ci) 1 in
    Ok (set_creatorInfo s1 creator_ (CreatorInfo.set_verifiedTokens ci n))
  else
    let! n := checked_sub (CreatorInfo.verifiedTokens ci) 1 in
    Ok (set_creatorInfo s1 creator_ (CreatorInfo.set_verifiedTokens ci n)).

Definition do_setCreatorVerification (m : msg) (creator_ : address)
    (verified_ : bool) (s : state) : res state :=
  with! onlyOwner m s in
  require! negb (CreatorInfo.creator (getCreatorInfo s creator_) =? 0)
    else Custom InvalidCreatorAddress in
  Ok (set_creatorInfo s creator_
        (CreatorInfo.set_verified (getCreatorInfo s creator_) verified_)).

Definition do_updateCategory (m : msg) (categoryId : uint256)
    (name_ description_ : string) (active_ : bool) (s : state) : res state :=
  with! onlyOwner m s in
  require! negb (totalCategories s <=? categoryId) else Custom InvalidCategoryId in
  Ok (set_category s categoryId
        (CategoryInfo.set_info (getCategoryInfo s categoryId)
           name_ description_ active_)).

Definition do_withdrawFees (m : msg) (amount : uint256) (to : address)
    (success : bool) (s : state) : res state :=
  with! onlyOwner m s in
  require! negb (to =? 0) else Custom InvalidCreatorAddress in
  require! negb (balance s <? amount) else Custom InsufficientRegistrationFee in
  require! success else EmptyRevert in
  Ok (if to =? self s then s else set_balance s (balance s - amount)).

(** [exec m s c]: the call [c] with the context [m] in state [s]. The two
    registrations carry what the token answers, [withdrawFees] the
    outcome of the transfer of the amount to [to]. *)
Definition exec (m : msg) (s : state) (c : call) : res state :=
  match c with
  | registerToken msg_value tokenAddress_ description_ website_ logo_
      category_ tags_ a =>
      with! nonReentrant s in
      let! s' := _registerToken m msg_value tokenAddress_ description_ website_
                   logo_ category_ tags_ (sender m) a s in
      Ok (receive_value msg_value s')
  | registerTokenForCreator msg_value tokenAddress_ description_ website_ logo_
      category_ tags_ creator_ a =>
      with! nonReentrant s in
      let! s' := _registerToken m msg_value tokenAddress_ description_ website_
                   logo_ category_ tags_ creator_ a s in
      Ok (receive_value msg_value s')
  | updateTokenMetadata tokenAddress_ description_ website_ logo_ =>
      do_updateTokenMetadata m tokenAddress_ description_ website_ logo_ s
  | registerCreator name_ description_ => do_registerCreator m name_ description_ s
  | updateCreatorInfo name_ description_ => do_updateCreatorInfo m name_ description_ s
  | setRegistrationFee newFee =>
      with! onlyOwner m s in
      Ok (set_registrationFee s newFee)
  | setRegistryPaused paused =>
      with! onlyOwner m s in
      Ok (set_registryPaused s paused)
  | setVerificationRequirements minTokens minVolume =>
      with! onlyOwner m s in
      Ok (set_requirements s minTokens minVolume)
  | setTokenVerification tokenAddress_ verified_ =>
      do_setTokenVerification m tokenAddress_ verified_ s
  | setCreatorVerification creator_ verified_ =>
      do_setCreatorVerification m creator_ verified_ s
  | createCategory name_ description_ =>
      with! onlyOwner m s in
      _createCategory name_ description_ s
  | updateCategory categoryId name_ description_ active_ =>
      do_updateCategory m categoryId name_ description_ active_ s
  | withdrawFees amount to success => do_withdrawFees m amount to success s
  | receive msg_value => Ok (receive_value msg_value s)
  | transferOwnership newOwner =>
      with! onlyOwner m s in
      require! negb (newOwner =? 0) else Base (OwnableInvalidOwner 0) in
      Ok (set_owner s newOwner)
  | renounceOwnership =>
      with! onlyOwner m s in
      Ok (set_owner s 0)
  end.

(** *** The filtered queries

    The three queries run the same two loops: the first walks
    [allTokens] and stores the tokens that pass the test at the front of
    a temporary array, counting them; the second copies the counted
    tokens to the result. *)

(** One turn of the first loop, at index [i]. *)
Definition scan_step (test : address -> bool) (all : list N)
    (acc : list N * nat) (i : nat) : list N * nat :=
  let '(tempTokens, count) := acc in
  match all !! i with
  | Some t => if test t then (<[count := t]> tempTokens, S count) else acc
  | None => acc
  end.

(** One turn of the second loop, at index [i]. *)
Definition copy_step (tempTokens : list N) (tokens : list N) (i : nat) : list N :=
  <[i := default 0 (tempTokens !! i)]> tokens.

Definition scan (test : address -> bool) (all : list N) : list N :=
  let '(tempTokens, count) :=
    fold_left (scan_step test all) (seq 0 (length all))
      (replicate (length all) 0, O) in
  fold_left (copy_step tempTokens) (seq 0 count) (replicate count 0).

Definition getTokensByCreator (s : state) (creator_ : address) : list N :=
  scan (fun t => TokenMetadata.creator (getTokenMetadata s t) =? creator_)
    (allTokens s).

Definition getTokensByCategory (s : state) (categoryId : uint256) : res (list N) :=
  require! negb (totalCategories s <=? categoryId) else Custom InvalidCategoryId in
  Ok (scan (fun t => TokenMetadata.category (getTokenMetadata s t) =? categoryId)
        (allTokens s)).

Definition getVerifiedTokens (s : state) : list N :=
  scan (fun t => TokenMetadata.verified (getTokenMetadata s t)) (allTokens s).

Definition getVerifiedCreators (s : state) : list N :=
  scan (fun c => CreatorInfo.verified (getCreatorInfo s c)) (allCreators s).

(** The record the creator has after [update_creator]. *)
Definition updated_creator (m : msg) (c : address) (s : state) : CreatorInfo.t :=
  if CreatorInfo.creator (getCreatorInfo s c) =? 0
  then CreatorInfo.mk c 1 0 0 (timestamp m) false EmptyString EmptyString
  else CreatorInfo.set_lastActivity
         (CreatorInfo.set_totalTokens (getCreatorInfo s c)
            (CreatorInfo.totalTokens (getCreatorInfo s c) + 1))
         (timestamp m).

(** *** Runs and reachable states *)

Fixpoint run (s : state) (cs : list (msg * call)) : state :=
  match cs with
  | [] => s
  | (m, c) :: cs' => run (state_after s (exec m s c)) cs'
  end.

Inductive reachable : state -> Prop :=
| reachable_constructor self_ initialOwner fee factory minTokens minVolume s :
    constructor self_ initialOwner fee factory minTokens minVolume = Ok s ->
    reachable s
| reachable_call s m c s' :
    reachable s -> exec m s c = Ok s' -> reachable s'.

(** *** A registry used in the examples

    The registry (at address 600) is owned by address 1, asks a fee of
    3 wei and names the factory at address 500. Address 2 registers the
    token at address 77, a token that has no [maxSupply()]; then the
    owner verifies it. *)
Definition sample_registry : state :=
  match constructor 600 1 3 500 1 1000 with
  | Ok s => s
  | Revert _ => mkState 0 false ∅ ∅ ∅ [] [] 0 0 0 0 false 0 0 0 0 0
  end.

Definition sample_answers : token_answers :=
  mkAnswers (Returned "Wrapped Coin"%string) (Returned "WCN"%string) (Returned 18)
    (Returned 1000000) CallFailed.

Definition sample_registerToken : call :=
  registerToken 3 77 "A wrapped coin" "https://coin.example"
    "https://coin.example/logo.png" 0 ["wrapped"%string] sample_answers.

Definition sample_registry_1 : state :=
  run sample_registry [(mkMsg 2 1700000000, sample_registerToken)].

Definition sample_registry_2 : state :=
  run sample_registry_1 [(mkMsg 1 1700000100, setTokenVerification 77 true)].

(** Address 3 registers the token at address 88 in the name of
    address 4. *)
Definition sample_registerTokenForCreator : call :=
  registerTokenForCreator 3 88 "A gift" "https://gift.example"
    "https://gift.example/logo.png" 1 [] 4 sample_answers.

(** What the bookkeeping of the registry keeps true, stated on the two
    mappings, the list of tokens and its counter: the counter is the
    length of the list; a written record is active, belongs to a listed
    token and to a creator with a record; every listed token has a record;
    no token is listed twice; the record of a creator carries the address
    it is stored at, and a total volume of zero. *)
Record ledger_ok (meta : gmap N TokenMetadata.t) (all : list N) (count : uint256)
    (creators : gmap N CreatorInfo.t) : Prop := mkLedgerOk {
  reg_count : count = N.of_nat (length all);
  reg_written : forall t md,
    meta !! t = Some md ->
    TokenMetadata.active md = true /\ t ∈ all /\
    is_Some (creators !! TokenMetadata.creator md);
  reg_listed : forall t, t ∈ all -> is_Some (meta !! t);
  reg_nodup : NoDup all;
  reg_creator_key : forall c ci, creators !! c = Some ci -> CreatorInfo.creator ci = c;
  reg_volume : forall c ci, creators !! c = Some ci -> CreatorInfo.totalVolume ci = 0
}.

Definition registry_inv (s : state) : Prop :=
  ledger_ok (tokenMetadata s) (allTokens s) (totalTokensRegistered s) (creatorInfo s).

(** *** Statistics *)

(** One turn of a counting loop of [getStatistics], at index [i]. *)
Definition count_step (test : address -> bool) (all : list N)
    (acc : res uint256) (i : nat) : res uint256 :=
  let! n := acc in
  match all !! i with
  | None => Revert (Panic array_out_of_bounds)
  | Some a => if test a then checked_add n 1 else Ok n
  end.

Definition count_loop (test : address -> bool) (all : list N) : res uint256 :=
  fold_left (count_step test all) (seq 0 (length all)) (Ok 0).

Definition getStatistics (s : state)
    : res (uint256 * uint256 * uint256 * uint256 * uint256) :=
  let totalTokens := totalTokensRegistered s in
  let totalCreators_ := totalCreators s in
  let totalCategories_ := totalCategories s in
  let! verifiedTokens :=
    count_loop (fun t => TokenMetadata.verified (getTokenMetadata s t)) (allTokens s) in
  let! verifiedCreators :=
    count_loop (fun c => CreatorInfo.verified (getCreatorInfo s c)) (allCreators s) in
  Ok (totalTokens, totalCreators_, totalCategories_, verifiedTokens, verifiedCreators).

(** The fields of a record that no function writes after the
    registration. *)
Definition fixed_fields (md : TokenMetadata.t)
    : address * string * string * N * uint256 * uint256 * address * uint256
      * bool * uint256 * list string :=
  (TokenMetadata.tokenAddress md, TokenMetadata.name md, TokenMetadata.symbol md,
   TokenMetadata.decimals md, TokenMetadata.totalSupply md,
   TokenMetadata.maxSupply md, TokenMetadata.creator md,
   TokenMetadata.registeredAt md, TokenMetadata.active md,
   TokenMetadata.category md, TokenMetadata.tags md).

(** The tokens of [allTokens] registered for the creator [c]. *)
Definition registered_for (s : state) (c : address) : list N :=
  List.filter (fun t => TokenMetadata.creator (getTokenMetadata s t) =? c)
    (allTokens s).

(** The categories written are those below the counter, which has not
    wrapped, and each has a [tokenCount] of zero. *)
Definition categories_ok (cats : gmap N CategoryInfo.t) (total : uint256) : Prop :=
  total <= uint256_max /\
  (forall id, is_Some (cats !! id) <-> id < total) /\
  (forall id ci, cats !! id = Some ci -> CategoryInfo.tokenCount ci = 0).

(** What the bookkeeping keeps true of the creators and the categories:
    the counters are the lengths of the lists and have not wrapped; the
    creators with a record are the listed ones; a creator other than the
    zero address is listed once, and its [totalTokens] is the number of
    tokens registered for it; there are at least five categories. *)
Record book_inv (s : state) : Prop := mkBookInv {
  bk_tokens_bound : totalTokensRegistered s <= uint256_max;
  bk_creators : totalCreators s = N.of_nat (length (allCreators s));
  bk_creators_bound : totalCreators s <= uint256_max;
  bk_listed : forall c, is_Some (creatorInfo s !! c) <-> c ∈ allCreators s;
  bk_nodup : NoDup (filter (fun c => c <> 0) (allCreators s));
  bk_totalTokens : forall c,
    c <> 0 ->
    CreatorInfo.totalTokens (getCreatorInfo s c)
    = N.of_nat (length (registered_for s c));
  bk_categories_min : 5 <= totalCategories s;
  bk_categories : categories_ok (categories s) (totalCategories s)
}.

End TokenRegistry.

(** ** SimpleStorage.sol *)

Module SimpleStorage.

Inductive error : Type :=
| InvalidValue
| ValueTooHigh.

Abbreviation res := (result error).

Definition MAX_VALUE : uint256 := 1000000.

(** Storage of the contract, with [Ownable._owner] and the status of
    [ReentrancyGuard]. *)
Record state : Type := mkState {
  owner : address;
  entered : bool;
  _storedValue : uint256;
  _totalStores : uint256;
  _userStores : gmap N N
}.

Definition getTotalStores (s : state) : uint256 := _totalStores s.

Definition getUserStores (s : state) (user : address) : uint256 :=
  default 0 (_userStores s !! user).

Definition getMaxValue : uint256 := MAX_VALUE.

Definition getContractInfo (s : state) : uint256 * uint256 * uint256 :=
  (_storedValue s, _totalStores s, MAX_VALUE).

Definition set_owner (s : state) (o : address) : state :=
  mkState o (entered s) (_storedValue s) (_totalStores s) (_userStores s).

Definition set_storedValue (s : state) (v : uint256) : state :=
  mkState (owner s) (entered s) v (_totalStores s) (_userStores s).

Definition set_totalStores (s : state) (n : uint256) : state :=
  mkState (owner s) (entered s) (_storedValue s) n (_userStores s).

Definition set_userStores (s : state) (user : address) (n : uint256) : state :=
  mkState (owner s) (entered s) (_storedValue s) (_totalStores s)
    (<[user := n]> (_userStores s)).

Definition onlyOwner (m : msg) (s : state) : res unit :=
  require (owner s =? sender m) (Base (OwnableUnauthorizedAccount (sender m))).

Definition nonReentrant (s : state) : res unit :=
  require (negb (entered s)) (Base ReentrancyGuardReentrantCall).

Definition constructor (initialOwner : address) : res state :=
  require! negb (initialOwner =? 0) else Base (OwnableInvalidOwner 0) in
  Ok (mkState initialOwner false 0 0 ∅).

Inductive call : Type :=
| store (newValue : uint256)
| retrieve
(* inherited from Ownable *)
| transferOwnership (newOwner : address)
| renounceOwnership.

Definition exec (m : msg) (s : state) (c : call) : res state :=
  match c with
  | store newValue =>
      with! onlyOwner m s in
      with! nonReentrant s in
      require! negb (newValue =? 0) else Custom InvalidValue in
      require! negb (MAX_VALUE <? newValue) else Custom ValueTooHigh in
      let s1 := set_storedValue s newValue in
      let! n := checked_add (_totalStores s1) 1 in
      let s2 := set_totalStores s1 n in
      let! k := checked_add (getUserStores s2 (sender m)) 1 in
      Ok (set_userStores s2 (sender m) k)
  | retrieve => Ok s
  | transferOwnership newOwner =>
      with! onlyOwner m s in
      require! negb (newOwner =? 0) else Base (OwnableInvalidOwner 0) in
      Ok (set_owner s newOwner)
  | renounceOwnership =>
      with! onlyOwner m s in
      Ok (set_owner s 0)
  end.

(** The value a call returns: [retrieve] returns the stored value. *)
Definition returned (s : state) (c : call) : option uint256 :=
  match c with
  | retrieve => Some (_storedValue s)
  | _ => None
  end.

Fixpoint run (s : state) (cs : list (msg * call)) : state :=
  match cs with
  | [] => s
  | (m, c) :: cs' => run (state_after s (exec m s c)) cs'
  end.

Inductive reachable : state -> Prop :=
| reachable_constructor initialOwner s :
    constructor initialOwner = Ok s -> reachable s
| reachable_call s m c s' :
    reachable s -> exec m s c = Ok s' -> reachable s'.

(** What the counters keep true: the stored value is within the maximum,
    and zero exactly as long as nothing was stored; the stores of the
    users add up to the total, which has not wrapped. *)
Record storage_inv (s : state) : Prop := mkStorageInv {
  st_max : _storedValue s <= MAX_VALUE;
  st_zero : _storedValue s = 0 <-> _totalStores s = 0;
  st_sum : URBEToken.sum_balances (_userStores s) = _totalStores s;
  st_fit : _totalStores s <= uint256_max
}.

(** The contract owned by address 1, in which the owner has stored 42,
    handed the contract to address 2, and address 2 has stored 7. *)
Definition sample_storage : state :=
  match constructor 1 with
  | Ok s => s
  | Revert _ => mkState 0 false 0 0 ∅
  end.

Definition sample_storage_3 : state :=
  run sample_storage
    [(mkMsg 1 1700000000, store 42);
     (mkMsg 1 1700000100, transferOwnership 2);
     (mkMsg 2 1700000200, store 7)].

End SimpleStorage.
(** ** Proof tools shared by the three contracts *)

Lemma bind_Ok {E A B} (m : result E A) (k : A -> result E B) b :
  bind m k = Ok b -> exists a, m = Ok a /\ k a = Ok b.
Proof. destruct m as [a|f]; simpl; intros H; [eauto | discriminate]. Qed.

Lemma require_Ok {E} (c : bool) (f : failure E) u : require c f = Ok u -> c = true.
Proof. destruct c; simpl; [reflexivity | discriminate]. Qed.

Lemma checked_add_Ok {E} (a b c : N) :
  @checked_add E a b = Ok c -> c = a + b /\ a + b <= uint256_max.
Proof.
  unfold checked_add. destruct (a + b <=? uint256_max) eqn:Hle; [|discriminate].
  intros [= <-]. apply N.leb_le in Hle. auto.
Qed.

Lemma checked_sub_Ok {E} (a b c : N) :
  @checked_sub E a b = Ok c -> c = a - b /\ b <= a.
Proof.
  unfold checked_sub. destruct (b <=? a) eqn:Hle; [|discriminate].
  intros [= <-]. apply N.leb_le in Hle. auto.
Qed.

(** Peel the successful prefix of a monadic computation in [H]. *)
Ltac peel H :=
  lazymatch type of H with
  | bind _ _ = Ok _ =>
      let x := fresh "x" in
      let Hx := fresh "Hg" in
      apply bind_Ok in H; destruct H as (x & Hx & H);
      try (apply require_Ok in Hx)
  end.

Ltac peel_all H := repeat (peel H).

Tactic Notation "peel_as" hyp(H) ident(x) ident(Hx) :=
  lazymatch type of H with
  | bind _ _ = Ok _ =>
      apply bind_Ok in H; destruct H as (x & Hx & H);
      try (apply require_Ok in Hx)
  end.

Lemma wrapping_add_small a b : a + b <= uint256_max -> wrapping_add a b = a + b.
Proof.
  unfold wrapping_add, uint256_max, modulus. intros H. apply N.mod_small. lia.
Qed.

Lemma wrapping_sub_small a b : b <= a -> a <= uint256_max -> wrapping_sub a b = a - b.
Proof.
  unfold wrapping_sub, uint256_max. intros Hb Ha.
  assert (Hm : modulus = 115792089237316195423570985008687907853269984665640564039457584007913129639936)
    by reflexivity.
  rewrite (N.mod_small b) by lia.
  replace (a + modulus - b) with ((a - b) + 1 * modulus) by lia.
  rewrite N.Div0.mod_add. apply N.mod_small. lia.
Qed.

Import URBEToken (sum_balances).

Lemma sum_balances_empty : sum_balances ∅ = 0.
Proof. apply map_fold_empty. Qed.

Lemma sum_balances_insert_fresh (m : gmap N N) k v :
  m !! k = None -> sum_balances (<[k := v]> m) = v + sum_balances m.
Proof.
  intros Hk. unfold sum_balances.
  apply (map_fold_insert_L (fun _ v acc => v + acc)); [|exact Hk].
  intros; lia.
Qed.

Lemma sum_balances_delete (m : gmap N N) k v :
  m !! k = Some v -> sum_balances m = v + sum_balances (delete k m).
Proof.
  intros Hk. unfold sum_balances.
  apply (map_fold_delete_L (fun _ v acc => v + acc)); [|exact Hk].
  intros; lia.
Qed.

Lemma sum_balances_insert (m : gmap N N) k v :
  sum_balances (<[k := v]> m) + default 0 (m !! k) = sum_balances m + v.
Proof.
  destruct (m !! k) as [x|] eqn:Hk; simpl.
  - rewrite (sum_balances_delete m k x Hk).
    rewrite <- (insert_delete_eq m k v).
    rewrite sum_balances_insert_fresh by apply lookup_delete_eq. lia.
  - rewrite sum_balances_insert_fresh by exact Hk. lia.
Qed.

Lemma balance_le_sum (m : gmap N N) k : default 0 (m !! k) <= sum_balances m.
Proof.
  destruct (m !! k) as [x|] eqn:Hk; simpl; [|lia].
  rewrite (sum_balances_delete m k x Hk). lia.
Qed.

Lemma bind_reverts {E A B} (m : result E A) (k : A -> result E B) :
  (forall a, reverts (k a)) -> reverts (bind m k).
Proof. intros H. destruct m; simpl; [apply H | unfold reverts; eauto]. Qed.

Lemma bind_reverts_l {E A B} (m : result E A) (k : A -> result E B) :
  reverts m -> reverts (bind m k).
Proof. intros [f ->]. simpl. eexists; reflexivity. Qed.

Lemma reverts_state_after {E S} (s : S) (r : result E S) :
  reverts r -> state_after s r = s.
Proof. intros [f ->]. reflexivity. Qed.

Lemma reverts_not_Ok {E A} (r : result E A) a : reverts r -> r <> Ok a.
Proof. intros [f ->]. discriminate. Qed.

Lemma nonempty_length (x : string) :
  x <> EmptyString -> (String.length x =? 0)%nat = false.
Proof. destruct x; [congruence | reflexivity]. Qed.

(** ** Properties of URBEToken *)

Module URBETokenProps.
Import URBEToken.

Lemma ERC20_update_ledger from to value s s' :
  ERC20_update from to value s = Ok s' ->
  ledger_consistent s ->
  ledger_consistent s' /\ maxSupply s' = maxSupply s /\
  (if from =? 0 then totalSupply s' <= totalSupply s + value
   else totalSupply s' <= totalSupply s).
Proof.
  unfold ERC20_update, ledger_consistent. intros H [Hsum Hmax].
  destruct (from =? 0) eqn:Hfrom.
  - peel H. peel Hg. injection Hg as <-. apply checked_add_Ok in Hg0 as [-> Hle].
    destruct (to =? 0); injection H as <-; simpl.
    + rewrite wrapping_sub_small by lia. repeat split; try lia.
    + unfold balanceOf; simpl.
      pose proof (balance_le_sum (balances s) to) as Hb.
      pose proof (sum_balances_insert (balances s) to
                    (wrapping_add (default 0 (balances s !! to)) value)) as Hi.
      rewrite wrapping_add_small in * by lia.
      repeat split; lia.
  - peel H. peel Hg. apply negb_true_iff, N.ltb_ge in Hg0.
    injection Hg as <-.
    pose proof (balance_le_sum (balances s) from) as Hb.
    pose proof (sum_balances_insert (balances s) from (balanceOf s from - value)) as Hi.
    unfold balanceOf in *.
    destruct (to =? 0); injection H as <-; simpl.
    + rewrite wrapping_sub_small by lia. repeat split; lia.
    + set (m1 := <[from := default 0 (balances s !! from) - value]> (balances s)) in *.
      pose proof (balance_le_sum m1 to) as Hb1.
      pose proof (sum_balances_insert m1 to
                    (wrapping_add (default 0 (m1 !! to)) value)) as Hi1.
      rewrite wrapping_add_small in * by lia.
      repeat split; lia.
Qed.

Lemma _update_ledger from to value s s' :
  _update from to value s = Ok s' ->
  ledger_consistent s ->
  ledger_consistent s' /\ maxSupply s' = maxSupply s /\
  (if from =? 0 then totalSupply s' <= totalSupply s + value
   else totalSupply s' <= totalSupply s).
Proof.
  unfold _update. intros H. peel H. eauto using ERC20_update_ledger.
Qed.

Lemma _mint_supply account value s s' :
  _mint account value s = Ok s' ->
  ledger_consistent s ->
  totalSupply s + value <= maxSupply s ->
  supply_inv s' /\ maxSupply s' = maxSupply s.
Proof.
  unfold _mint, supply_inv. intros H Hl Hle. peel H.
  apply _update_ledger in H as (? & Hm & Ht); [|exact Hl].
  simpl in Ht. split; [split; [assumption | lia] | assumption].
Qed.

Lemma _burn_supply account value s s' :
  _burn account value s = Ok s' -> supply_inv s -> supply_inv s'.
Proof.
  unfold _burn, supply_inv. intros H [Hl Hle]. peel H.
  apply negb_true_iff in Hg.
  apply _update_ledger in H as (? & Hm & Ht); [|exact Hl].
  rewrite Hg in Ht. split; [assumption | lia].
Qed.

Lemma _transfer_supply from to value s s' :
  _transfer from to value s = Ok s' -> supply_inv s -> supply_inv s'.
Proof.
  unfold _transfer, supply_inv. intros H [Hl Hle]. peel H. peel H.
  apply negb_true_iff in Hg.
  apply _update_ledger in H as (? & Hm & Ht); [|exact Hl].
  rewrite Hg in Ht. split; [assumption | lia].
Qed.

Lemma _mintTokens_supply to amount s s' :
  _mintTokens to amount s = Ok s' -> supply_inv s -> supply_inv s'.
Proof.
  unfold _mintTokens. intros H [Hl Hle]. peel_all H.
  apply checked_add_Ok in Hg2 as [-> _].
  apply negb_true_iff, N.ltb_ge in Hg3.
  eapply (proj1 (_mint_supply _ _ _ _ H Hl ltac:(lia))).
Qed.

Lemma _approve_supply o sp value s s' :
  _approve o sp value s = Ok s' -> supply_inv s -> supply_inv s'.
Proof.
  unfold _approve. intros H Hi. peel_all H. injection H as <-. exact Hi.
Qed.

Lemma _spendAllowance_supply o sp value s s' :
  _spendAllowance o sp value s = Ok s' -> supply_inv s -> supply_inv s'.
Proof.
  unfold _spendAllowance. intros H Hi.
  destruct (allowance s o sp <? uint256_max).
  - peel H. eauto using _approve_supply.
  - injection H as <-. exact Hi.
Qed.

Lemma grant_by_owner_supply r account sender b s s' :
  grant_by_owner r account sender b s = Ok s' -> supply_inv s -> supply_inv s'.
Proof.
  unfold grant_by_owner. intros H Hi. peel_all H. injection H as <-. exact Hi.
Qed.

Lemma constructor_supply name_ symbol_ initialSupply maxSupply_ initialOwner m b p s :
  constructor name_ symbol_ initialSupply maxSupply_ initialOwner m b p = Ok s ->
  supply_inv s /\ maxSupply s = maxSupply_.
Proof.
  unfold constructor. intros H. peel_all H.
  apply negb_true_iff, N.ltb_ge in Hg2.
  destruct (0 <? initialSupply).
  - apply _mint_supply in H; [exact H | | simpl; lia].
    split; simpl; [apply sum_balances_empty | unfold uint256_max; lia].
  - injection H as <-. simpl. split; [split; [split|]|]; simpl.
    + apply sum_balances_empty.
    + unfold uint256_max. lia.
    + lia.
    + reflexivity.
Qed.

Lemma exec_supply sender s c s' :
  exec sender s c = Ok s' -> supply_inv s -> supply_inv s'.
Proof.
  intros H Hi. destruct c; simpl in H;
    try (peel_all H; injection H as <-; exact Hi);
    eauto using grant_by_owner_supply, _approve_supply, _transfer_supply.
  - peel_all H. eauto using _mintTokens_supply.
  - peel_all H. eauto using _mintTokens_supply.
  - peel_all H. unfold _burnTokens in H. peel_all H. eauto using _burn_supply.
  - peel_all H. unfold _burnTokensFrom in H. peel_all H. eauto using _burn_supply.
  - peel H. eauto using _spendAllowance_supply, _transfer_supply.
Qed.

Lemma reachable_supply_inv s : reachable s -> supply_inv s.
Proof.
  induction 1 as [? ? ? ? ? ? ? ? s Hc | s sender c s' _ IH Hx].
  - apply constructor_supply in Hc as [? _]. assumption.
  - eauto using exec_supply.
Qed.

(** *** The guards of the supply *)

Lemma _mintTokens_exceeding to amount s :
  maxSupply s < totalSupply s + amount -> reverts (_mintTokens to amount s).
Proof.
  intros Hgt. unfold _mintTokens, reverts, checked_add.
  destruct (mintingEnabled s); simpl; [|eauto].
  destruct (to =? 0); simpl; [eauto|].
  destruct (amount =? 0); simpl; [eauto|].
  destruct (totalSupply s + amount <=? uint256_max); simpl; [|eauto].
  destruct (maxSupply s <? totalSupply s + amount) eqn:Hlt; simpl; [eauto|].
  apply N.ltb_ge in Hlt. lia.
Qed.

Lemma _mintTokens_MaxSupplyExceeded to amount s :
  mintingEnabled s = true -> to <> 0 -> amount <> 0 ->
  totalSupply s + amount <= uint256_max ->
  maxSupply s < totalSupply s + amount ->
  _mintTokens to amount s = Revert (Custom MaxSupplyExceeded).
Proof.
  intros Hm Hto Ham Hfit Hgt. unfold _mintTokens, checked_add.
  rewrite Hm. simpl.
  apply N.eqb_neq in Hto, Ham. rewrite Hto, Ham. simpl.
  apply N.leb_le in Hfit. rewrite Hfit. simpl.
  apply N.ltb_lt in Hgt. rewrite Hgt. reflexivity.
Qed.

(** Which check stops [_mintTokens] above the maximum: the first that
    fails, in the order of the source. *)
Lemma _mintTokens_above_max_error to amount s :
  maxSupply s < totalSupply s + amount ->
  _mintTokens to amount s
  = Revert (if negb (mintingEnabled s) then Custom MintingDisabled
            else if to =? 0 then Custom ZeroAddress
            else if amount =? 0 then Custom ZeroAmount
            else if uint256_max <? totalSupply s + amount
                 then Panic arithmetic_overflow
            else Custom MaxSupplyExceeded).
Proof.
  intros Hgt. unfold _mintTokens, checked_add.
  destruct (mintingEnabled s); simpl; [|reflexivity].
  destruct (to =? 0); simpl; [reflexivity|].
  destruct (amount =? 0); simpl; [reflexivity|].
  rewrite (N.ltb_antisym (totalSupply s + amount) uint256_max).
  destruct (totalSupply s + amount <=? uint256_max); simpl; [|reflexivity].
  apply N.ltb_lt in Hgt. rewrite Hgt. reflexivity.
Qed.

Lemma constructor_sample :
  constructor "URBE Token"%string "URBE"%string 1 10 1 true true true = Ok sample_token.
Proof. vm_compute. reflexivity. Qed.

Lemma sample_token_reachable : reachable sample_token.
Proof. eapply reachable_constructor, constructor_sample. Qed.

(** C1 (as amended). In every reachable state of a URBEToken the total
    supply is at most the maximum supply. The constructor never succeeds
    with an initial supply above the maximum, and its error is
    [MaxSupplyExceeded] when the owner and the maximum are not zero,
    [OwnableInvalidOwner] for a zero owner and [ZeroAmount] for a zero
    maximum otherwise.
    [mint] and [mintByMinter] never succeed when the total supply plus the
    amount is above the maximum, and their error is [MaxSupplyExceeded]
    when the modifiers and the earlier checks pass and the sum fits in a
    [uint256]; otherwise it is the error of the first check that fails:
    the caller is not authorised, the call is re-entrant, the token is
    paused, minting is disabled, the receiver is zero, the amount is zero,
    or the checked addition overflows ([Panic(0x11)]). *)
Theorem totalSupply_le_maxSupply :
  (forall s, reachable s -> totalSupply s <= maxSupply s) /\
  (forall name_ symbol_ initialSupply maxSupply_ initialOwner m b p,
      maxSupply_ < initialSupply ->
      reverts (constructor name_ symbol_ initialSupply maxSupply_ initialOwner m b p) /\
      (initialOwner <> 0 -> maxSupply_ <> 0 ->
       constructor name_ symbol_ initialSupply maxSupply_ initialOwner m b p
       = Revert (Custom MaxSupplyExceeded)) /\
      constructor name_ symbol_ initialSupply maxSupply_ initialOwner m b p
      = Revert (if initialOwner =? 0 then Base (OwnableInvalidOwner 0)
                else if maxSupply_ =? 0 then Custom ZeroAmount
                else Custom MaxSupplyExceeded)) /\
  (forall sender s to amount,
      maxSupply s < totalSupply s + amount ->
      reverts (exec sender s (mint to amount)) /\
      reverts (exec sender s (mintByMinter to amount)) /\
      (entered s = false -> paused s = false -> mintingEnabled s = true ->
       to <> 0 -> amount <> 0 -> totalSupply s + amount <= uint256_max ->
       (owner s = sender ->
        exec sender s (mint to amount) = Revert (Custom MaxSupplyExceeded)) /\
       (hasRole s MINTER_ROLE sender = true ->
        exec sender s (mintByMinter to amount) = Revert (Custom MaxSupplyExceeded))) /\
      (let after_authorisation :=
         if entered s then Base ReentrancyGuardReentrantCall
         else if paused s then Base EnforcedPause
         else if negb (mintingEnabled s) then Custom MintingDisabled
         else if to =? 0 then Custom ZeroAddress
         else if amount =? 0 then Custom ZeroAmount
         else if uint256_max <? totalSupply s + amount
              then Panic arithmetic_overflow
         else Custom MaxSupplyExceeded in
       exec sender s (mint to amount)
       = Revert (if owner s =? sender then after_authorisation
                 else Base (OwnableUnauthorizedAccount sender)) /\
       exec sender s (mintByMinter to amount)
       = Revert (if hasRole s MINTER_ROLE sender then after_authorisation
                 else Base (AccessControlUnauthorizedAccount sender MINTER_ROLE)))).
Proof.
  split; [|split].
  - intros s Hr. apply reachable_supply_inv in Hr as [_ Hle]. exact Hle.
  - intros name_ symbol_ initialSupply maxSupply_ initialOwner m b p Hgt.
    apply N.ltb_lt in Hgt. unfold constructor, reverts.
    split; [|split].
    + destruct (initialOwner =? 0); simpl; [eauto|].
      destruct (maxSupply_ =? 0); simpl; [eauto|].
      rewrite Hgt. simpl. eauto.
    + intros Ho Hm. apply N.eqb_neq in Ho, Hm. rewrite Ho, Hm. simpl.
      rewrite Hgt. reflexivity.
    + destruct (initialOwner =? 0); simpl; [reflexivity|].
      destruct (maxSupply_ =? 0); simpl; [reflexivity|].
      rewrite Hgt. reflexivity.
  - intros sender s to amount Hgt. split; [|split; [|split]].
    + simpl. do 3 (apply bind_reverts; intros _).
      apply _mintTokens_exceeding, Hgt.
    + simpl. do 3 (apply bind_reverts; intros _).
      apply _mintTokens_exceeding, Hgt.
    + intros He Hp Hm Hto Ham Hfit. split.
      * intros Ho. simpl. unfold onlyOwner, nonReentrant, whenNotPaused.
        rewrite Ho, N.eqb_refl, He, Hp. simpl.
        apply _mintTokens_MaxSupplyExceeded; assumption.
      * intros Hr. simpl. unfold onlyRole, nonReentrant, whenNotPaused.
        rewrite Hr, He, Hp. simpl.
        apply _mintTokens_MaxSupplyExceeded; assumption.
    + cbv zeta. simpl. unfold onlyOwner, onlyRole, nonReentrant, whenNotPaused.
      rewrite (_mintTokens_above_max_error to amount s Hgt).
      split.
      * destruct (owner s =? sender); simpl; [|reflexivity].
        destruct (entered s); simpl; [reflexivity|].
        destruct (paused s); reflexivity.
      * destruct (hasRole s MINTER_ROLE sender); simpl; [|reflexivity].
        destruct (entered s); simpl; [reflexivity|].
        destruct (paused s); reflexivity.
Qed.

Lemma totalSupply_le_maxSupply_witness :
  totalSupply sample_token <= maxSupply sample_token /\
  exec 1 sample_token (mint 2 10) = Revert (Custom MaxSupplyExceeded).
Proof.
  destruct totalSupply_le_maxSupply as (Hinv & _ & Hmint).
  split.
  - apply (Hinv sample_token). exact sample_token_reachable.
  - destruct (Hmint 1 sample_token 2 10) as (_ & _ & Herr & _).
    + vm_compute. reflexivity.
    + assert (Hfit : totalSupply sample_token + 10 <= uint256_max)
        by (vm_compute; discriminate).
      apply (Herr eq_refl eq_refl eq_refl ltac:(discriminate) ltac:(discriminate) Hfit).
      reflexivity.
Defined.

(** C1 (as stated) fails on the error: with one token in supply and a
    maximum of ten, the owner minting [2^256 - 1] tokens is stopped by the
    checked addition of [totalSupply() + amount], not by
    [MaxSupplyExceeded]; and with minting disabled a mint above the
    maximum reverts with [MintingDisabled]. *)
Lemma mint_above_max_other_error :
  reachable sample_token /\
  maxSupply sample_token < totalSupply sample_token + uint256_max /\
  exec 1 sample_token (mint 2 uint256_max) = Revert (Panic arithmetic_overflow) /\
  exec 1 sample_token (mint 2 uint256_max) <> Revert (Custom MaxSupplyExceeded) /\
  exec 1 (set_mintingEnabled sample_token false) (mint 2 10)
  = Revert (Custom MintingDisabled).
Proof.
  split; [exact sample_token_reachable|].
  split; [vm_compute; reflexivity|].
  split; [vm_compute; reflexivity|].
  split; [vm_compute; discriminate|].
  vm_compute; reflexivity.
Qed.

End URBETokenProps.

(** ** More properties of URBEToken: what the calls do to the ledger *)

Module URBETokenLedger.
Import URBEToken.
Import URBETokenProps.

Lemma balanceOf_set_balance s a n a' :
  balanceOf (set_balance s a n) a' = if decide (a = a') then n else balanceOf s a'.
Proof.
  unfold balanceOf. simpl. rewrite lookup_insert. case_decide; reflexivity.
Qed.

(** What [_mint] does to a consistent ledger. *)
Lemma _mint_effect account value s s' :
  _mint account value s = Ok s' -> ledger_consistent s ->
  account <> 0 /\ paused s = false /\
  totalSupply s' = totalSupply s + value /\
  balanceOf s' account = balanceOf s account + value /\
  (forall a, a <> account -> balanceOf s' a = balanceOf s a).
Proof.
  unfold _mint, _update, ERC20_update. intros H [Hsum Hmax].
  peel_as H u1 Hacc. peel_as H u2 Hp. rewrite N.eqb_refl in H.
  peel_as H s1 H1. peel_as H1 t Ht. injection H1 as <-.
  apply checked_add_Ok in Ht as [-> Hfit].
  apply negb_true_iff in Hacc. rewrite Hacc in H. injection H as <-.
  apply negb_true_iff in Hp.
  apply N.eqb_neq in Hacc.
  pose proof (balance_le_sum (balances s) account) as Hb.
  change (balanceOf (set_totalSupply s ?t) account) with (balanceOf s account).
  fold (balanceOf s account) in Hb.
  rewrite wrapping_add_small by lia.
  repeat split; try assumption.
  - rewrite balanceOf_set_balance, decide_True by reflexivity. reflexivity.
  - intros a Ha. rewrite balanceOf_set_balance, decide_False by congruence.
    reflexivity.
Qed.

(** What [_burn] does to a consistent ledger. *)
Lemma _burn_effect account value s s' :
  _burn account value s = Ok s' -> ledger_consistent s ->
  account <> 0 /\ paused s = false /\ value <= balanceOf s account /\
  totalSupply s' = totalSupply s - value /\
  balanceOf s' account = balanceOf s account - value /\
  (forall a, a <> account -> balanceOf s' a = balanceOf s a).
Proof.
  unfold _burn, _update, ERC20_update. intros H [Hsum Hmax].
  peel_as H u1 Hacc. peel_as H u2 Hp.
  apply negb_true_iff in Hacc. rewrite Hacc, N.eqb_refl in H.
  peel_as H s1 H1. peel_as H1 u3 Hbal. injection H1 as <-. injection H as <-.
  apply negb_true_iff in Hp.
  apply N.eqb_neq in Hacc. apply negb_true_iff, N.ltb_ge in Hbal.
  pose proof (balance_le_sum (balances s) account) as Hb.
  fold (balanceOf s account) in Hb. simpl.
  rewrite wrapping_sub_small by lia.
  repeat split; try assumption.
  - change (balanceOf (set_totalSupply ?s0 ?t) account) with (balanceOf s0 account).
    rewrite balanceOf_set_balance, decide_True by reflexivity. reflexivity.
  - intros a Ha.
    change (balanceOf (set_totalSupply ?s0 ?t) a) with (balanceOf s0 a).
    rewrite balanceOf_set_balance, decide_False by congruence. reflexivity.
Qed.

(** What [_transfer] does to a consistent ledger. *)
Lemma _transfer_effect from to value s s' :
  _transfer from to value s = Ok s' -> ledger_consistent s ->
  from <> 0 /\ to <> 0 /\ paused s = false /\ value <= balanceOf s from /\
  totalSupply s' = totalSupply s /\
  (forall a, a <> from -> a <> to -> balanceOf s' a = balanceOf s a) /\
  (from = to -> balanceOf s' from = balanceOf s from) /\
  (from <> to ->
   balanceOf s' from = balanceOf s from - value /\
   balanceOf s' to = balanceOf s to + value).
Proof.
  unfold _transfer, _update, ERC20_update. intros H [Hsum Hmax].
  peel_as H u1 Hfrom. peel_as H u2 Hto. peel_as H u3 Hp.
  apply negb_true_iff in Hfrom, Hto. rewrite Hfrom in H.
  peel_as H s1 H1. peel_as H1 u4 Hbal. injection H1 as <-.
  rewrite Hto in H. injection H as <-.
  apply negb_true_iff in Hp.
  apply N.eqb_neq in Hfrom, Hto. apply negb_true_iff, N.ltb_ge in Hbal.
  pose proof (balance_le_sum (balances s) from) as Hb.
  pose proof (sum_balances_insert (balances s) from (balanceOf s from - value)) as Hi.
  fold (balanceOf s from) in Hb, Hi.
  assert (Hb1 : balanceOf (set_balance s from (balanceOf s from - value)) to
                <= sum_balances (<[from := balanceOf s from - value]> (balances s)))
    by apply balance_le_sum.
  rewrite wrapping_add_small by lia.
  split; [assumption|]. split; [assumption|]. split; [assumption|].
  split; [assumption|]. split; [reflexivity|].
  split; [|split].
  - intros a Ha Hb'. rewrite !balanceOf_set_balance.
    repeat case_decide; congruence.
  - intros <-. rewrite !balanceOf_set_balance.
    repeat case_decide; try congruence. lia.
  - intros Hne. rewrite !balanceOf_set_balance.
    repeat case_decide; try congruence. auto.
Qed.

(** X1. In every reachable state the balances add up to the total
    supply, so no holder has more than the total supply, and the total
    supply fits in a [uint256]. *)
Theorem balances_sum_to_totalSupply s :
  reachable s ->
  sum_balances (balances s) = totalSupply s /\
  (forall a, balanceOf s a <= totalSupply s) /\
  totalSupply s <= uint256_max.
Proof.
  intros Hr. apply reachable_supply_inv in Hr as [[Hsum Hmax] _].
  split; [exact Hsum|]. split; [|exact Hmax].
  intros a. rewrite <- Hsum. apply balance_le_sum.
Qed.

Lemma balances_sum_to_totalSupply_witness :
  sum_balances (balances sample_token) = totalSupply sample_token /\
  (forall a, balanceOf sample_token a <= totalSupply sample_token) /\
  totalSupply sample_token <= uint256_max.
Proof. exact (balances_sum_to_totalSupply sample_token sample_token_reachable). Defined.

(** X2. A successful [mint] or [mintByMinter] of [amount] adds exactly
    [amount] to the total supply and to the balance of [to], and changes
    no other balance. *)
Theorem mint_effect sender s to amount s' :
  reachable s ->
  exec sender s (mint to amount) = Ok s' \/
  exec sender s (mintByMinter to amount) = Ok s' ->
  amount <> 0 /\ to <> 0 /\
  totalSupply s' = totalSupply s + amount /\
  balanceOf s' to = balanceOf s to + amount /\
  (forall a, a <> to -> balanceOf s' a = balanceOf s a) /\
  maxSupply s' = maxSupply s /\ totalSupply s' <= maxSupply s.
Proof.
  intros Hr Hx. apply reachable_supply_inv in Hr as [Hl Hle].
  assert (Hm : _mintTokens to amount s = Ok s').
  { destruct Hx as [Hx|Hx]; simpl in Hx; do 3 peel Hx; exact Hx. }
  clear Hx. unfold _mintTokens in Hm.
  peel_as Hm u1 Hen. peel_as Hm u2 Hto. peel_as Hm u3 Ham.
  peel_as Hm sum Hsum. peel_as Hm u4 Hmax.
  apply checked_add_Ok in Hsum as [-> _].
  apply negb_true_iff, N.eqb_neq in Ham.
  apply negb_true_iff, N.ltb_ge in Hmax.
  destruct (_mint_supply _ _ _ _ Hm Hl Hmax) as [_ Hms].
  destruct (_mint_effect _ _ _ _ Hm Hl) as (Hz & _ & Hts & Hb & Ho).
  rewrite Hms, Hts. repeat split; assumption.
Qed.

Lemma mint_effect_witness :
  totalSupply (state_after sample_token (exec 1 sample_token (mint 2 9)))
  = totalSupply sample_token + 9.
Proof.
  destruct (exec 1 sample_token (mint 2 9)) as [s'|f] eqn:Hx;
    [|vm_compute in Hx; discriminate].
  apply (mint_effect 1 sample_token 2 9 s' sample_token_reachable (or_introl Hx)).
Defined.

(** X3. A successful [burn] takes exactly [amount] from the balance of
    the caller and from the total supply; a successful [burnFrom] takes it
    from the balance of [from]. The amount is not zero and not more than
    the balance, and no other balance changes. *)
Theorem burn_effect sender s from amount s' :
  reachable s ->
  (from = sender /\ exec sender s (burn amount) = Ok s') \/
  exec sender s (burnFrom from amount) = Ok s' ->
  amount <> 0 /\ amount <= balanceOf s from /\
  totalSupply s' = totalSupply s - amount /\
  balanceOf s' from = balanceOf s from - amount /\
  (forall a, a <> from -> balanceOf s' a = balanceOf s a).
Proof.
  intros Hr Hx. apply reachable_supply_inv in Hr as [Hl Hle].
  assert (Hb : amount <> 0 /\ _burn from amount s = Ok s').
  { destruct Hx as [[-> Hx]|Hx]; simpl in Hx.
    - do 2 peel Hx. unfold _burnTokens in Hx.
      peel_as Hx u1 Hen. peel_as Hx u2 Ham. peel_as Hx u3 Hbal.
      apply negb_true_iff, N.eqb_neq in Ham. auto.
    - do 3 peel Hx. unfold _burnTokensFrom in Hx.
      peel_as Hx u1 Hen. peel_as Hx u2 Hfrom. peel_as Hx u3 Ham.
      peel_as Hx u4 Hbal.
      apply negb_true_iff, N.eqb_neq in Ham. auto. }
  destruct Hb as [Ham Hb].
  destruct (_burn_effect _ _ _ _ Hb Hl) as (_ & _ & Hle' & Hts & Hbal & Ho).
  repeat split; assumption.
Qed.

Lemma burn_effect_witness :
  totalSupply (state_after sample_token (exec 1 sample_token (burn 1)))
  = totalSupply sample_token - 1.
Proof.
  destruct (exec 1 sample_token (burn 1)) as [s'|f] eqn:Hx;
    [|vm_compute in Hx; discriminate].
  apply (burn_effect 1 sample_token 1 1 s' sample_token_reachable
           (or_introl (conj eq_refl Hx))).
Defined.

(** X4. [burnFrom] asks for no allowance: an account with the burner role
    burns from any holder that has the amount, whatever the allowances
    are, when burning is enabled and the token is not paused. *)
Theorem burnFrom_needs_no_allowance sender s from amount :
  reachable s ->
  hasRole s BURNER_ROLE sender = true ->
  entered s = false -> paused s = false -> burningEnabled s = true ->
  from <> 0 -> amount <> 0 -> amount <= balanceOf s from ->
  allowance s from sender = 0 ->
  exists s',
    exec sender s (burnFrom from amount) = Ok s' /\
    balanceOf s' from = balanceOf s from - amount /\
    allowances s' = allowances s.
Proof.
  intros Hr Hrole He Hp Hen Hfrom Ham Hbal _.
  assert (Hx : exists s', exec sender s (burnFrom from amount) = Ok s' /\
                          allowances s' = allowances s).
  { simpl. unfold onlyRole, nonReentrant, whenNotPaused, _burnTokensFrom.
    rewrite Hrole, He, Hp, Hen. simpl.
    apply N.eqb_neq in Hfrom, Ham. rewrite Hfrom, Ham. simpl.
    apply N.ltb_ge in Hbal. rewrite Hbal. simpl.
    unfold _burn, _update, whenNotPaused, ERC20_update.
    rewrite Hfrom, Hp, N.eqb_refl. simpl. rewrite ?Hfrom, ?Hbal. simpl.
    eexists. split; reflexivity. }
  destruct Hx as (s' & Hx & Hal). exists s'. split; [exact Hx|].
  split; [|exact Hal].
  pose proof Hx as Hb. simpl in Hb. do 3 peel Hb.
  unfold _burnTokensFrom in Hb. do 4 peel Hb.
  apply reachable_supply_inv in Hr as [Hl _].
  destruct (_burn_effect _ _ _ _ Hb Hl) as (_ & _ & _ & _ & Hbal' & _).
  exact Hbal'.
Qed.

Lemma burnFrom_needs_no_allowance_witness :
  succeeds
    (exec 1 (state_after sample_token (exec 1 sample_token (transfer 2 1)))
       (burnFrom 2 1)).
Proof.
  assert (Hr : reachable
                 (state_after sample_token (exec 1 sample_token (transfer 2 1)))).
  { destruct (exec 1 sample_token (transfer 2 1)) as [s1|f] eqn:Hx;
      [|vm_compute in Hx; discriminate].
    eapply reachable_call; [exact sample_token_reachable | exact Hx]. }
  destruct (burnFrom_needs_no_allowance 1 _ 2 1 Hr) as (s' & Hx & _);
    try (vm_compute; reflexivity); try discriminate.
  exists s'. exact Hx.
Defined.

(** X5. A successful [transfer] keeps the total supply and moves exactly
    [value] from the caller to [to]; a transfer to oneself changes no
    balance. The value is not more than the balance of the caller. *)
Theorem transfer_effect sender s to value s' :
  reachable s ->
  exec sender s (transfer to value) = Ok s' ->
  value <= balanceOf s sender /\
  totalSupply s' = totalSupply s /\
  (forall a, a <> sender -> a <> to -> balanceOf s' a = balanceOf s a) /\
  (sender = to -> balanceOf s' sender = balanceOf s sender) /\
  (sender <> to ->
   balanceOf s' sender = balanceOf s sender - value /\
   balanceOf s' to = balanceOf s to + value).
Proof.
  intros Hr Hx. apply reachable_supply_inv in Hr as [Hl _]. simpl in Hx.
  destruct (_transfer_effect _ _ _ _ _ Hx Hl) as (_ & _ & _ & H1 & H2 & H3 & H4 & H5).
  repeat split; try assumption; apply H5; assumption.
Qed.

Lemma transfer_effect_witness :
  balanceOf (state_after sample_token (exec 1 sample_token (transfer 2 1))) 2
  = balanceOf sample_token 2 + 1.
Proof.
  destruct (exec 1 sample_token (transfer 2 1)) as [s'|f] eqn:Hx;
    [|vm_compute in Hx; discriminate].
  apply (transfer_effect 1 sample_token 2 1 s' sample_token_reachable Hx).
  discriminate.
Defined.

(** *** Pausing *)

Lemma _update_paused from to value s :
  paused s = true -> _update from to value s = Revert (Base EnforcedPause).
Proof. intros Hp. unfold _update, whenNotPaused. rewrite Hp. reflexivity. Qed.

Lemma ERC20_update_paused from to value s s' :
  ERC20_update from to value s = Ok s' -> paused s' = paused s.
Proof.
  unfold ERC20_update. intros H. peel_as H s1 H1.
  assert (Hp : paused s1 = paused s).
  { destruct (from =? 0); peel H1; injection H1 as <-; reflexivity. }
  destruct (to =? 0); injection H as <-; exact Hp.
Qed.

Lemma _update_keeps_paused from to value s s' :
  _update from to value s = Ok s' -> paused s' = paused s.
Proof. unfold _update. intros H. peel H. eauto using ERC20_update_paused. Qed.

Lemma _spendAllowance_frame o sp value s s' :
  _spendAllowance o sp value s = Ok s' ->
  paused s' = paused s /\ balances s' = balances s /\
  totalSupply s' = totalSupply s.
Proof.
  unfold _spendAllowance, _approve. intros H.
  destruct (allowance s o sp <? uint256_max).
  - do 3 peel H. injection H as <-. auto.
  - injection H as <-. auto.
Qed.

(** X6. While the token is paused no call changes a balance or the total
    supply: mints, burns and transfers revert, and the calls that still
    succeed (approvals, role and owner changes, toggles, [unpause]) do not
    touch the ledger. *)
Theorem paused_freezes_ledger sender s c :
  paused s = true ->
  balances (state_after s (exec sender s c)) = balances s /\
  totalSupply (state_after s (exec sender s c)) = totalSupply s /\
  (forall to amount from value,
      reverts (exec sender s (mint to amount)) /\
      reverts (exec sender s (mintByMinter to amount)) /\
      reverts (exec sender s (burn amount)) /\
      reverts (exec sender s (burnFrom from amount)) /\
      reverts (exec sender s (transfer to value)) /\
      reverts (exec sender s (transferFrom from to value))).
Proof.
  intros Hp.
  assert (Hmint : forall to amount, reverts (exec sender s (mint to amount))).
  { intros. simpl. do 2 (apply bind_reverts; intros _).
    unfold whenNotPaused. rewrite Hp. simpl. eexists; reflexivity. }
  assert (HmintBy : forall to amount, reverts (exec sender s (mintByMinter to amount))).
  { intros. simpl. do 2 (apply bind_reverts; intros _).
    unfold whenNotPaused. rewrite Hp. simpl. eexists; reflexivity. }
  assert (Hburn : forall amount, reverts (exec sender s (burn amount))).
  { intros. simpl. apply bind_reverts; intros _.
    unfold whenNotPaused. rewrite Hp. simpl. eexists; reflexivity. }
  assert (HburnFrom : forall from amount, reverts (exec sender s (burnFrom from amount))).
  { intros. simpl. do 2 (apply bind_reverts; intros _).
    unfold whenNotPaused. rewrite Hp. simpl. eexists; reflexivity. }
  assert (Htransfer : forall to value, reverts (exec sender s (transfer to value))).
  { intros. simpl. unfold _transfer. do 2 (apply bind_reverts; intros _).
    rewrite _update_paused by exact Hp. eexists; reflexivity. }
  assert (HtransferFrom : forall from to value,
             reverts (exec sender s (transferFrom from to value))).
  { intros. simpl.
    destruct (_spendAllowance from sender value s) as [s1|f] eqn:Hs; simpl;
      [|eexists; reflexivity].
    apply _spendAllowance_frame in Hs as (Hp1 & _).
    unfold _transfer. do 2 (apply bind_reverts; intros _).
    rewrite _update_paused by congruence. eexists; reflexivity. }
  assert (Hrev : forall c', reverts (exec sender s c') ->
                 balances (state_after s (exec sender s c')) = balances s /\
                 totalSupply (state_after s (exec sender s c')) = totalSupply s).
  { intros c' Hr. rewrite (reverts_state_after s _ Hr). auto. }
  assert (Hc : balances (state_after s (exec sender s c)) = balances s /\
               totalSupply (state_after s (exec sender s c)) = totalSupply s).
  { destruct c; try (apply Hrev; auto; fail);
      (destruct (exec sender s _) as [s'|f] eqn:Hx; simpl; [|auto]);
      simpl in Hx; unfold grant_by_owner, _approve in Hx;
      repeat peel Hx; injection Hx as <-; auto. }
  destruct Hc as [Hb Ht]. split; [exact Hb|]. split; [exact Ht|].
  intros to amount from value. repeat split; auto.
Qed.

Lemma paused_freezes_ledger_witness :
  reverts (exec 1 (state_after sample_token (exec 1 sample_token pause))
             (transfer 2 1)).
Proof.
  assert (Hp : paused (state_after sample_token (exec 1 sample_token pause)) = true)
    by (vm_compute; reflexivity).
  destruct (paused_freezes_ledger 1 _ pause Hp) as (_ & _ & H).
  destruct (H 2 1 0 1) as (_ & _ & _ & _ & Ht & _). exact Ht.
Defined.

(** X7. [pause] and [unpause] both need [pausingEnabled]: while it is off
    no call changes the paused flag, so a token that was paused before
    pausing was disabled stays paused until the owner enables pausing
    again. *)
Theorem pausing_disabled_keeps_flag sender s c :
  pausingEnabled s = false ->
  paused (state_after s (exec sender s c)) = paused s /\
  reverts (exec sender s pause) /\ reverts (exec sender s unpause).
Proof.
  intros Hd. split; [|split].
  - destruct (exec sender s c) as [s'|f] eqn:Hx; simpl; [|reflexivity].
    destruct c; simpl in Hx;
      unfold grant_by_owner, _approve, _mintTokens, _burnTokens, _burnTokensFrom,
        _transfer, _mint, _burn in Hx;
      try (repeat peel Hx; injection Hx as <-; reflexivity);
      try (repeat peel Hx; eapply _update_keeps_paused; eassumption);
      try (repeat peel Hx; congruence).
    peel Hx. apply _spendAllowance_frame in Hg as (Hp1 & _).
    repeat peel Hx. apply _update_keeps_paused in Hx. congruence.
  - simpl. do 2 (apply bind_reverts; intros _). rewrite Hd. simpl.
    eexists; reflexivity.
  - simpl. do 2 (apply bind_reverts; intros _). rewrite Hd. simpl.
    eexists; reflexivity.
Qed.

Lemma pausing_disabled_keeps_flag_witness :
  reverts
    (exec 1
       (state_after (state_after sample_token (exec 1 sample_token pause))
          (exec 1 (state_after sample_token (exec 1 sample_token pause))
             (togglePausing false)))
       unpause).
Proof.
  assert (Hd : pausingEnabled
                 (state_after (state_after sample_token (exec 1 sample_token pause))
                    (exec 1 (state_after sample_token (exec 1 sample_token pause))
                       (togglePausing false))) = false)
    by (vm_compute; reflexivity).
  destruct (pausing_disabled_keeps_flag 1 _ unpause Hd) as (_ & _ & H). exact H.
Defined.

(** *** The maximum supply *)

Lemma ERC20_update_maxSupply from to value s s' :
  ERC20_update from to value s = Ok s' -> maxSupply s' = maxSupply s.
Proof.
  unfold ERC20_update. intros H. peel_as H s1 H1.
  assert (Hp : maxSupply s1 = maxSupply s).
  { destruct (from =? 0); peel H1; injection H1 as <-; reflexivity. }
  destruct (to =? 0); injection H as <-; exact Hp.
Qed.

Lemma _update_maxSupply from to value s s' :
  _update from to value s = Ok s' -> maxSupply s' = maxSupply s.
Proof. unfold _update. intros H. peel H. eauto using ERC20_update_maxSupply. Qed.

Lemma exec_maxSupply sender s c s' :
  exec sender s c = Ok s' -> maxSupply s' = maxSupply s.
Proof.
  intros Hx. destruct c; simpl in Hx;
    unfold grant_by_owner, _approve, _mintTokens, _burnTokens, _burnTokensFrom,
      _transfer, _mint, _burn in Hx;
    try (repeat peel Hx; injection Hx as <-; reflexivity);
    try (repeat peel Hx; eapply _update_maxSupply; eassumption).
  peel Hx.
  assert (Hm : maxSupply x = maxSupply s).
  { unfold _spendAllowance, _approve in Hg.
    destruct (allowance s from sender <? uint256_max).
    - do 3 peel Hg. injection Hg as <-. reflexivity.
    - injection Hg as <-. reflexivity. }
  repeat peel Hx. apply _update_maxSupply in Hx. congruence.
Qed.

Lemma remainingMintableSupply_reachable s :
  reachable s -> remainingMintableSupply s = Ok (maxSupply s - totalSupply s).
Proof.
  intros Hr. apply reachable_supply_inv in Hr as [_ Hle].
  unfold remainingMintableSupply, checked_sub.
  apply N.leb_le in Hle. rewrite Hle. reflexivity.
Qed.

(** X8. The maximum supply is fixed by the constructor: no call changes
    it; and in a reachable state [remainingMintableSupply()] does not
    revert and returns [maxSupply - totalSupply()]. *)
Theorem maxSupply_fixed :
  (forall name_ symbol_ initialSupply maxSupply_ initialOwner m b p s cs,
      constructor name_ symbol_ initialSupply maxSupply_ initialOwner m b p = Ok s ->
      maxSupply (fold_left (fun s0 '(sender, c) => state_after s0 (exec sender s0 c))
                   cs s)
      = maxSupply_) /\
  (forall s,
      reachable s ->
      remainingMintableSupply s = Ok (maxSupply s - totalSupply s)).
Proof.
  split.
  - intros name_ symbol_ initialSupply maxSupply_ initialOwner m b p s cs Hc.
    apply constructor_supply in Hc as [_ Hm]. revert s Hm.
    induction cs as [|[sender c] cs IH]; intros s Hm; simpl; [exact Hm|].
    apply IH. destruct (exec sender s c) as [s'|f] eqn:Hx; simpl; [|exact Hm].
    rewrite (exec_maxSupply _ _ _ _ Hx). exact Hm.
  - exact remainingMintableSupply_reachable.
Qed.

Lemma maxSupply_fixed_witness :
  remainingMintableSupply sample_token = Ok 9.
Proof.
  destruct maxSupply_fixed as [_ H].
  rewrite (H sample_token sample_token_reachable). vm_compute. reflexivity.
Defined.

(** X9. The owner can mint any amount up to the remaining supply: when
    the token is not paused, minting is enabled, the receiver is not zero
    and [0 < amount <= maxSupply - totalSupply()], [mint] succeeds and the
    remaining supply goes down by [amount]; minting the whole remainder
    brings the total supply to the maximum. *)
Theorem mint_within_remaining_succeeds sender s to amount :
  reachable s ->
  owner s = sender -> entered s = false -> paused s = false ->
  mintingEnabled s = true -> to <> 0 -> amount <> 0 ->
  maxSupply s <= uint256_max ->
  amount <= maxSupply s - totalSupply s ->
  exists s',
    exec sender s (mint to amount) = Ok s' /\
    remainingMintableSupply s' = Ok (maxSupply s - totalSupply s - amount) /\
    (amount = maxSupply s - totalSupply s -> totalSupply s' = maxSupply s').
Proof.
  intros Hr Ho He Hp Hm Hto Ham Hmax Hle.
  pose proof (reachable_supply_inv s Hr) as [[Hsum Hfit] Hinv].
  assert (Hx : succeeds (exec sender s (mint to amount))).
  { simpl. unfold onlyOwner, nonReentrant, whenNotPaused, _mintTokens, checked_add.
    rewrite Ho, N.eqb_refl, He, Hp, Hm. simpl.
    apply N.eqb_neq in Hto, Ham. rewrite Hto, Ham. simpl.
    assert (H1 : (totalSupply s + amount <=? uint256_max) = true)
      by (apply N.leb_le; lia).
    assert (H2 : (maxSupply s <? totalSupply s + amount) = false)
      by (apply N.ltb_ge; lia).
    rewrite H1. simpl. rewrite H2. simpl.
    unfold _mint, _update, whenNotPaused, ERC20_update, checked_add.
    rewrite Hto, Hp, N.eqb_refl. simpl. rewrite H1. simpl. rewrite ?Hto.
    eexists; reflexivity. }
  destruct Hx as [s' Hx]. exists s'. split; [exact Hx|].
  pose proof (exec_maxSupply _ _ _ _ Hx) as Hms.
  assert (Hts : totalSupply s' = totalSupply s + amount).
  { simpl in Hx. do 3 peel Hx. unfold _mintTokens in Hx. do 5 peel Hx.
    apply (_mint_effect _ _ _ _ Hx). split; assumption. }
  assert (Hr' : reachable s') by (eapply reachable_call; eassumption).
  rewrite (remainingMintableSupply_reachable s' Hr'), Hms, Hts.
  split; [f_equal; lia | intros ->; lia].
Qed.

Lemma mint_within_remaining_succeeds_witness :
  exists s',
    exec 1 sample_token (mint 2 9) = Ok s' /\
    remainingMintableSupply s' = Ok 0.
Proof.
  destruct (mint_within_remaining_succeeds 1 sample_token 2 9 sample_token_reachable)
    as (s' & Hx & Hrem & _);
    try reflexivity; try discriminate.
  exists s'. split; [exact Hx|]. rewrite Hrem. vm_compute. reflexivity.
Defined.

(** *** The constructor and the roles *)

(** The state the constructor leaves when its checks pass. *)
Lemma constructor_accepts name_ symbol_ initialSupply maxSupply_ initialOwner m b p :
  initialOwner <> 0 -> maxSupply_ <> 0 -> initialSupply <= maxSupply_ ->
  initialSupply <= uint256_max ->
  exists s,
    constructor name_ symbol_ initialSupply maxSupply_ initialOwner m b p = Ok s /\
    owner s = initialOwner /\ totalSupply s = initialSupply /\
    balanceOf s initialOwner = initialSupply /\ maxSupply s = maxSupply_ /\
    paused s = false /\
    mintingEnabled s = m /\ burningEnabled s = b /\ pausingEnabled s = p.
Proof.
  intros Ho Hm Hle Hfit. unfold constructor.
  apply N.eqb_neq in Ho, Hm. rewrite Ho, Hm. simpl.
  apply N.ltb_ge in Hle. rewrite Hle. simpl.
  destruct (0 <? initialSupply) eqn:Hpos.
  - unfold _mint, _update, whenNotPaused, ERC20_update, checked_add.
    rewrite Ho. simpl. rewrite N.add_0_l.
    apply N.leb_le in Hfit. rewrite Hfit. simpl. rewrite ?Ho.
    eexists. split; [reflexivity|]. simpl.
    repeat split; try reflexivity.
    unfold balanceOf. simpl. rewrite lookup_insert_eq. simpl.
    rewrite lookup_empty. simpl. apply wrapping_add_small.
    apply N.leb_le in Hfit. lia.
  - apply N.ltb_ge in Hpos. assert (initialSupply = 0) as -> by lia.
    eexists. split; [reflexivity|]. simpl. repeat split; reflexivity.
Qed.

(** What a constructor that returned found and left. *)
Lemma constructor_Ok_state name_ symbol_ initialSupply maxSupply_ initialOwner m b p s :
  constructor name_ symbol_ initialSupply maxSupply_ initialOwner m b p = Ok s ->
  initialOwner <> 0 /\ maxSupply_ <> 0 /\ initialSupply <= maxSupply_ /\
  owner s = initialOwner /\ totalSupply s = initialSupply /\
  balanceOf s initialOwner = initialSupply /\ maxSupply s = maxSupply_.
Proof.
  intros Hc. pose proof Hc as Hc'. unfold constructor in Hc'.
  peel_as Hc' u1 Ho. peel Hc'. peel_as Hc' u2 Hm. peel_as Hc' u3 Hle.
  apply negb_true_iff in Ho, Hm, Hle.
  apply N.eqb_neq in Ho, Hm. apply N.ltb_ge in Hle.
  assert (Hfit : initialSupply <= uint256_max).
  { destruct (0 <? initialSupply) eqn:Hpos.
    - unfold _mint, _update, ERC20_update in Hc'. do 2 peel Hc'.
      rewrite N.eqb_refl in Hc'. peel_as Hc' s1 H1. peel_as H1 t Ht.
      apply checked_add_Ok in Ht as [_ Ht]. simpl in Ht. lia.
    - apply N.ltb_ge in Hpos. lia. }
  destruct (constructor_accepts name_ symbol_ initialSupply maxSupply_ initialOwner
              m b p Ho Hm Hle Hfit) as (s0 & Hs0 & H1 & H2 & H3 & H4 & _).
  rewrite Hc in Hs0. injection Hs0 as <-. repeat split; assumption.
Qed.

(** X10. The constructor rejects the zero owner in [Ownable], before its
    own check: it never reverts with [ZeroAddress]. With a non-zero owner
    it fails only on a zero maximum ([ZeroAmount]) or an initial supply
    above the maximum ([MaxSupplyExceeded]), as long as the initial supply
    is a [uint256]; the state it leaves has the whole initial supply on
    the account of the owner. *)
Theorem constructor_outcomes name_ symbol_ initialSupply maxSupply_ initialOwner m b p :
  let r := constructor name_ symbol_ initialSupply maxSupply_ initialOwner m b p in
  r <> Revert (Custom ZeroAddress) /\
  (initialOwner = 0 -> r = Revert (Base (OwnableInvalidOwner 0))) /\
  (initialOwner <> 0 -> maxSupply_ = 0 -> r = Revert (Custom ZeroAmount)) /\
  (initialOwner <> 0 -> maxSupply_ <> 0 -> maxSupply_ < initialSupply ->
   r = Revert (Custom MaxSupplyExceeded)) /\
  (initialOwner <> 0 -> maxSupply_ <> 0 -> initialSupply <= maxSupply_ ->
   initialSupply <= uint256_max ->
   exists s,
     r = Ok s /\ owner s = initialOwner /\ totalSupply s = initialSupply /\
     balanceOf s initialOwner = initialSupply /\ maxSupply s = maxSupply_ /\
     paused s = false /\
     mintingEnabled s = m /\ burningEnabled s = b /\ pausingEnabled s = p).
Proof.
  intros r. unfold r. split; [|split; [|split; [|split]]].
  - unfold constructor.
    destruct (initialOwner =? 0) eqn:Ho; simpl; [discriminate|].
    destruct (maxSupply_ =? 0); simpl; [discriminate|].
    destruct (maxSupply_ <? initialSupply); simpl; [discriminate|].
    destruct (0 <? initialSupply); [|discriminate].
    unfold _mint, _update, whenNotPaused, ERC20_update, checked_add. rewrite Ho. simpl.
    destruct (0 + initialSupply <=? uint256_max); simpl; [|discriminate].
    rewrite ?Ho. discriminate.
  - intros ->. reflexivity.
  - intros Ho ->. unfold constructor. apply N.eqb_neq in Ho. rewrite Ho. reflexivity.
  - intros Ho Hm Hlt. unfold constructor. apply N.eqb_neq in Ho, Hm.
    apply N.ltb_lt in Hlt. rewrite Ho, Hm. simpl. rewrite Hlt. reflexivity.
  - apply constructor_accepts.
Qed.

Lemma constructor_outcomes_witness :
  constructor "T"%string "T"%string 5 10 0 true true true
  = Revert (Base (OwnableInvalidOwner 0)).
Proof.
  destruct (constructor_outcomes "T"%string "T"%string 5 10 0 true true true)
    as (_ & H & _).
  apply H. reflexivity.
Defined.

(** X11. Roles do not follow ownership. The constructor gives the four
    roles to the initial owner and to nobody else; [transferOwnership]
    changes no role: afterwards the new owner passes [onlyOwner] but, if
    it is another account, has no minter role, so its [mintByMinter]
    reverts, while the old owner still holds every role. *)
Theorem roles_do_not_follow_ownership
    name_ symbol_ initialSupply maxSupply_ initialOwner m b p s newOwner s' :
  constructor name_ symbol_ initialSupply maxSupply_ initialOwner m b p = Ok s ->
  exec initialOwner s (transferOwnership newOwner) = Ok s' ->
  newOwner <> initialOwner ->
  owner s' = newOwner /\
  (forall r a, hasRole s' r a = hasRole s r a) /\
  hasRole s' DEFAULT_ADMIN_ROLE initialOwner = true /\
  hasRole s' MINTER_ROLE initialOwner = true /\
  hasRole s' BURNER_ROLE initialOwner = true /\
  hasRole s' PAUSER_ROLE initialOwner = true /\
  (forall r, hasRole s' r newOwner = false) /\
  (forall to amount,
      exec newOwner s' (mintByMinter to amount)
      = Revert (Base (AccessControlUnauthorizedAccount newOwner MINTER_ROLE))).
Proof.
  intros Hc Hx Hne.
  assert (Hroles : forall r a,
             hasRole s r a
             = if decide (a = initialOwner)
               then match r with
                    | OtherRole _ => false
                    | _ => true
                    end
               else false).
  { intros r a. unfold constructor in Hc. do 4 peel Hc.
    assert (Hr : forall s0, roles s0 = roles
                   (set_role (set_role (set_role (set_role
                      (set_config (set_owner (empty_state name_ symbol_) initialOwner)
                         maxSupply_ m b p)
                      DEFAULT_ADMIN_ROLE initialOwner true)
                      MINTER_ROLE initialOwner true)
                      BURNER_ROLE initialOwner true)
                      PAUSER_ROLE initialOwner true) ->
                 hasRole s0 r a
                 = if decide (a = initialOwner)
                   then match r with
                        | OtherRole _ => false
                        | _ => true
                        end
                   else false).
    { intros s0 Hs0. unfold hasRole. rewrite Hs0. simpl.
      repeat case_decide; destruct r; try reflexivity;
        repeat match goal with
               | H : _ /\ _ |- _ => destruct H
               | H : ~ (_ /\ _) |- _ => exfalso; apply H; split; congruence
               end; try congruence. }
    destruct (0 <? initialSupply).
    - apply Hr. unfold _mint, _update, ERC20_update in Hc.
      peel Hc. peel Hc. rewrite N.eqb_refl in Hc. peel_as Hc s1 H1.
      peel H1. injection H1 as <-.
      destruct (initialOwner =? 0); injection Hc as <-; reflexivity.
    - injection Hc as <-. apply Hr. reflexivity. }
  simpl in Hx. do 2 peel Hx. injection Hx as <-.
  assert (Hsame : forall r a, hasRole (set_owner s newOwner) r a = hasRole s r a)
    by reflexivity.
  split; [reflexivity|]. split; [exact Hsame|].
  rewrite !Hsame, !Hroles. rewrite !decide_True by reflexivity.
  repeat (split; [reflexivity|]).
  split.
  - intros r. rewrite Hsame, Hroles, decide_False by exact Hne. reflexivity.
  - intros to amount. simpl. unfold onlyRole.
    rewrite Hsame, Hroles, decide_False by exact Hne. reflexivity.
Qed.

Lemma roles_do_not_follow_ownership_witness :
  exec 2 (state_after sample_token (exec 1 sample_token (transferOwnership 2)))
    (mintByMinter 3 1)
  = Revert (Base (AccessControlUnauthorizedAccount 2 MINTER_ROLE)).
Proof.
  destruct (exec 1 sample_token (transferOwnership 2)) as [s'|f] eqn:Hx;
    [|vm_compute in Hx; discriminate].
  apply (roles_do_not_follow_ownership _ _ _ _ _ _ _ _ _ 2 s' constructor_sample Hx).
  discriminate.
Defined.

End URBETokenLedger.

(** ** Properties of TokenFactory *)

Module TokenFactoryProps.
Import TokenFactory.

Section Factory.

Variable new_token_address : N -> address.

Abbreviation exec := (exec new_token_address).
Abbreviation _deployToken := (_deployToken new_token_address).
Abbreviation run := (run new_token_address).
Abbreviation reachable := (reachable new_token_address).
Abbreviation ledger_inv := (ledger_inv new_token_address).
Abbreviation deployed := (deployed new_token_address).
Abbreviation deployments_of := (deployments_of new_token_address).
Abbreviation ledger_step := (ledger_step new_token_address).

(** What a successful [_deployToken] did. *)
Lemma _deployToken_Ok m v name_ symbol_ init max tokenOwner me be pe s s' t :
  _deployToken m v name_ symbol_ init max tokenOwner me be pe s = Ok (s', t) ->
  t = new_token_address (nonce s) /\
  s' = record_token s (sender m)
         (mkTokenInfo t name_ symbol_ init max (sender m) (timestamp m) me be pe)
         (totalTokensDeployed s + 1) /\
  totalTokensDeployed s + 1 <= uint256_max /\
  factoryPaused s = false /\
  deploymentFee s <= v /\
  getTokenCountByCreator s (sender m) < maxTokensPerCreator s.
Proof.
  unfold TokenFactory._deployToken. intros H. do 9 peel H.
  destruct (URBEToken.constructor _ _ _ _ _ _ _ _); [|discriminate].
  peel H. apply checked_add_Ok in Hg8 as [-> Hfit].
  injection H as <- <-.
  apply negb_true_iff in Hg, Hg6, Hg7.
  apply N.ltb_ge in Hg6. apply N.leb_gt in Hg7.
  repeat split; assumption.
Qed.

Lemma exec_ledger_step m s c s' : exec m s c = Ok s' -> ledger_step s s'.
Proof.
  intros H. destruct c; simpl in H;
    try (repeat peel H; injection H as <-; left; repeat split; reflexivity).
  - do 2 peel H. destruct x0 as [s1 t]. injection H as <-.
    apply _deployToken_Ok in Hg0 as (-> & -> & _). right.
    eexists (mkTokenInfo _ _ _ _ _ _ _ _ _ _). simpl. repeat split; reflexivity.
  - do 2 peel H. destruct x0 as [s1 t]. injection H as <-.
    apply _deployToken_Ok in Hg0 as (-> & -> & _). right.
    eexists (mkTokenInfo _ _ _ _ _ _ _ _ _ _). simpl. repeat split; reflexivity.
  - repeat peel H. injection H as <-. left.
    destruct (to =? self s); repeat split; reflexivity.
Qed.

(** [deployed] tells the two kinds of successful calls apart. *)
Lemma exec_deployed m s c s' :
  exec m s c = Ok s' ->
  match deployed m s c with
  | Some t =>
      t = new_token_address (nonce s) /\ allTokens s' = allTokens s ++ [t]
  | None => allTokens s' = allTokens s
  end.
Proof.
  intros H. destruct c; simpl in H |- *; rewrite ?H;
    try (repeat peel H; injection H as <-; reflexivity).
  - do 2 peel H. destruct x0 as [s1 t]. injection H as <-.
    apply _deployToken_Ok in Hg0 as (-> & -> & _). split; reflexivity.
  - do 2 peel H. destruct x0 as [s1 t]. injection H as <-.
    apply _deployToken_Ok in Hg0 as (-> & -> & _). split; reflexivity.
  - repeat peel H. injection H as <-. destruct (to =? self s); reflexivity.
Qed.

Lemma reverted_not_deployed m s c f : exec m s c = Revert f -> deployed m s c = None.
Proof. intros H. destruct c; simpl in H |- *; rewrite ?H; reflexivity. Qed.

Lemma exec_reverts_or_steps m s c :
  (reverts (exec m s c) /\ state_after s (exec m s c) = s) \/
  (exists s', exec m s c = Ok s' /\ state_after s (exec m s c) = s' /\
              ledger_step s s').
Proof.
  destruct (exec m s c) as [s'|f] eqn:H.
  - right. exists s'. eauto using exec_ledger_step.
  - left. split; [eexists; reflexivity | reflexivity].
Qed.

(** *** The invariant of the ledger *)

Hypothesis new_token_address_inj :
  forall n k, new_token_address n = new_token_address k -> n = k.

Lemma fresh_token s :
  ledger_inv s -> new_token_address (nonce s) ∉ allTokens s.
Proof.
  intros Hi Hin. apply (inv_created _ _ Hi) in Hin as (k & Hk & Heq).
  apply new_token_address_inj in Heq. lia.
Qed.

Lemma ledger_step_inv s s' : ledger_step s s' -> ledger_inv s -> ledger_inv s'.
Proof.
  intros [(Ha & Hi & Ht & Hn) | (info & Hnew & Ha & Hi & Ht & Hn)] Hinv.
  - destruct Hinv as [H1 H2 H3 H4].
    split; rewrite ?Ha, ?Hi, ?Ht, ?Hn; assumption.
  - pose proof (fresh_token s Hinv) as Hfresh.
    destruct Hinv as [H1 H2 H3 H4].
    split; rewrite ?Ha, ?Hi, ?Ht, ?Hn.
    + rewrite H1, length_app. simpl. lia.
    + intros t Hin. apply elem_of_app in Hin as [Hin | Hin].
      * apply H2 in Hin as (k & Hk & ->). exists k. split; [lia | reflexivity].
      * apply list_elem_of_singleton in Hin as ->.
        exists (nonce s). split; [lia | exact Hnew].
    + apply list.NoDup_app. split; [exact H3|]. split.
      * intros t Hin Hin'. apply list_elem_of_singleton in Hin' as ->.
        rewrite Hnew in Hin. contradiction.
      * apply NoDup_singleton.
    + intros t Hnin. rewrite lookup_insert_ne.
      * apply H4. intros Hin. apply Hnin, elem_of_app. auto.
      * intros Heq. apply Hnin, elem_of_app. right.
        apply list_elem_of_singleton. symmetry. exact Heq.
Qed.

Lemma factory_constructor_inv self_ initialOwner fee max s :
  constructor self_ initialOwner fee max = Ok s ->
  ledger_inv s /\ allTokens s = [].
Proof.
  unfold constructor. intros H. do 2 peel H. injection H as <-.
  split; [|reflexivity]. split; simpl.
  - reflexivity.
  - intros t Hin. apply elem_of_nil in Hin. contradiction.
  - apply NoDup_nil_2.
  - intros t _. apply lookup_empty.
Qed.

Lemma factory_exec_inv m s c : ledger_inv s -> ledger_inv (state_after s (exec m s c)).
Proof.
  intros Hi. destruct (exec_reverts_or_steps m s c) as [[_ ->] | (s' & _ & -> & Hs)].
  - exact Hi.
  - eauto using ledger_step_inv.
Qed.

Lemma factory_reachable_inv s : reachable s -> ledger_inv s.
Proof.
  induction 1 as [? ? ? ? s Hc | s m c s' _ IH Hx].
  - apply factory_constructor_inv in Hc as [? _]. assumption.
  - eauto using ledger_step_inv, exec_ledger_step.
Qed.

Lemma factory_run_inv cs : forall s, ledger_inv s -> ledger_inv (run s cs).
Proof.
  induction cs as [|[m c] cs IH]; intros s Hi; simpl; [exact Hi|].
  apply IH, factory_exec_inv, Hi.
Qed.

(** *** The record of a token stays as it was written *)

Lemma ledger_step_frame s s' t :
  ledger_inv s -> t ∈ allTokens s -> ledger_step s s' ->
  tokenInfo s' !! t = tokenInfo s !! t /\ t ∈ allTokens s'.
Proof.
  intros Hinv Hin [(Ha & Hi & _) | (info & Hnew & Ha & Hi & _)].
  - rewrite Ha, Hi. auto.
  - rewrite Ha, Hi. split; [|apply elem_of_app; auto].
    apply lookup_insert_ne. intros Heq. apply (fresh_token s Hinv).
    rewrite <- Hnew, Heq. exact Hin.
Qed.

Lemma factory_exec_frame m s c t :
  ledger_inv s -> t ∈ allTokens s ->
  getTokenInfo (state_after s (exec m s c)) t = getTokenInfo s t /\
  t ∈ allTokens (state_after s (exec m s c)).
Proof.
  intros Hinv Hin.
  destruct (exec_reverts_or_steps m s c) as [[_ ->] | (s' & _ & -> & Hs)].
  - auto.
  - destruct (ledger_step_frame s s' t Hinv Hin Hs) as [Heq Hin'].
    unfold getTokenInfo. rewrite Heq. auto.
Qed.

Lemma factory_run_frame cs : forall s t,
  ledger_inv s -> t ∈ allTokens s ->
  getTokenInfo (run s cs) t = getTokenInfo s t.
Proof.
  induction cs as [|[m c] cs IH]; intros s t Hinv Hin; simpl; [reflexivity|].
  destruct (factory_exec_frame m s c t Hinv Hin) as [Heq Hin'].
  rewrite IH; [exact Heq | apply factory_exec_inv, Hinv | exact Hin'].
Qed.

Lemma run_keeps_tokens cs : forall s t,
  ledger_inv s -> t ∈ allTokens s -> t ∈ allTokens (run s cs).
Proof.
  induction cs as [|[m c] cs IH]; intros s t Hinv Hin; simpl; [exact Hin|].
  apply IH; [apply factory_exec_inv, Hinv | apply factory_exec_frame; assumption].
Qed.

(** *** Each recorded token was created by exactly one call *)

Lemma deployed_is_fresh m s c t :
  ledger_inv s -> deployed m s c = Some t -> t ∉ allTokens s.
Proof.
  intros Hinv Hd. destruct (exec m s c) as [s'|f] eqn:Hx.
  - apply exec_deployed in Hx. rewrite Hd in Hx. destruct Hx as [-> _].
    apply fresh_token, Hinv.
  - apply reverted_not_deployed in Hx. congruence.
Qed.

Lemma recorded_not_deployed_again cs : forall s t,
  ledger_inv s -> t ∈ allTokens s -> deployments_of t s cs = 0%nat.
Proof.
  induction cs as [|[m c] cs IH]; intros s t Hinv Hin; simpl; [reflexivity|].
  rewrite IH; [| apply factory_exec_inv, Hinv | apply factory_exec_frame; assumption].
  destruct (decide (deployed m s c = Some t)) as [Hd|]; [|reflexivity].
  exfalso. eapply deployed_is_fresh; eassumption.
Qed.

Lemma deployments_of_unrecorded cs : forall s t,
  ledger_inv s -> t ∉ allTokens s ->
  (t ∈ allTokens (run s cs) -> deployments_of t s cs = 1%nat) /\
  (t ∉ allTokens (run s cs) -> deployments_of t s cs = 0%nat).
Proof.
  induction cs as [|[m c] cs IH]; intros s t Hinv Hnin; simpl.
  - split; [contradiction | reflexivity].
  - pose proof (factory_exec_inv m s c Hinv) as Hinv1.
    destruct (decide (deployed m s c = Some t)) as [Hd|Hd].
    + assert (Hin1 : t ∈ allTokens (state_after s (exec m s c))).
      { destruct (exec m s c) as [s'|f] eqn:Hx.
        - apply exec_deployed in Hx. rewrite Hd in Hx. destruct Hx as [_ Ha].
          simpl. rewrite Ha. apply elem_of_app. right.
          apply list_elem_of_singleton. reflexivity.
        - apply reverted_not_deployed in Hx. congruence. }
      rewrite (recorded_not_deployed_again cs _ t Hinv1 Hin1).
      split; [reflexivity|].
      intros Hn. exfalso. apply Hn. apply run_keeps_tokens; assumption.
    + assert (Hnin1 : t ∉ allTokens (state_after s (exec m s c))).
      { destruct (exec m s c) as [s'|f] eqn:Hx; simpl; [|exact Hnin].
        apply exec_deployed in Hx.
        destruct (deployed m s c) as [t'|].
        - destruct Hx as [_ Ha]. rewrite Ha. intros Hin.
          apply elem_of_app in Hin as [Hin|Hin]; [contradiction|].
          apply list_elem_of_singleton in Hin. congruence.
        - rewrite Hx. exact Hnin. }
      destruct (IH _ t Hinv1 Hnin1) as [IH1 IH0].
      split; intros Hr; [rewrite (IH1 Hr) | rewrite (IH0 Hr)]; reflexivity.
Qed.

(** What a deployment writes: the record of the new token, made of the
    arguments of the call. *)
Lemma deployment_writes_record m v name_ symbol_ init max me be pe s s' :
  exec m s (deployToken v name_ symbol_ init max me be pe) = Ok s' ->
  getTokenInfo s' (new_token_address (nonce s))
  = mkTokenInfo (new_token_address (nonce s)) name_ symbol_ init max
      (sender m) (timestamp m) me be pe.
Proof.
  intros H. simpl in H. do 2 peel H. destruct x0 as [s1 t]. injection H as <-.
  apply _deployToken_Ok in Hg0 as (-> & -> & _).
  unfold getTokenInfo. simpl. rewrite lookup_insert_eq. reflexivity.
Qed.

Lemma deployment_with_owner_writes_record m v name_ symbol_ init max o me be pe s s' :
  exec m s (deployTokenWithOwner v name_ symbol_ init max o me be pe) = Ok s' ->
  getTokenInfo s' (new_token_address (nonce s))
  = mkTokenInfo (new_token_address (nonce s)) name_ symbol_ init max
      (sender m) (timestamp m) me be pe.
Proof.
  intros H. simpl in H. do 2 peel H. destruct x0 as [s1 t]. injection H as <-.
  apply _deployToken_Ok in Hg0 as (-> & -> & _).
  unfold getTokenInfo. simpl. rewrite lookup_insert_eq. reflexivity.
Qed.

(** *** The checks of [_deployToken] *)

Lemma _deployToken_at_cap m v name_ symbol_ init max tokenOwner me be pe s :
  maxTokensPerCreator s <= getTokenCountByCreator s (sender m) ->
  reverts (_deployToken m v name_ symbol_ init max tokenOwner me be pe s).
Proof.
  intros Hcap. unfold TokenFactory._deployToken.
  do 8 (apply bind_reverts; intros _).
  apply N.leb_le in Hcap. rewrite Hcap. simpl. eexists; reflexivity.
Qed.

Lemma _deployToken_underpaid m v name_ symbol_ init max tokenOwner me be pe s :
  v < deploymentFee s ->
  reverts (_deployToken m v name_ symbol_ init max tokenOwner me be pe s).
Proof.
  intros Hfee. unfold TokenFactory._deployToken.
  do 7 (apply bind_reverts; intros _).
  apply N.ltb_lt in Hfee. rewrite Hfee. simpl. eexists; reflexivity.
Qed.

Ltac skip_guard :=
  match goal with
  | |- forall f, bind (require ?c _) _ = Revert f -> _ =>
      destruct c; simpl; [| intros ? [= ?]; subst; congruence]
  end.

Lemma _deployToken_below_cap m v name_ symbol_ init max tokenOwner me be pe s f :
  getTokenCountByCreator s (sender m) < maxTokensPerCreator s ->
  _deployToken m v name_ symbol_ init max tokenOwner me be pe s = Revert f ->
  f <> Custom MaxTokensPerCreatorExceeded.
Proof.
  intros Hcap. apply N.leb_gt in Hcap. revert f.
  unfold TokenFactory._deployToken. rewrite Hcap.
  do 8 skip_guard.
  destruct (URBEToken.constructor _ _ _ _ _ _ _ _); [|intros ? [= ?]; subst; congruence].
  unfold checked_add.
  destruct (totalTokensDeployed s + 1 <=? uint256_max); simpl;
    intros ? [= ?]; subst; congruence.
Qed.

Lemma _deployToken_paid m v name_ symbol_ init max tokenOwner me be pe s f :
  deploymentFee s <= v ->
  _deployToken m v name_ symbol_ init max tokenOwner me be pe s = Revert f ->
  f <> Custom InsufficientDeploymentFee.
Proof.
  intros Hfee. apply N.ltb_ge in Hfee. revert f.
  unfold TokenFactory._deployToken. rewrite Hfee.
  do 7 skip_guard. skip_guard.
  destruct (URBEToken.constructor _ _ _ _ _ _ _ _); [|intros ? [= ?]; subst; congruence].
  unfold checked_add.
  destruct (totalTokensDeployed s + 1 <=? uint256_max); simpl;
    intros ? [= ?]; subst; congruence.
Qed.

Lemma deploy_error_from_body {A} s (r : res (state * A)) (k : state * A -> res state) e :
  (forall f, r = Revert f -> f <> Custom e) ->
  (forall a, k a <> Revert (Custom e)) ->
  (with! nonReentrant s in let! x := r in k x) <> Revert (Custom e).
Proof.
  intros Hr Hk. unfold nonReentrant.
  destruct (negb (entered s)); simpl; [|discriminate].
  destruct r as [a|f]; simpl; [apply Hk|].
  intros [= Heq]. eapply Hr; eauto.
Qed.

(** The checks before the fee check. *)
Lemma _deployToken_to_fee_check m v name_ symbol_ init max tokenOwner me be pe s :
  factoryPaused s = false -> name_ <> EmptyString -> symbol_ <> EmptyString ->
  init <> 0 -> max <> 0 -> init <= max -> tokenOwner <> 0 ->
  _deployToken m v name_ symbol_ init max tokenOwner me be pe s
  = (require! negb (v <? deploymentFee s) else Custom InsufficientDeploymentFee in
     require! negb (maxTokensPerCreator s <=? getTokenCountByCreator s (sender m))
       else Custom MaxTokensPerCreatorExceeded in
     match URBEToken.constructor name_ symbol_ init max tokenOwner me be pe with
     | Revert _ => Revert CreateFailed
     | Ok _ =>
         let! total := checked_add (totalTokensDeployed s) 1 in
         Ok (record_token s (sender m)
               (mkTokenInfo (new_token_address (nonce s)) name_ symbol_ init max
                  (sender m) (timestamp m) me be pe) total,
             new_token_address (nonce s))
     end).
Proof.
  intros Hp Hn Hs Hi Hm Hle Ho. unfold TokenFactory._deployToken.
  rewrite Hp, (nonempty_length _ Hn), (nonempty_length _ Hs).
  apply N.eqb_neq in Hi, Hm, Ho. rewrite Hi, Hm, Ho.
  apply N.ltb_ge in Hle. rewrite Hle. reflexivity.
Qed.

(** Past its checks, the constructor of the token does not fail. *)
Lemma URBEToken_constructor_succeeds name_ symbol_ init max tokenOwner me be pe :
  init <> 0 -> max <> 0 -> init <= max -> init <= uint256_max -> tokenOwner <> 0 ->
  succeeds (URBEToken.constructor name_ symbol_ init max tokenOwner me be pe).
Proof.
  intros Hi Hm Hle Hfit Ho. unfold URBEToken.constructor.
  apply N.eqb_neq in Ho, Hm. rewrite Ho, Hm. simpl.
  apply N.ltb_ge in Hle. rewrite Hle. simpl.
  assert (H0 : (0 <? init) = true) by (apply N.ltb_lt; lia). rewrite H0.
  unfold URBEToken._mint, URBEToken._update, URBEToken.whenNotPaused,
    URBEToken.ERC20_update. rewrite Ho. simpl.
  unfold checked_add. simpl. rewrite N.add_0_l.
  apply N.leb_le in Hfit. rewrite Hfit. simpl.
  eexists; reflexivity.
Qed.

(** Which check stops [_deployToken] for a caller at the cap, and for
    a caller that sends less than the fee: the first that fails, in the
    order of the source. *)
Lemma _deployToken_at_cap_error m v name_ symbol_ init max tokenOwner me be pe s :
  maxTokensPerCreator s <= getTokenCountByCreator s (sender m) ->
  _deployToken m v name_ symbol_ init max tokenOwner me be pe s
  = Revert (if factoryPaused s then Custom FactoryPaused
            else if (String.length name_ =? 0)%nat then Custom EmptyName
            else if (String.length symbol_ =? 0)%nat then Custom EmptySymbol
            else if init =? 0 then Custom ZeroInitialSupply
            else if max =? 0 then Custom ZeroMaxSupply
            else if max <? init then Custom InitialSupplyExceedsMax
            else if tokenOwner =? 0 then Custom InvalidTokenAddress
            else if v <? deploymentFee s then Custom InsufficientDeploymentFee
            else Custom MaxTokensPerCreatorExceeded).
Proof.
  intros Hcap. apply N.leb_le in Hcap. unfold TokenFactory._deployToken.
  destruct (factoryPaused s); simpl; [reflexivity|].
  destruct (String.length name_ =? 0)%nat; simpl; [reflexivity|].
  destruct (String.length symbol_ =? 0)%nat; simpl; [reflexivity|].
  destruct (init =? 0); simpl; [reflexivity|].
  destruct (max =? 0); simpl; [reflexivity|].
  destruct (max <? init); simpl; [reflexivity|].
  destruct (tokenOwner =? 0); simpl; [reflexivity|].
  destruct (v <? deploymentFee s); simpl; [reflexivity|].
  rewrite Hcap. reflexivity.
Qed.

Lemma _deployToken_underpaid_error m v name_ symbol_ init max tokenOwner me be pe s :
  v < deploymentFee s ->
  _deployToken m v name_ symbol_ init max tokenOwner me be pe s
  = Revert (if factoryPaused s then Custom FactoryPaused
            else if (String.length name_ =? 0)%nat then Custom EmptyName
            else if (String.length symbol_ =? 0)%nat then Custom EmptySymbol
            else if init =? 0 then Custom ZeroInitialSupply
            else if max =? 0 then Custom ZeroMaxSupply
            else if max <? init then Custom InitialSupplyExceedsMax
            else if tokenOwner =? 0 then Custom InvalidTokenAddress
            else Custom InsufficientDeploymentFee).
Proof.
  intros Hfee. apply N.ltb_lt in Hfee. unfold TokenFactory._deployToken.
  destruct (factoryPaused s); simpl; [reflexivity|].
  destruct (String.length name_ =? 0)%nat; simpl; [reflexivity|].
  destruct (String.length symbol_ =? 0)%nat; simpl; [reflexivity|].
  destruct (init =? 0); simpl; [reflexivity|].
  destruct (max =? 0); simpl; [reflexivity|].
  destruct (max <? init); simpl; [reflexivity|].
  destruct (tokenOwner =? 0); simpl; [reflexivity|].
  rewrite Hfee. reflexivity.
Qed.

(** C6 (as amended). A caller who already has [maxTokensPerCreator]
    tokens or more cannot deploy: [deployToken] and
    [deployTokenWithOwner] revert, no token is created and the state of
    the factory stays as it was. The error is
    [MaxTokensPerCreatorExceeded] when the call is not re-entrant and
    the checks that come first pass (factory not paused, name and symbol
    not empty, supplies not zero, initial supply within the maximum,
    owner not zero, fee paid); otherwise it is the error of the first
    of these checks that fails, in this order, after
    [ReentrancyGuardReentrantCall] for a re-entrant call. A caller below
    the cap is never stopped by this check. *)
Theorem creator_cap_enforced :
  (forall m s v name_ symbol_ init max tokenOwner me be pe,
      maxTokensPerCreator s <= getTokenCountByCreator s (sender m) ->
      let c1 := deployToken v name_ symbol_ init max me be pe in
      let c2 := deployTokenWithOwner v name_ symbol_ init max tokenOwner me be pe in
      reverts (exec m s c1) /\ reverts (exec m s c2) /\
      state_after s (exec m s c1) = s /\ state_after s (exec m s c2) = s /\
      deployed m s c1 = None /\ deployed m s c2 = None /\
      (entered s = false -> factoryPaused s = false ->
       name_ <> EmptyString -> symbol_ <> EmptyString ->
       init <> 0 -> max <> 0 -> init <= max -> deploymentFee s <= v ->
       (sender m <> 0 ->
        exec m s c1 = Revert (Custom MaxTokensPerCreatorExceeded)) /\
       (tokenOwner <> 0 ->
        exec m s c2 = Revert (Custom MaxTokensPerCreatorExceeded))) /\
      (let first_failing (tokenOwner_ : address) :=
         if entered s then Base ReentrancyGuardReentrantCall
         else if factoryPaused s then Custom FactoryPaused
         else if (String.length name_ =? 0)%nat then Custom EmptyName
         else if (String.length symbol_ =? 0)%nat then Custom EmptySymbol
         else if init =? 0 then Custom ZeroInitialSupply
         else if max =? 0 then Custom ZeroMaxSupply
         else if max <? init then Custom InitialSupplyExceedsMax
         else if tokenOwner_ =? 0 then Custom InvalidTokenAddress
         else if v <? deploymentFee s then Custom InsufficientDeploymentFee
         else Custom MaxTokensPerCreatorExceeded in
       exec m s c1 = Revert (first_failing (sender m)) /\
       exec m s c2 = Revert (first_failing tokenOwner))) /\
  (forall m s v name_ symbol_ init max tokenOwner me be pe,
      getTokenCountByCreator s (sender m) < maxTokensPerCreator s ->
      exec m s (deployToken v name_ symbol_ init max me be pe)
      <> Revert (Custom MaxTokensPerCreatorExceeded) /\
      exec m s (deployTokenWithOwner v name_ symbol_ init max tokenOwner me be pe)
      <> Revert (Custom MaxTokensPerCreatorExceeded)).
Proof.
  split.
  - intros m s v name_ symbol_ init max tokenOwner me be pe Hcap c1 c2.
    assert (Hr1 : reverts (exec m s c1)).
    { simpl. apply bind_reverts; intros _. apply bind_reverts_l.
      apply _deployToken_at_cap, Hcap. }
    assert (Hr2 : reverts (exec m s c2)).
    { simpl. apply bind_reverts; intros _. apply bind_reverts_l.
      apply _deployToken_at_cap, Hcap. }
    split; [exact Hr1|]. split; [exact Hr2|].
    split; [apply reverts_state_after, Hr1|].
    split; [apply reverts_state_after, Hr2|].
    split; [destruct Hr1 as [f Hf]; eapply reverted_not_deployed, Hf|].
    split; [destruct Hr2 as [f Hf]; eapply reverted_not_deployed, Hf|].
    split.
    + intros He Hp Hn Hs Hi Hm Hle Hfee.
      apply N.ltb_ge in Hfee. apply N.leb_le in Hcap.
      split; intros Ho; simpl; unfold nonReentrant; rewrite He; simpl;
        rewrite (_deployToken_to_fee_check _ _ _ _ _ _ _ _ _ _ _ Hp Hn Hs Hi Hm Hle Ho);
        rewrite Hfee, Hcap; reflexivity.
    + cbv zeta. unfold c1, c2. simpl. unfold nonReentrant.
      rewrite !(_deployToken_at_cap_error _ _ _ _ _ _ _ _ _ _ _ Hcap).
      destruct (entered s); split; reflexivity.
  - intros m s v name_ symbol_ init max tokenOwner me be pe Hcap.
    split; simpl; apply deploy_error_from_body;
      try (intros; discriminate);
      intros f Hf; eapply _deployToken_below_cap; eassumption.
Qed.

(** *** The fee check *)

Lemma deployToken_fee_check m s v name_ symbol_ init max me be pe :
  let c := deployToken v name_ symbol_ init max me be pe in
  (v < deploymentFee s ->
   reverts (exec m s c) /\ state_after s (exec m s c) = s /\
   (entered s = false -> factoryPaused s = false ->
    name_ <> EmptyString -> symbol_ <> EmptyString ->
    init <> 0 -> max <> 0 -> init <= max -> sender m <> 0 ->
    exec m s c = Revert (Custom InsufficientDeploymentFee)) /\
   exec m s c
   = Revert (if entered s then Base ReentrancyGuardReentrantCall
             else if factoryPaused s then Custom FactoryPaused
             else if (String.length name_ =? 0)%nat then Custom EmptyName
             else if (String.length symbol_ =? 0)%nat then Custom EmptySymbol
             else if init =? 0 then Custom ZeroInitialSupply
             else if max =? 0 then Custom ZeroMaxSupply
             else if max <? init then Custom InitialSupplyExceedsMax
             else if sender m =? 0 then Custom InvalidTokenAddress
             else Custom InsufficientDeploymentFee)) /\
  (deploymentFee s <= v ->
   exec m s c <> Revert (Custom InsufficientDeploymentFee)).
Proof.
  intros c. split.
  - intros Hfee.
    assert (Hr : reverts (exec m s c)).
    { simpl. apply bind_reverts; intros _. apply bind_reverts_l.
      apply _deployToken_underpaid, Hfee. }
    split; [exact Hr|]. split; [apply reverts_state_after, Hr|]. split.
    + intros He Hp Hn Hs Hi Hm Hle Ho. simpl. unfold nonReentrant.
      rewrite He. simpl.
      rewrite (_deployToken_to_fee_check _ _ _ _ _ _ _ _ _ _ _ Hp Hn Hs Hi Hm Hle Ho).
      apply N.ltb_lt in Hfee. rewrite Hfee. reflexivity.
    + unfold c. simpl. unfold nonReentrant.
      rewrite (_deployToken_underpaid_error _ _ _ _ _ _ _ _ _ _ _ Hfee).
      destruct (entered s); reflexivity.
  - intros Hfee. simpl. apply deploy_error_from_body.
    + intros f Hf. eapply _deployToken_paid; eassumption.
    + intros; discriminate.
Qed.

(** *** The ledger only grows *)



Lemma ledger_step_count s s' :
  ledger_step s s' ->
  totalTokensDeployed s = N.of_nat (length (allTokens s)) ->
  totalTokensDeployed s' = N.of_nat (length (allTokens s')).
Proof.
  intros [(Ha & _ & Ht & _) | (info & _ & Ha & _ & Ht & _)] Hc; rewrite Ha, Ht, Hc.
  - reflexivity.
  - rewrite length_app. simpl. lia.
Qed.

Lemma factory_reachable_count s :
  reachable s -> totalTokensDeployed s = N.of_nat (length (allTokens s)).
Proof.
  induction 1 as [? ? ? ? s Hc | s m c s' _ IH Hx].
  - unfold constructor in Hc. do 2 peel Hc. injection Hc as <-. reflexivity.
  - eauto using ledger_step_count, exec_ledger_step.
Qed.

(** C3. A slot of [tokenInfo] is empty until its token is recorded; the
    call that creates a token writes its record; from then on no call,
    and no run of calls, changes the record; and in every run from the
    constructor each recorded token was created by exactly one call. *)
Theorem tokenInfo_written_once :
  (forall s t, reachable s -> t ∉ allTokens s -> tokenInfo s !! t = None) /\
  (forall s m c s' t,
      reachable s -> exec m s c = Ok s' -> deployed m s c = Some t ->
      (t ∉ allTokens s) /\ (t ∈ allTokens s') /\ is_Some (tokenInfo s' !! t)) /\
  (forall s t m c,
      reachable s -> t ∈ allTokens s ->
      getTokenInfo (state_after s (exec m s c)) t = getTokenInfo s t) /\
  (forall s t cs,
      reachable s -> t ∈ allTokens s ->
      getTokenInfo (run s cs) t = getTokenInfo s t) /\
  (forall self_ initialOwner fee max s0 cs t,
      constructor self_ initialOwner fee max = Ok s0 ->
      t ∈ allTokens (run s0 cs) -> deployments_of t s0 cs = 1%nat).
Proof.
  split; [|split; [|split; [|split]]].
  - intros s t Hr Hnin. apply (inv_unwritten _ _ (factory_reachable_inv s Hr)), Hnin.
  - intros s m c s' t Hr Hx Hd. apply factory_reachable_inv in Hr.
    split; [eapply deployed_is_fresh; eassumption|].
    pose proof (exec_ledger_step m s c s' Hx) as Hstep.
    apply exec_deployed in Hx. rewrite Hd in Hx. destruct Hx as [-> Ha].
    split.
    + rewrite Ha. apply elem_of_app. right. apply list_elem_of_singleton.
      reflexivity.
    + destruct Hstep as [(Ha' & _) | (info & Hnew & _ & Hi & _)].
      * exfalso. rewrite Ha' in Ha.
        apply (f_equal length) in Ha. rewrite length_app in Ha. simpl in Ha. lia.
      * rewrite Hi, Hnew, lookup_insert_eq. eauto.
  - intros s t m c Hr Hin. apply factory_exec_frame; [apply factory_reachable_inv, Hr | exact Hin].
  - intros s t cs Hr Hin. apply factory_run_frame; [apply factory_reachable_inv, Hr | exact Hin].
  - intros self_ initialOwner fee max s0 cs t Hc Hin.
    apply factory_constructor_inv in Hc as [Hinv Hnil].
    apply (deployments_of_unrecorded cs s0 t Hinv); [|exact Hin].
    rewrite Hnil. apply not_elem_of_nil.
Qed.

End Factory.

Lemma sample_new_token_address_inj n k :
  sample_new_token_address n = sample_new_token_address k -> n = k.
Proof. unfold sample_new_token_address. lia. Qed.

Lemma sample_factory_reachable : reachable sample_new_token_address sample_factory.
Proof. eapply (reachable_constructor _ 500 1 5 1). vm_compute. reflexivity. Qed.

Lemma sample_factory_1_reachable : reachable sample_new_token_address sample_factory_1.
Proof.
  eapply reachable_call; [exact sample_factory_reachable|].
  instantiate (1 := sample_deployToken). instantiate (1 := mkMsg 2 1700000000).
  vm_compute. reflexivity.
Qed.

Lemma creator_cap_enforced_witness :
  exec sample_new_token_address (mkMsg 2 1700000100) sample_factory_1 sample_deployToken
  = Revert (Custom MaxTokensPerCreatorExceeded).
Proof.
  destruct (creator_cap_enforced sample_new_token_address) as [Hcap _].
  destruct (Hcap (mkMsg 2 1700000100) sample_factory_1 5 "Token"%string "TKN"%string
              100 1000 2 true true true) as (_ & _ & _ & _ & _ & _ & Herr & _).
  - vm_compute. discriminate.
  - apply Herr; try reflexivity; try discriminate.
Defined.

(** C6 (as stated) fails on the error: address 2 already has its one token
    and sends less than the fee; the call reverts in the fee check, which
    comes before the check of the cap. *)
Lemma at_cap_underpaid_other_error :
  reachable sample_new_token_address sample_factory_1 /\
  maxTokensPerCreator sample_factory_1
    <= getTokenCountByCreator sample_factory_1 2 /\
  exec sample_new_token_address (mkMsg 2 1700000100) sample_factory_1
    (deployToken 4 "Token" "TKN" 100 1000 true true true)
  = Revert (Custom InsufficientDeploymentFee).
Proof.
  split; [exact sample_factory_1_reachable|].
  split; vm_compute; [discriminate | reflexivity].
Qed.

Lemma tokenInfo_written_once_witness :
  getTokenInfo
    (run sample_new_token_address sample_factory_1
       [(mkMsg 3 1700000100, sample_deployToken);
        (mkMsg 1 1700000200, setDeploymentFee 7);
        (mkMsg 1 1700000300, withdrawFees 10 1 true)]) 1001
  = getTokenInfo sample_factory_1 1001.
Proof.
  destruct (tokenInfo_written_once sample_new_token_address
              sample_new_token_address_inj) as (_ & _ & _ & Hrun & _).
  apply Hrun.
  - exact sample_factory_1_reachable.
  - change (allTokens sample_factory_1) with [1001]. apply list_elem_of_here.
Defined.

End TokenFactoryProps.

(** ** TokenFactory: the index by creator, the views, the fees *)

Module TokenFactoryViews.
Import TokenFactory TokenFactoryProps.

Lemma filter_ext_elem {A} (P Q : A -> Prop)
    `{!forall x, Decision (P x)} `{!forall x, Decision (Q x)} (l : list A) :
  (forall x, x ∈ l -> P x <-> Q x) -> filter P l = filter Q l.
Proof.
  induction l as [|x l IH]; intros Hl; [reflexivity|].
  rewrite !list.filter_cons.
  assert (Hx : P x <-> Q x) by (apply Hl; left).
  rewrite IH by (intros y Hy; apply Hl; right; exact Hy).
  destruct (decide (P x)), (decide (Q x)); tauto.
Qed.

(** The loop of [getTokensByCreatorPaginated] copies the slice. *)
Lemma page_loop (src : list N) (offset : uint256) (n : nat) :
  N.of_nat (length src) <= uint256_max ->
  (N.to_nat offset + n <= length src)%nat ->
  forall m k,
    (k + m = n)%nat ->
    fold_left (page_step src offset) (seq k m)
      (Ok (take k (drop (N.to_nat offset) src) ++ replicate (n - k) 0))
    = Ok (take n (drop (N.to_nat offset) src)).
Proof.
  intros Hfit Hlen m. induction m as [|m IH]; intros k Hk; cbn [seq fold_left].
  - assert (k = n) as -> by lia. rewrite Nat.sub_diag. simpl.
    rewrite app_nil_r. reflexivity.
  - unfold page_step at 2. cbn [bind]. unfold checked_add.
    assert (Hj : (offset + N.of_nat k <=? uint256_max) = true)
      by (apply N.leb_le; lia).
    rewrite Hj. simpl.
    destruct (lookup_lt_is_Some_2 src (N.to_nat (offset + N.of_nat k))) as [t Ht];
      [lia|].
    rewrite Ht.
    assert (Hlk : length (take k (drop (N.to_nat offset) src)) = k).
    { rewrite length_take, length_drop. lia. }
    rewrite bool_decide_eq_true_2
      by (rewrite length_app, length_replicate, Hlk; lia).
    simpl.
    assert (Hd : drop (N.to_nat offset) src !! k = Some t).
    { rewrite lookup_drop. rewrite <- Ht. f_equal. lia. }
    replace (<[k := t]> (take k (drop (N.to_nat offset) src) ++ replicate (n - k) 0))
      with (take (S k) (drop (N.to_nat offset) src) ++ replicate (n - S k) 0).
    + apply IH. lia.
    + rewrite insert_app_r_alt by (rewrite Hlk; lia).
      rewrite Hlk, Nat.sub_diag.
      replace (n - k)%nat with (S (n - S k)) by lia. simpl.
      rewrite (take_S_r _ _ _ Hd), <- app_assoc. reflexivity.
Qed.

Section Views.

Variable new_token_address : N -> address.
Hypothesis new_token_address_inj :
  forall n k, new_token_address n = new_token_address k -> n = k.

Abbreviation exec := (exec new_token_address).
Abbreviation _deployToken := (_deployToken new_token_address).
Abbreviation reachable := (reachable new_token_address).
Abbreviation ledger_inv := (ledger_inv new_token_address).
Abbreviation deployed := (deployed new_token_address).

(** What recording a fresh token does to the index. *)
Lemma record_token_index s c info total v :
  ledger_inv s -> index_inv s ->
  tokenAddress info = new_token_address (nonce s) ->
  creator info = c -> total <= uint256_max ->
  index_inv (receive_value v (record_token s c info total)).
Proof.
  intros Hl [Hi Ha Hb] Ht Hc Htot.
  pose proof (fresh_token _ new_token_address_inj s Hl) as Hfresh.
  rewrite <- Ht in Hfresh.
  assert (Hold : forall t, t ∈ allTokens s ->
            getTokenInfo (receive_value v (record_token s c info total)) t
            = getTokenInfo s t).
  { intros t Hin. unfold getTokenInfo. simpl.
    rewrite lookup_insert_ne; [reflexivity|]. intros <-. contradiction. }
  assert (Hnew : getTokenInfo (receive_value v (record_token s c info total))
                   (tokenAddress info) = info).
  { unfold getTokenInfo. simpl. rewrite lookup_insert_eq. reflexivity. }
  split.
  - intros c'. unfold created_by. simpl allTokens.
    rewrite list.filter_app, list.filter_cons, list.filter_nil, Hnew.
    assert (Hf : filter (fun t => creator
                    (getTokenInfo (receive_value v (record_token s c info total)) t) = c')
                   (allTokens s) = created_by s c').
    { unfold created_by. apply filter_ext_elem.
      intros t Hin. rewrite (Hold t Hin). reflexivity. }
    rewrite Hf, <- Hi. unfold getTokensByCreator at 1. simpl.
    destruct (decide (c' = c)) as [->|Hne].
    + rewrite lookup_insert_eq. simpl. rewrite decide_True by exact Hc.
      reflexivity.
    + rewrite lookup_insert_ne by congruence.
      rewrite decide_False by congruence. rewrite app_nil_r. reflexivity.
  - intros t. simpl allTokens. rewrite elem_of_app, list_elem_of_singleton.
    intros [Hin| ->]; [rewrite (Hold t Hin); auto | rewrite Hnew; reflexivity].
  - exact Htot.
Qed.

Lemma index_exec_inv m s c s' :
  ledger_inv s -> index_inv s -> exec m s c = Ok s' -> index_inv s'.
Proof.
  intros Hl Hi Hx. destruct c; simpl in Hx.
  - peel Hx. peel_as Hx r Hd. destruct r as [s1 t]. injection Hx as <-.
    apply _deployToken_Ok in Hd as (-> & -> & Hfit & _). simpl fst.
    apply record_token_index; auto.
  - peel Hx. peel_as Hx r Hd. destruct r as [s1 t]. injection Hx as <-.
    apply _deployToken_Ok in Hd as (-> & -> & Hfit & _). simpl fst.
    apply record_token_index; auto.
  - peel Hx. injection Hx as <-. destruct Hi; split; assumption.
  - peel Hx. injection Hx as <-. destruct Hi; split; assumption.
  - peel Hx. injection Hx as <-. destruct Hi; split; assumption.
  - do 4 peel Hx. injection Hx as <-.
    destruct (to =? self s); destruct Hi; split; assumption.
  - injection Hx as <-. destruct Hi; split; assumption.
  - do 2 peel Hx. injection Hx as <-. destruct Hi; split; assumption.
  - peel Hx. injection Hx as <-. destruct Hi; split; assumption.
Qed.

Lemma index_reachable_inv s : reachable s -> index_inv s.
Proof.
  induction 1 as [self_ initialOwner fee max s Hc | s m c s' Hr IH Hx].
  - unfold constructor in Hc. do 2 peel Hc. injection Hc as <-.
    split; [intros c; reflexivity | intros t Hin; inversion Hin | simpl; lia].
  - eapply index_exec_inv; eauto.
    apply (factory_reachable_inv _ new_token_address_inj). exact Hr.
Qed.

Lemma creator_list_bound s c :
  reachable s ->
  N.of_nat (length (getTokensByCreator s c)) <= totalTokensDeployed s /\
  totalTokensDeployed s <= uint256_max.
Proof.
  intros Hr. pose proof (index_reachable_inv s Hr) as [Hi _ Hb].
  pose proof (factory_reachable_count _ s Hr) as Hc.
  split; [|exact Hb]. rewrite Hi, Hc. unfold created_by.
  pose proof (length_filter (fun t => creator (getTokenInfo s t) = c) (allTokens s)).
  lia.
Qed.

(** X12. [getTokensByCreatorPaginated] in a reachable state: with
    [total] the number of tokens of the creator, an offset at or past
    [total] gives the empty page; otherwise the page is the slice of at
    most [limit] tokens from [offset] on, as long as [offset + limit]
    fits in a [uint256]; when it does not, the call reverts with
    [Panic(0x11)] although the page asked for exists. The loop never
    leaves the arrays. *)
Theorem getTokensByCreatorPaginated_slice s c offset limit :
  reachable s ->
  let l := getTokensByCreator s c in
  let total := N.of_nat (length l) in
  (total <= offset ->
   getTokensByCreatorPaginated s c offset limit = Ok ([], total)) /\
  (offset < total -> offset + limit <= uint256_max ->
   getTokensByCreatorPaginated s c offset limit
   = Ok (take (N.to_nat limit) (drop (N.to_nat offset) l), total)) /\
  (offset < total -> uint256_max < offset + limit ->
   getTokensByCreatorPaginated s c offset limit
   = Revert (Panic arithmetic_overflow)).
Proof.
  intros Hr l total.
  destruct (creator_list_bound s c Hr) as [Hle Hb].
  fold l in Hle. fold total in Hle.
  unfold getTokensByCreatorPaginated. fold l. fold total.
  split; [|split].
  - intros H. apply N.leb_le in H. rewrite H. reflexivity.
  - intros Hlt Hfit.
    assert (H1 : (total <=? offset) = false) by (apply N.leb_gt; exact Hlt).
    rewrite H1. unfold checked_add.
    assert (H2 : (offset + limit <=? uint256_max) = true)
      by (apply N.leb_le; exact Hfit).
    rewrite H2. cbn [bind].
    set (endIndex := if total <? offset + limit then total else offset + limit).
    assert (He : offset <= endIndex /\ endIndex <= total /\
                 (endIndex = offset + limit \/
                  (endIndex = total /\ total < offset + limit))).
    { unfold endIndex. destruct (total <? offset + limit) eqn:Hc.
      - apply N.ltb_lt in Hc. lia.
      - apply N.ltb_ge in Hc. lia. }
    destruct He as (He1 & He2 & He3).
    unfold checked_sub.
    assert (H3 : (offset <=? endIndex) = true) by (apply N.leb_le; exact He1).
    rewrite H3. cbn [bind].
    pose proof (page_loop l offset (N.to_nat (endIndex - offset))) as Hloop.
    specialize (Hloop ltac:(fold total; lia) ltac:(unfold total in *; lia)
                  (N.to_nat (endIndex - offset)) O eq_refl).
    rewrite Nat.sub_0_r, take_0, app_nil_l in Hloop.
    rewrite Hloop. cbn [bind]. do 2 f_equal.
    destruct He3 as [-> | [-> Hbig]].
    + f_equal. lia.
    + rewrite !take_ge; [reflexivity | |]; rewrite length_drop;
        unfold total in *; lia.
  - intros Hlt Hbig.
    assert (H1 : (total <=? offset) = false) by (apply N.leb_gt; exact Hlt).
    rewrite H1. unfold checked_add.
    assert (H2 : (offset + limit <=? uint256_max) = false)
      by (apply N.leb_gt; exact Hbig).
    rewrite H2. reflexivity.
Qed.

(** X13. [getTokenByCreatorAtIndex] in a reachable state reverts with
    [IndexOutOfBounds] exactly when the index is not below the number
    of tokens of the creator; otherwise it returns the record of the
    token at that index of the creator's list, and this record names
    the creator and the token itself. *)
Theorem getTokenByCreatorAtIndex_record s c index :
  reachable s ->
  (getTokenCountByCreator s c <= index ->
   getTokenByCreatorAtIndex s c index = Revert (Custom IndexOutOfBounds)) /\
  (index < getTokenCountByCreator s c ->
   exists t,
     getTokensByCreator s c !! N.to_nat index = Some t /\
     getTokenByCreatorAtIndex s c index = Ok (getTokenInfo s t) /\
     creator (getTokenInfo s t) = c /\
     tokenAddress (getTokenInfo s t) = t /\
     t ∈ allTokens s).
Proof.
  intros Hr. pose proof (index_reachable_inv s Hr) as [Hi Ha _].
  unfold getTokenByCreatorAtIndex, getTokenCountByCreator. split.
  - intros H. apply N.leb_le in H. rewrite H. reflexivity.
  - intros H.
    destruct (lookup_lt_is_Some_2 (getTokensByCreator s c) (N.to_nat index))
      as [t Ht]; [lia|].
    exists t. apply N.leb_gt in H. rewrite H, Ht. cbn [negb require bind].
    apply list_elem_of_lookup_2 in Ht as Hin. rewrite Hi in Hin.
    apply list_elem_of_filter in Hin as [Hc Hin].
    repeat split; auto.
Qed.

(** X14. The index by creator follows the records. In a reachable
    state the list of a creator is the sub-list of [allTokens] whose
    records name it, without repetition; a token is in exactly the list
    of the creator of its record; no creator has more tokens than the
    factory deployed; [isTokenCreator] holds exactly for the creators
    named by some record. *)
Theorem creator_index_follows_records s :
  reachable s ->
  (forall c, getTokensByCreator s c = created_by s c) /\
  (forall c, NoDup (getTokensByCreator s c)) /\
  (forall c t,
      t ∈ getTokensByCreator s c <->
      t ∈ allTokens s /\ creator (getTokenInfo s t) = c) /\
  (forall c, getTokenCountByCreator s c <= getTotalTokensDeployed s) /\
  (forall c,
      isTokenCreator s c = true <->
      exists t, t ∈ allTokens s /\ creator (getTokenInfo s t) = c).
Proof.
  intros Hr. pose proof (index_reachable_inv s Hr) as [Hi Ha Hb].
  pose proof (factory_reachable_inv _ new_token_address_inj s Hr) as Hl.
  assert (Hmem : forall c t,
             t ∈ getTokensByCreator s c <->
             t ∈ allTokens s /\ creator (getTokenInfo s t) = c).
  { intros c t. rewrite Hi. unfold created_by. rewrite list_elem_of_filter. tauto. }
  split; [exact Hi|]. split; [|split; [exact Hmem|split]].
  - intros c. rewrite Hi. apply list.NoDup_filter. apply (inv_nodup _ _ Hl).
  - intros c. apply (creator_list_bound s c Hr).
  - intros c. unfold isTokenCreator. rewrite N.ltb_lt. split.
    + intros Hpos. destruct (getTokensByCreator s c) as [|t l] eqn:Hg;
        [simpl in Hpos; lia|].
      exists t. apply Hmem. rewrite Hg. left.
    + intros (t & Hin & Hc). assert (Ht : t ∈ getTokensByCreator s c)
        by (apply Hmem; auto).
      destruct (getTokensByCreator s c); [inversion Ht | simpl; lia].
Qed.

(** The factory never sets the status of its reentrancy guard within
    a call of the model: it is clear in every reachable state. *)
Lemma reachable_not_entered s : reachable s -> entered s = false.
Proof.
  induction 1 as [self_ initialOwner fee max s Hc | s m c s' Hr IH Hx].
  - unfold constructor in Hc. do 2 peel Hc. injection Hc as <-. reflexivity.
  - destruct c; simpl in Hx.
    + peel Hx. peel_as Hx r Hd. destruct r as [s1 t]. injection Hx as <-.
      apply _deployToken_Ok in Hd as (_ & -> & _). exact IH.
    + peel Hx. peel_as Hx r Hd. destruct r as [s1 t]. injection Hx as <-.
      apply _deployToken_Ok in Hd as (_ & -> & _). exact IH.
    + peel Hx. injection Hx as <-. exact IH.
    + peel Hx. injection Hx as <-. exact IH.
    + peel Hx. injection Hx as <-. exact IH.
    + do 4 peel Hx. injection Hx as <-. destruct (to =? self s); exact IH.
    + injection Hx as <-. exact IH.
    + do 2 peel Hx. injection Hx as <-. exact IH.
    + peel Hx. injection Hx as <-. exact IH.
Qed.

(** The token contract a successful [_deployToken] created. *)
Lemma _deployToken_created m v name_ symbol_ init max tokenOwner me be pe s r :
  _deployToken m v name_ symbol_ init max tokenOwner me be pe s = Ok r ->
  exists tok,
    URBEToken.constructor name_ symbol_ init max tokenOwner me be pe = Ok tok.
Proof.
  unfold TokenFactory._deployToken. intros H. do 9 peel H.
  destruct (URBEToken.constructor _ _ _ _ _ _ _ _) as [tok|]; [|discriminate].
  exists tok. reflexivity.
Qed.

(** X15. [deployTokenWithOwner] books the token to the caller, not to
    the owner it names. After a successful call the new token is at the
    end of the list of the caller, its record names the caller as
    creator, and the list of every other account (the token owner
    included) is as before; the limit per creator was checked against
    the caller. The token itself was created with [tokenOwner], which is
    not zero, as its owner and holder of the initial supply. *)
Theorem deployTokenWithOwner_books_caller
    m v name_ symbol_ init max tokenOwner me be pe s s' :
  exec m s (deployTokenWithOwner v name_ symbol_ init max tokenOwner me be pe)
  = Ok s' ->
  let t := new_token_address (nonce s) in
  getTokensByCreator s' (sender m) = getTokensByCreator s (sender m) ++ [t] /\
  (forall c, c <> sender m -> getTokensByCreator s' c = getTokensByCreator s c) /\
  creator (getTokenInfo s' t) = sender m /\
  getTokenCountByCreator s (sender m) < maxTokensPerCreator s /\
  tokenOwner <> 0 /\
  exists tok,
    URBEToken.constructor name_ symbol_ init max tokenOwner me be pe = Ok tok /\
    URBEToken.owner tok = tokenOwner /\
    URBEToken.balanceOf tok tokenOwner = init /\
    URBEToken.totalSupply tok = init.
Proof.
  intros Hx t. simpl in Hx. peel Hx. peel_as Hx r Hd. destruct r as [s1 t1].
  injection Hx as <-.
  destruct (_deployToken_created _ _ _ _ _ _ _ _ _ _ _ _ Hd) as [tok Htok].
  apply _deployToken_Ok in Hd as (-> & -> & _ & _ & _ & Hcap). simpl fst.
  destruct (URBETokenLedger.constructor_Ok_state _ _ _ _ _ _ _ _ _ Htok)
    as (Ho & _ & _ & Hown & Hts & Hbal & _).
  split; [|split; [|split; [|split; [|split]]]].
  - unfold getTokensByCreator at 1. simpl. rewrite lookup_insert_eq. reflexivity.
  - intros c Hc. unfold getTokensByCreator at 1. simpl.
    rewrite lookup_insert_ne by congruence. reflexivity.
  - unfold getTokenInfo. simpl. rewrite lookup_insert_eq. reflexivity.
  - exact Hcap.
  - exact Ho.
  - exists tok. auto.
Qed.


(** X17. An account that is not the owner changes no setting and takes
    no ether: after its successful call the owner, the fee, the limit
    per creator and the pause flag are as before and the balance has not
    gone down. *)
Theorem settings_owner_only m s c s' :
  exec m s c = Ok s' -> sender m <> owner s ->
  owner s' = owner s /\ deploymentFee s' = deploymentFee s /\
  maxTokensPerCreator s' = maxTokensPerCreator s /\
  factoryPaused s' = factoryPaused s /\ balance s <= balance s'.
Proof.
  intros Hx Hne.
  assert (Hown : (owner s =? sender m) = true -> False).
  { intros Hu. apply N.eqb_eq in Hu. congruence. }
  destruct c; simpl in Hx.
  - peel Hx. peel_as Hx r Hd. destruct r as [s1 t]. injection Hx as <-.
    apply _deployToken_Ok in Hd as (_ & -> & _). simpl. repeat split; lia.
  - peel Hx. peel_as Hx r Hd. destruct r as [s1 t]. injection Hx as <-.
    apply _deployToken_Ok in Hd as (_ & -> & _). simpl. repeat split; lia.
  - peel_as Hx u Hu. destruct (Hown Hu).
  - peel_as Hx u Hu. destruct (Hown Hu).
  - peel_as Hx u Hu. destruct (Hown Hu).
  - peel_as Hx u Hu. destruct (Hown Hu).
  - injection Hx as <-. simpl. repeat split; lia.
  - peel_as Hx u Hu. destruct (Hown Hu).
  - peel_as Hx u Hu. destruct (Hown Hu).
Qed.

(** X18. A paused factory deploys nothing: no call creates a token or
    changes the lists and records, and the two deployment functions,
    entered outside another call, revert with [FactoryPaused] whatever
    their arguments and the value sent. *)
Theorem paused_factory_deploys_nothing m s c :
  factoryPaused s = true ->
  deployed m s c = None /\
  allTokens (state_after s (exec m s c)) = allTokens s /\
  tokensByCreator (state_after s (exec m s c)) = tokensByCreator s /\
  tokenInfo (state_after s (exec m s c)) = tokenInfo s /\
  (entered s = false ->
   forall v name_ symbol_ init max tokenOwner me be pe,
     exec m s (deployToken v name_ symbol_ init max me be pe)
     = Revert (Custom FactoryPaused) /\
     exec m s (deployTokenWithOwner v name_ symbol_ init max tokenOwner me be pe)
     = Revert (Custom FactoryPaused)).
Proof.
  intros Hp.
  assert (Hd : forall v name_ symbol_ init max tokenOwner me be pe,
             _deployToken m v name_ symbol_ init max tokenOwner me be pe s
             = Revert (Custom FactoryPaused)).
  { intros. unfold TokenFactory._deployToken. rewrite Hp. reflexivity. }
  assert (Hrev : forall v name_ symbol_ init max tokenOwner me be pe,
             reverts (with! nonReentrant s in
                      let! r := _deployToken m v name_ symbol_ init max tokenOwner
                                  me be pe s in
                      Ok (receive_value v (fst r)))).
  { intros. unfold nonReentrant. destruct (entered s); simpl.
    - eexists; reflexivity.
    - rewrite Hd. eexists; reflexivity. }
  split; [|split; [|split; [|split]]].
  - destruct c; try reflexivity; unfold TokenFactory.deployed;
      destruct (exec m s _) eqn:Hx; try reflexivity; exfalso;
      simpl in Hx; eapply reverts_not_Ok; eauto.
  - destruct c; simpl;
      try (destruct (Hrev msg_value name_ symbol_ initialSupply_ maxSupply_
                       (sender m) mintingEnabled_ burningEnabled_ pausingEnabled_)
             as [f ->]; reflexivity);
      try (destruct (Hrev msg_value name_ symbol_ initialSupply_ maxSupply_
                       tokenOwner mintingEnabled_ burningEnabled_ pausingEnabled_)
             as [f ->]; reflexivity);
      try reflexivity;
      unfold onlyOwner; destruct (owner s =? sender m); simpl; try reflexivity.
    + destruct (to =? 0), (balance s <? amount), success, (to =? self s);
        reflexivity.
    + destruct (newOwner =? 0); reflexivity.
  - destruct c; simpl;
      try (destruct (Hrev msg_value name_ symbol_ initialSupply_ maxSupply_
                       (sender m) mintingEnabled_ burningEnabled_ pausingEnabled_)
             as [f ->]; reflexivity);
      try (destruct (Hrev msg_value name_ symbol_ initialSupply_ maxSupply_
                       tokenOwner mintingEnabled_ burningEnabled_ pausingEnabled_)
             as [f ->]; reflexivity);
      try reflexivity;
      unfold onlyOwner; destruct (owner s =? sender m); simpl; try reflexivity.
    + destruct (to =? 0), (balance s <? amount), success, (to =? self s);
        reflexivity.
    + destruct (newOwner =? 0); reflexivity.
  - destruct c; simpl;
      try (destruct (Hrev msg_value name_ symbol_ initialSupply_ maxSupply_
                       (sender m) mintingEnabled_ burningEnabled_ pausingEnabled_)
             as [f ->]; reflexivity);
      try (destruct (Hrev msg_value name_ symbol_ initialSupply_ maxSupply_
                       tokenOwner mintingEnabled_ burningEnabled_ pausingEnabled_)
             as [f ->]; reflexivity);
      try reflexivity;
      unfold onlyOwner; destruct (owner s =? sender m); simpl; try reflexivity.
    + destruct (to =? 0), (balance s <? amount), success, (to =? self s);
        reflexivity.
    + destruct (newOwner =? 0); reflexivity.
  - intros He v name_ symbol_ init max tokenOwner me be pe. simpl.
    unfold nonReentrant. rewrite He, !Hd. split; reflexivity.
Qed.

(** X19. When every check passes, [deployToken] succeeds. In a
    reachable, unpaused factory a caller other than the zero address
    that is below its limit and sends at least the fee, with a name and
    a symbol that are not empty and [0 < initialSupply <= maxSupply],
    gets a new token at the address of the current nonce: the token is
    appended to [allTokens] and to the list of the caller, the counter
    goes up by one and the record holds the arguments, the caller and
    the time of the block. *)
Theorem deployToken_succeeds m s v name_ symbol_ init max me be pe :
  reachable s -> factoryPaused s = false ->
  name_ <> EmptyString -> symbol_ <> EmptyString ->
  init <> 0 -> init <= max -> max <= uint256_max -> sender m <> 0 ->
  deploymentFee s <= v ->
  getTokenCountByCreator s (sender m) < maxTokensPerCreator s ->
  totalTokensDeployed s < uint256_max ->
  let c := deployToken v name_ symbol_ init max me be pe in
  let t := new_token_address (nonce s) in
  exists s',
    exec m s c = Ok s' /\ deployed m s c = Some t /\
    allTokens s' = allTokens s ++ [t] /\
    getTokensByCreator s' (sender m) = getTokensByCreator s (sender m) ++ [t] /\
    getTotalTokensDeployed s' = getTotalTokensDeployed s + 1 /\
    getTokenInfo s' t
    = mkTokenInfo t name_ symbol_ init max (sender m) (timestamp m) me be pe.
Proof.
  intros Hr Hp Hn Hs Hi Hle Hmax Hsender Hfee Hcap Htot c t.
  assert (Hx : exec m s c
               = Ok (receive_value v
                       (record_token s (sender m)
                          (mkTokenInfo t name_ symbol_ init max (sender m)
                             (timestamp m) me be pe)
                          (totalTokensDeployed s + 1)))).
  { unfold c. simpl. unfold nonReentrant.
    rewrite (reachable_not_entered s Hr). cbn [negb require bind].
    rewrite _deployToken_to_fee_check by (auto; lia).
    apply N.ltb_ge in Hfee. apply N.leb_gt in Hcap. rewrite Hfee, Hcap.
    cbn [negb require bind].
    destruct (URBEToken_constructor_succeeds name_ symbol_ init max (sender m)
                me be pe) as [tok ->]; try assumption; try lia.
    unfold checked_add.
    assert (Hfit : (totalTokensDeployed s + 1 <=? uint256_max) = true)
      by (apply N.leb_le; lia).
    rewrite Hfit. reflexivity. }
  eexists. split; [exact Hx|]. split; [|split; [|split; [|split]]].
  - unfold c, TokenFactory.deployed. fold c. rewrite Hx. reflexivity.
  - reflexivity.
  - unfold getTokensByCreator at 1. simpl. rewrite lookup_insert_eq. reflexivity.
  - reflexivity.
  - unfold getTokenInfo. simpl. rewrite lookup_insert_eq. reflexivity.
Qed.

End Views.

(** *** The sample factory *)

Lemma getTokensByCreatorPaginated_slice_witness :
  getTokensByCreatorPaginated sample_factory_1 2 0 10 = Ok ([1001], 1) /\
  getTokensByCreatorPaginated sample_factory_1 2 1 10 = Ok ([], 1).
Proof.
  pose proof (getTokensByCreatorPaginated_slice sample_new_token_address
                sample_new_token_address_inj sample_factory_1 2) as H.
  split.
  - destruct (H 0 10 sample_factory_1_reachable) as (_ & -> & _);
      vm_compute; congruence.
  - destruct (H 1 10 sample_factory_1_reachable) as (-> & _);
      vm_compute; congruence.
Defined.

Lemma getTokenByCreatorAtIndex_record_witness :
  getTokenByCreatorAtIndex sample_factory_1 2 1 = Revert (Custom IndexOutOfBounds).
Proof.
  apply (getTokenByCreatorAtIndex_record sample_new_token_address
           sample_new_token_address_inj sample_factory_1 2 1
           sample_factory_1_reachable).
  vm_compute. discriminate.
Defined.

Lemma creator_index_follows_records_witness :
  getTokensByCreator sample_factory_1 2 = created_by sample_factory_1 2 /\
  getTokenCountByCreator sample_factory_1 3 <= getTotalTokensDeployed sample_factory_1.
Proof.
  destruct (creator_index_follows_records sample_new_token_address
              sample_new_token_address_inj sample_factory_1
              sample_factory_1_reachable) as (H1 & _ & _ & H2 & _).
  split; [apply H1 | apply H2].
Defined.

Lemma deployTokenWithOwner_books_caller_witness :
  getTokensByCreator
    (state_after sample_factory_1
       (exec sample_new_token_address (mkMsg 3 1700000100) sample_factory_1
          sample_deployTokenWithOwner)) 3
  = getTokensByCreator sample_factory_1 3 ++ [1002] /\
  getTokensByCreator
    (state_after sample_factory_1
       (exec sample_new_token_address (mkMsg 3 1700000100) sample_factory_1
          sample_deployTokenWithOwner)) 4
  = getTokensByCreator sample_factory_1 4.
Proof.
  destruct (exec sample_new_token_address (mkMsg 3 1700000100) sample_factory_1
              sample_deployTokenWithOwner) as [s'|f] eqn:Hx;
    [|vm_compute in Hx; discriminate].
  destruct (deployTokenWithOwner_books_caller sample_new_token_address _ _ _ _ _ _ _
              _ _ _ _ _ Hx) as (H1 & H2 & _).
  split; [exact H1 | apply H2; discriminate].
Defined.


Lemma settings_owner_only_witness :
  deploymentFee (state_after sample_factory_1
                   (exec sample_new_token_address (mkMsg 3 1700000100)
                      sample_factory_1 sample_deployTokenWithOwner))
  = deploymentFee sample_factory_1.
Proof.
  destruct (exec sample_new_token_address (mkMsg 3 1700000100) sample_factory_1
              sample_deployTokenWithOwner) as [s'|f] eqn:Hx;
    [|vm_compute in Hx; discriminate].
  apply (settings_owner_only sample_new_token_address _ _ _ _ Hx).
  vm_compute. discriminate.
Defined.

Lemma paused_factory_deploys_nothing_witness :
  exec sample_new_token_address (mkMsg 3 1700000100)
    (set_factoryPaused sample_factory_1 true) sample_deployToken
  = Revert (Custom FactoryPaused).
Proof.
  destruct (paused_factory_deploys_nothing sample_new_token_address
              (mkMsg 3 1700000100) (set_factoryPaused sample_factory_1 true)
              sample_deployToken eq_refl) as (_ & _ & _ & _ & H).
  apply (H eq_refl 5 "Token"%string "TKN"%string 100 1000 0 true true true).
Defined.

Lemma deployToken_succeeds_witness :
  exists s',
    exec sample_new_token_address (mkMsg 3 1700000100) sample_factory_1
      sample_deployToken = Ok s' /\
    allTokens s' = [1001; 1002].
Proof.
  destruct (deployToken_succeeds sample_new_token_address (mkMsg 3 1700000100)
              sample_factory_1 5 "Token"%string "TKN"%string 100 1000 true true true)
    as (s' & Hx & _ & Hall & _);
    try exact sample_factory_1_reachable;
    try discriminate; try (vm_compute; congruence).
  exists s'. split; [exact Hx | rewrite Hall; vm_compute; reflexivity].
Defined.

End TokenFactoryViews.

(** ** Properties of TokenRegistry *)

Module TokenRegistryProps.
Import TokenRegistry.

(** *** Reading after writing *)

Lemma getTokenMetadata_set s t md t' :
  getTokenMetadata (set_tokenMetadata s t md) t'
  = if decide (t = t') then md else getTokenMetadata s t'.
Proof.
  unfold getTokenMetadata. simpl. rewrite lookup_insert.
  case_decide; reflexivity.
Qed.

Lemma getCreatorInfo_set s c ci c' :
  getCreatorInfo (set_creatorInfo s c ci) c'
  = if decide (c = c') then ci else getCreatorInfo s c'.
Proof.
  unfold getCreatorInfo. simpl. rewrite lookup_insert.
  case_decide; reflexivity.
Qed.

Lemma getTokenMetadata_insert s s' t md t' :
  tokenMetadata s' = <[t := md]> (tokenMetadata s) ->
  getTokenMetadata s' t' = if decide (t = t') then md else getTokenMetadata s t'.
Proof.
  intros H. unfold getTokenMetadata. rewrite H, lookup_insert.
  case_decide; reflexivity.
Qed.

Lemma getCreatorInfo_insert s s' c ci c' :
  creatorInfo s' = <[c := ci]> (creatorInfo s) ->
  getCreatorInfo s' c' = if decide (c = c') then ci else getCreatorInfo s c'.
Proof.
  intros H. unfold getCreatorInfo. rewrite H, lookup_insert.
  case_decide; reflexivity.
Qed.

(** [setTokenVerification], with the reads of the updated mapping
    resolved: the flag of the token is overwritten and the counter of its
    creator moves by one, whatever the flag was. *)
Lemma do_setTokenVerification_eq m t b s :
  do_setTokenVerification m t b s
  = (with! onlyOwner m s in
     require! TokenMetadata.active (getTokenMetadata s t)
       else Custom TokenNotRegistered in
     let md := getTokenMetadata s t in
     let ci := getCreatorInfo s (TokenMetadata.creator md) in
     let! n := (if b then checked_add (CreatorInfo.verifiedTokens ci) 1
                else checked_sub (CreatorInfo.verifiedTokens ci) 1) in
     Ok (set_creatorInfo
           (set_tokenMetadata s t (TokenMetadata.set_verified md b))
           (TokenMetadata.creator md)
           (CreatorInfo.set_verifiedTokens ci n))).
Proof.
  unfold do_setTokenVerification.
  rewrite getTokenMetadata_set. rewrite decide_True by reflexivity. simpl.
  change (getCreatorInfo (set_tokenMetadata s t ?md) ?c) with (getCreatorInfo s c).
  destruct b; reflexivity.
Qed.

(** *** What the successful calls did *)

Lemma update_creator_Ok m c s s' :
  update_creator m c s = Ok s' ->
  tokenMetadata s' = tokenMetadata s /\
  allTokens s' = allTokens s /\
  totalTokensRegistered s' = totalTokensRegistered s /\
  owner s' = owner s /\
  creatorInfo s' = <[c := updated_creator m c s]> (creatorInfo s).
Proof.
  unfold update_creator, updated_creator. intros H.
  destruct (CreatorInfo.creator (getCreatorInfo s c) =? 0) eqn:Hnew.
  - peel H. injection H as <-. simpl. repeat split; reflexivity.
  - peel H. apply checked_add_Ok in Hg as [-> _]. injection H as <-. simpl.
    repeat split; try reflexivity.
    unfold getCreatorInfo at 1. simpl. rewrite lookup_insert_eq. simpl.
    rewrite insert_insert_eq. reflexivity.
Qed.

(** A successful [_registerToken] passed the five checks, wrote a fresh
    record for the token, appended the token to the list and updated the
    creator. *)
Lemma _registerToken_Ok m v t d w l cat tags c a s s' :
  _registerToken m v t d w l cat tags c a s = Ok s' ->
  registryPaused s = false /\ t <> 0 /\
  TokenMetadata.active (getTokenMetadata s t) = false /\
  cat < totalCategories s /\ registrationFee s <= v /\
  totalTokensRegistered s + 1 <= uint256_max /\
  exists md,
    TokenMetadata.tokenAddress md = t /\ TokenMetadata.creator md = c /\
    TokenMetadata.active md = true /\ TokenMetadata.verified md = false /\
    TokenMetadata.category md = cat /\
    TokenMetadata.registeredAt md = timestamp m /\
    update_creator m c
      (push_token (set_tokenMetadata s t md) t (totalTokensRegistered s + 1))
    = Ok s'.
Proof.
  unfold _registerToken. intros H.
  peel_as H u1 Hpaused. peel_as H u2 Hzero. peel_as H u3 Hactive.
  peel_as H u4 Hcat. peel_as H u5 Hfee.
  peel_as H name_ Hname. peel_as H symbol_ Hsymbol.
  peel_as H u6 Hn. peel_as H u7 Hs.
  peel_as H decimals_ Hdec. peel_as H u8 Hd. peel_as H supply_ Hsup.
  peel_as H md Hmd. peel_as H n Hcount.
  apply checked_add_Ok in Hcount as [-> Hfit]. simpl in Hfit.
  apply negb_true_iff in Hpaused, Hzero, Hactive, Hcat, Hfee.
  apply N.eqb_neq in Hzero. apply N.leb_gt in Hcat. apply N.ltb_ge in Hfee.
  repeat (split; [assumption|]).
  exists md. simpl in H.
  assert (Hfields :
            TokenMetadata.tokenAddress md = t /\ TokenMetadata.creator md = c /\
            TokenMetadata.active md = true /\ TokenMetadata.verified md = false /\
            TokenMetadata.category md = cat /\
            TokenMetadata.registeredAt md = timestamp m).
  { unfold try_maxSupply in Hmd.
    destruct (maxSupply_answer a); try discriminate;
      injection Hmd as <-; simpl; repeat split; reflexivity. }
  destruct Hfields as (? & ? & ? & ? & ? & ?). repeat (split; [assumption|]).
  exact H.
Qed.

Lemma active_written s t :
  TokenMetadata.active (getTokenMetadata s t) = true ->
  tokenMetadata s !! t = Some (getTokenMetadata s t).
Proof.
  unfold getTokenMetadata. destruct (tokenMetadata s !! t); simpl;
    [reflexivity | discriminate].
Qed.

Lemma creator_written s c :
  CreatorInfo.creator (getCreatorInfo s c) <> 0 ->
  creatorInfo s !! c = Some (getCreatorInfo s c).
Proof.
  unfold getCreatorInfo. destruct (creatorInfo s !! c); simpl;
    [reflexivity | congruence].
Qed.

Lemma register_effect m v t d w l cat tags c a s s' :
  _registerToken m v t d w l cat tags c a s = Ok s' ->
  exists md,
    TokenMetadata.tokenAddress md = t /\ TokenMetadata.creator md = c /\
    TokenMetadata.active md = true /\ TokenMetadata.verified md = false /\
    TokenMetadata.category md = cat /\
    TokenMetadata.active (getTokenMetadata s t) = false /\
    tokenMetadata s' = <[t := md]> (tokenMetadata s) /\
    allTokens s' = allTokens s ++ [t] /\
    totalTokensRegistered s' = totalTokensRegistered s + 1 /\
    owner s' = owner s /\
    creatorInfo s' = <[c := updated_creator m c s]> (creatorInfo s).
Proof.
  intros H. apply _registerToken_Ok in H
    as (_ & _ & Hact & _ & _ & _ & md & Ha & Hc & Hac & Hv & Hcat & _ & H).
  apply update_creator_Ok in H as (Hm & Hall & Hn & Ho & Hci). simpl in *.
  exists md. repeat (split; [assumption|]). exact Hci.
Qed.

(** *** The invariant of the registry *)

Lemma ledger_ok_register meta all count creators t md ci :
  ledger_ok meta all count creators ->
  meta !! t = None ->
  TokenMetadata.active md = true ->
  CreatorInfo.creator ci = TokenMetadata.creator md ->
  CreatorInfo.totalVolume ci = 0 ->
  ledger_ok (<[t := md]> meta) (all ++ [t]) (count + 1)
    (<[TokenMetadata.creator md := ci]> creators).
Proof.
  intros [H1 H2 H3 H4 H5 H6] Hnew Hact Hkey Hvol.
  assert (Hfresh : t ∉ all).
  { intros Hin. apply H3 in Hin as [? Hin]. congruence. }
  split.
  - rewrite H1, length_app. simpl. lia.
  - intros t' md' Hl. destruct (decide (t = t')) as [<-|Hne].
    + rewrite lookup_insert_eq in Hl. injection Hl as <-.
      split; [exact Hact|]. split.
      * apply elem_of_app. right. apply list_elem_of_singleton. reflexivity.
      * rewrite lookup_insert_eq. eauto.
    + rewrite lookup_insert_ne in Hl by exact Hne.
      apply H2 in Hl as (? & ? & Hc). split; [assumption|]. split.
      * apply elem_of_app. auto.
      * rewrite lookup_insert. case_decide; eauto.
  - intros t' Hin. rewrite lookup_insert. case_decide; [eauto|].
    apply elem_of_app in Hin as [Hin|Hin]; [auto|].
    apply list_elem_of_singleton in Hin. congruence.
  - apply list.NoDup_app. split; [exact H4|]. split; [|apply NoDup_singleton].
    intros x Hin Hin'. apply list_elem_of_singleton in Hin'. congruence.
  - intros c' ci' Hl. rewrite lookup_insert in Hl. case_decide.
    + injection Hl as <-. congruence.
    + eauto.
  - intros c' ci' Hl. rewrite lookup_insert in Hl. case_decide.
    + injection Hl as <-. exact Hvol.
    + eauto.
Qed.

Lemma ledger_ok_metadata meta all count creators t md md' :
  ledger_ok meta all count creators ->
  meta !! t = Some md ->
  TokenMetadata.active md' = true ->
  TokenMetadata.creator md' = TokenMetadata.creator md ->
  ledger_ok (<[t := md']> meta) all count creators.
Proof.
  intros [H1 H2 H3 H4 H5 H6] Hold Hact Hcr.
  split; try assumption.
  - intros t' x Hl. rewrite lookup_insert in Hl. case_decide.
    + subst t'. injection Hl as <-. apply H2 in Hold as (_ & ? & ?).
      rewrite Hcr. auto.
    + eauto.
  - intros t' Hin. rewrite lookup_insert. case_decide; eauto.
Qed.

Lemma ledger_ok_creator meta all count creators c ci :
  ledger_ok meta all count creators ->
  CreatorInfo.creator ci = c ->
  CreatorInfo.totalVolume ci = 0 ->
  ledger_ok meta all count (<[c := ci]> creators).
Proof.
  intros [H1 H2 H3 H4 H5 H6] Hkey Hvol.
  split; try assumption.
  - intros t md Hl. apply H2 in Hl as (? & ? & ?). split; [assumption|].
    split; [assumption|]. rewrite lookup_insert. case_decide; eauto.
  - intros c' ci' Hl. rewrite lookup_insert in Hl. case_decide.
    + injection Hl as <-. congruence.
    + eauto.
  - intros c' ci' Hl. rewrite lookup_insert in Hl. case_decide.
    + injection Hl as <-. exact Hvol.
    + eauto.
Qed.

(** The total volume of a creator is zero under the invariant. *)
Lemma inv_totalVolume s c :
  registry_inv s -> CreatorInfo.totalVolume (getCreatorInfo s c) = 0.
Proof.
  intros Hi. unfold getCreatorInfo.
  destruct (creatorInfo s !! c) as [ci|] eqn:Hl; simpl; [|reflexivity].
  exact (reg_volume _ _ _ _ Hi c ci Hl).
Qed.

(** A creator without a record, other than the zero address, reads as
    the zero record. *)
Lemma inv_new_creator s c :
  registry_inv s -> c <> 0 ->
  CreatorInfo.creator (getCreatorInfo s c) = 0 ->
  getCreatorInfo s c = CreatorInfo.zero.
Proof.
  intros Hi Hc. unfold getCreatorInfo.
  destruct (creatorInfo s !! c) as [ci|] eqn:Hl; simpl; [|reflexivity].
  rewrite (reg_creator_key _ _ _ _ Hi c ci Hl). congruence.
Qed.

Lemma updated_creator_key m c s :
  registry_inv s -> CreatorInfo.creator (updated_creator m c s) = c.
Proof.
  intros Hi. unfold updated_creator.
  destruct (CreatorInfo.creator (getCreatorInfo s c) =? 0) eqn:Hnew; simpl.
  - reflexivity.
  - apply N.eqb_neq in Hnew.
    apply (reg_creator_key _ _ _ _ Hi c), creator_written, Hnew.
Qed.

Lemma updated_creator_volume m c s :
  registry_inv s -> CreatorInfo.totalVolume (updated_creator m c s) = 0.
Proof.
  intros Hi. unfold updated_creator.
  destruct (CreatorInfo.creator (getCreatorInfo s c) =? 0); simpl.
  - reflexivity.
  - apply inv_totalVolume, Hi.
Qed.

Lemma inactive_unwritten s t :
  registry_inv s -> TokenMetadata.active (getTokenMetadata s t) = false ->
  tokenMetadata s !! t = None.
Proof.
  intros Hi. unfold getTokenMetadata.
  destruct (tokenMetadata s !! t) as [md|] eqn:Hl; simpl; [|reflexivity].
  destruct (reg_written _ _ _ _ Hi t md Hl) as (Hact & _). congruence.
Qed.

Lemma _registerToken_inv m v t d w l cat tags c a s s' :
  _registerToken m v t d w l cat tags c a s = Ok s' ->
  registry_inv s -> registry_inv s'.
Proof.
  intros H Hi. apply register_effect in H
    as (md & _ & Hc & Hact & _ & _ & Hold & Hm & Hall & Hn & _ & Hci).
  unfold registry_inv. rewrite Hm, Hall, Hn, Hci, <- Hc.
  apply ledger_ok_register; try assumption.
  - apply inactive_unwritten; assumption.
  - rewrite Hc. apply updated_creator_key, Hi.
  - apply updated_creator_volume, Hi.
Qed.

Lemma registry_exec_inv m s c s' : exec m s c = Ok s' -> registry_inv s -> registry_inv s'.
Proof.
  intros H Hi. destruct c; simpl in H.
  - do 2 peel H. injection H as <-.
    exact (_registerToken_inv _ _ _ _ _ _ _ _ _ _ _ _ Hg0 Hi).
  - do 2 peel H. injection H as <-.
    exact (_registerToken_inv _ _ _ _ _ _ _ _ _ _ _ _ Hg0 Hi).
  - unfold do_updateTokenMetadata in H. do 2 peel H. injection H as <-.
    apply active_written in Hg0.
    eapply ledger_ok_metadata; [exact Hi | exact Hg0 | |]; reflexivity || (simpl; apply (reg_written _ _ _ _ Hi _ _ Hg0)).
  - unfold do_registerCreator in H. do 2 peel H.
    assert (Hok : ledger_ok (tokenMetadata s) (allTokens s) (totalTokensRegistered s)
              (<[sender m :=
                   CreatorInfo.mk (sender m)
                     (if CreatorInfo.creator (getCreatorInfo s (sender m)) =? 0
                      then 0 else CreatorInfo.totalTokens (getCreatorInfo s (sender m)))
                     (if CreatorInfo.creator (getCreatorInfo s (sender m)) =? 0
                      then 0 else CreatorInfo.verifiedTokens (getCreatorInfo s (sender m)))
                     (if CreatorInfo.creator (getCreatorInfo s (sender m)) =? 0
                      then 0 else CreatorInfo.totalVolume (getCreatorInfo s (sender m)))
                     (timestamp m)
                     (if CreatorInfo.creator (getCreatorInfo s (sender m)) =? 0
                      then false else CreatorInfo.verified (getCreatorInfo s (sender m)))
                     name_ description_]> (creatorInfo s))).
    { apply ledger_ok_creator; [exact Hi | reflexivity |]. simpl.
      destruct (_ =? 0); [reflexivity | apply inv_totalVolume, Hi]. }
    destruct (CreatorInfo.creator (getCreatorInfo s (sender m)) =? 0).
    + peel H. injection H as <-. exact Hok.
    + injection H as <-. exact Hok.
  - unfold do_updateCreatorInfo in H. do 3 peel H. injection H as <-.
    apply negb_true_iff, N.eqb_neq in Hg.
    apply ledger_ok_creator; [exact Hi | |]; simpl.
    + apply (reg_creator_key _ _ _ _ Hi), creator_written, Hg.
    + apply inv_totalVolume, Hi.
  - peel H. injection H as <-. exact Hi.
  - peel H. injection H as <-. exact Hi.
  - peel H. injection H as <-. exact Hi.
  - rewrite do_setTokenVerification_eq in H. do 2 peel H. cbv zeta in H.
    peel H. injection H as <-.
    apply active_written in Hg0.
    destruct (reg_written _ _ _ _ Hi _ _ Hg0) as (Hact & _ & [ci Hci]).
    pose proof (reg_creator_key _ _ _ _ Hi _ _ Hci) as Hkey.
    pose proof (reg_volume _ _ _ _ Hi _ _ Hci) as Hvol.
    unfold getCreatorInfo. rewrite Hci. simpl.
    apply ledger_ok_creator; [|exact Hkey | exact Hvol].
    eapply ledger_ok_metadata; [exact Hi | exact Hg0 | exact Hact | reflexivity].
  - unfold do_setCreatorVerification in H. do 2 peel H. injection H as <-.
    apply negb_true_iff, N.eqb_neq in Hg0.
    apply ledger_ok_creator; [exact Hi | |]; simpl.
    + apply (reg_creator_key _ _ _ _ Hi), creator_written, Hg0.
    + apply inv_totalVolume, Hi.
  - peel H. unfold _createCategory in H. peel H. injection H as <-. exact Hi.
  - unfold do_updateCategory in H. do 2 peel H. injection H as <-. exact Hi.
  - unfold do_withdrawFees in H. do 4 peel H. injection H as <-.
    destruct (to =? self s); exact Hi.
  - injection H as <-. exact Hi.
  - do 2 peel H. injection H as <-. exact Hi.
  - peel H. injection H as <-. exact Hi.
Qed.

Lemma _createCategory_Ok name_ description_ s s' :
  _createCategory name_ description_ s = Ok s' ->
  tokenMetadata s' = tokenMetadata s /\ allTokens s' = allTokens s /\
  totalTokensRegistered s' = totalTokensRegistered s /\
  creatorInfo s' = creatorInfo s /\
  allCreators s' = allCreators s /\ totalCreators s' = totalCreators s /\
  owner s' = owner s /\
  totalCategories s' = totalCategories s + 1 /\
  categories s'
  = <[totalCategories s := CategoryInfo.mk name_ description_ 0 true]> (categories s).
Proof.
  unfold _createCategory. intros H. peel H. injection H as <-.
  apply checked_add_Ok in Hg as [-> _]. simpl. repeat split; reflexivity.
Qed.

Lemma registry_constructor_inv self_ initialOwner fee factory minTokens minVolume s :
  constructor self_ initialOwner fee factory minTokens minVolume = Ok s ->
  registry_inv s /\ allTokens s = [] /\ totalCategories s = 5.
Proof.
  unfold constructor. intros H. do 3 peel H.
  peel_as H s1 H1. peel_as H s2 H2. peel_as H s3 H3. peel_as H s4 H4.
  apply _createCategory_Ok in H1 as (M1 & A1 & N1 & C1 & _ & _ & _ & T1 & _).
  apply _createCategory_Ok in H2 as (M2 & A2 & N2 & C2 & _ & _ & _ & T2 & _).
  apply _createCategory_Ok in H3 as (M3 & A3 & N3 & C3 & _ & _ & _ & T3 & _).
  apply _createCategory_Ok in H4 as (M4 & A4 & N4 & C4 & _ & _ & _ & T4 & _).
  apply _createCategory_Ok in H as (M5 & A5 & N5 & C5 & _ & _ & _ & T5 & _).
  simpl in *.
  assert (Hm : tokenMetadata s = ∅) by congruence.
  assert (Ha : allTokens s = []) by congruence.
  assert (Hn : totalTokensRegistered s = 0) by congruence.
  assert (Hc : creatorInfo s = ∅) by congruence.
  split; [|split; [exact Ha | lia]].
  unfold registry_inv. rewrite Hm, Ha, Hn, Hc. split.
  - reflexivity.
  - intros t md Hl. rewrite lookup_empty in Hl. discriminate.
  - intros t Hin. apply elem_of_nil in Hin. contradiction.
  - apply NoDup_nil_2.
  - intros c ci Hl. rewrite lookup_empty in Hl. discriminate.
  - intros c ci Hl. rewrite lookup_empty in Hl. discriminate.
Qed.

Lemma registry_reachable_inv s : reachable s -> registry_inv s.
Proof.
  induction 1 as [? ? ? ? ? ? s Hc | s m c s' _ IH Hx].
  - apply registry_constructor_inv in Hc as [? _]. assumption.
  - eauto using registry_exec_inv.
Qed.

(** *** The filtered queries compute a filter *)

Lemma scan_loop test (all : list N) n :
  (n <= length all)%nat ->
  forall tempTokens count,
    fold_left (scan_step test all) (seq 0 n) (replicate (length all) 0, O)
    = (tempTokens, count) ->
    take count tempTokens = List.filter test (take n all) /\
    length tempTokens = length all /\ (count <= n)%nat.
Proof.
  induction n as [|n IH]; intros Hn tempTokens count.
  - simpl. intros [= <- <-]. rewrite length_replicate. auto.
  - rewrite seq_S, fold_left_app. simpl.
    destruct (fold_left (scan_step test all) (seq 0 n) (replicate (length all) 0, O))
      as [temp0 count0] eqn:Hloop.
    destruct (IH ltac:(lia) temp0 count0 eq_refl) as (Htake & Hlen & Hcount).
    destruct (lookup_lt_is_Some_2 all n ltac:(lia)) as [t Ht].
    rewrite (take_S_r all n t Ht), List.filter_app. simpl.
    unfold scan_step. rewrite Ht.
    destruct (test t).
    + intros [= <- <-].
      rewrite (take_S_r (<[count0 := t]> temp0) count0 t)
        by (apply list_lookup_insert_eq; lia).
      rewrite take_insert_ge by lia. rewrite Htake, length_insert.
      repeat split; [assumption | lia].
    + intros [= <- <-]. rewrite app_nil_r. repeat split; [assumption.. | lia].
Qed.

Lemma copy_loop (tempTokens : list N) count n :
  (n <= count)%nat -> (count <= length tempTokens)%nat ->
  fold_left (copy_step tempTokens) (seq 0 n) (replicate count 0)
  = take n tempTokens ++ replicate (count - n) 0.
Proof.
  intros Hn Hcount. induction n as [|n IH].
  - simpl. rewrite Nat.sub_0_r. reflexivity.
  - rewrite seq_S, fold_left_app, IH by lia. simpl. unfold copy_step.
    destruct (lookup_lt_is_Some_2 tempTokens n ltac:(lia)) as [x Hx].
    rewrite Hx. simpl.
    rewrite insert_app_r_alt by (rewrite length_take; lia).
    rewrite length_take, Nat.min_l, Nat.sub_diag by lia.
    replace (count - n)%nat with (S (count - S n)) by lia. simpl.
    rewrite (take_S_r tempTokens n x Hx), <- app_assoc. reflexivity.
Qed.

Lemma scan_filter test (all : list N) : scan test all = List.filter test all.
Proof.
  unfold scan.
  destruct (fold_left (scan_step test all) (seq 0 (length all))
              (replicate (length all) 0, O)) as [tempTokens count] eqn:Hloop.
  destruct (scan_loop test all (length all) ltac:(lia) _ _ Hloop)
    as (Htake & Hlen & Hcount).
  rewrite copy_loop by lia.
  rewrite Nat.sub_diag, app_nil_r, Htake, firstn_all. reflexivity.
Qed.

Lemma listed_iff_registered s t :
  registry_inv s -> (t ∈ allTokens s <-> isTokenRegistered s t = true).
Proof.
  intros Hi. unfold isTokenRegistered. split.
  - intros Hin. destruct (reg_listed _ _ _ _ Hi t Hin) as [md Hl].
    unfold getTokenMetadata. rewrite Hl. simpl.
    apply (reg_written _ _ _ _ Hi t md Hl).
  - intros Hact. apply active_written in Hact.
    apply (reg_written _ _ _ _ Hi t _ Hact).
Qed.

Lemma sample_registry_reachable : reachable sample_registry.
Proof. eapply (reachable_constructor 600 1 3 500 1 1000). vm_compute. reflexivity. Qed.

Lemma sample_registry_1_reachable : reachable sample_registry_1.
Proof.
  eapply reachable_call; [exact sample_registry_reachable|].
  instantiate (1 := sample_registerToken). instantiate (1 := mkMsg 2 1700000000).
  vm_compute. reflexivity.
Qed.

Lemma sample_registry_2_reachable : reachable sample_registry_2.
Proof.
  eapply reachable_call; [exact sample_registry_1_reachable|].
  instantiate (1 := setTokenVerification 77 true).
  instantiate (1 := mkMsg 1 1700000100).
  vm_compute. reflexivity.
Qed.

(** C5. The three filtered queries return the tokens of [allTokens] that
    pass their test, in the order of [allTokens]: the verified ones, the
    ones of a creator, the ones of a category (after the check of the
    category); and in a reachable state the tokens of [allTokens] are the
    registered ones. *)
Theorem filtered_queries :
  (forall s,
      getVerifiedTokens s
      = List.filter (fun t => TokenMetadata.verified (getTokenMetadata s t))
          (allTokens s)) /\
  (forall s c,
      getTokensByCreator s c
      = List.filter (fun t => TokenMetadata.creator (getTokenMetadata s t) =? c)
          (allTokens s)) /\
  (forall s id,
      getTokensByCategory s id
      = if totalCategories s <=? id then Revert (Custom InvalidCategoryId)
        else Ok (List.filter
                   (fun t => TokenMetadata.category (getTokenMetadata s t) =? id)
                   (allTokens s))) /\
  (forall s t,
      reachable s ->
      (t ∈ getVerifiedTokens s <->
       isTokenRegistered s t = true /\
       TokenMetadata.verified (getTokenMetadata s t) = true) /\
      (forall c, t ∈ getTokensByCreator s c <->
                 isTokenRegistered s t = true /\
                 TokenMetadata.creator (getTokenMetadata s t) = c) /\
      (forall id, id < totalCategories s ->
                  forall l, getTokensByCategory s id = Ok l ->
                  (t ∈ l <->
                   isTokenRegistered s t = true /\
                   TokenMetadata.category (getTokenMetadata s t) = id))).
Proof.
  split; [|split; [|split]].
  - intros s. apply scan_filter.
  - intros s c. apply scan_filter.
  - intros s id. unfold getTokensByCategory.
    destruct (totalCategories s <=? id); simpl; [reflexivity|].
    rewrite scan_filter. reflexivity.
  - intros s t Hr. apply registry_reachable_inv in Hr.
    pose proof (listed_iff_registered s t Hr) as Hreg.
    split; [|split].
    + unfold getVerifiedTokens. rewrite scan_filter, list_elem_of_In, filter_In,
        <- list_elem_of_In, Hreg. reflexivity.
    + intros c. unfold getTokensByCreator.
      rewrite scan_filter, list_elem_of_In, filter_In, <- list_elem_of_In, Hreg,
        N.eqb_eq. reflexivity.
    + intros id Hid l. unfold getTokensByCategory.
      apply N.leb_gt in Hid. rewrite Hid. simpl. intros [= <-].
      rewrite scan_filter, list_elem_of_In, filter_In, <- list_elem_of_In, Hreg,
        N.eqb_eq. reflexivity.
Qed.

Lemma filtered_queries_witness :
  (77 ∈ getVerifiedTokens sample_registry_2 <->
   isTokenRegistered sample_registry_2 77 = true /\
   TokenMetadata.verified (getTokenMetadata sample_registry_2 77) = true) /\
  getVerifiedTokens sample_registry_2 = [77] /\
  getVerifiedTokens sample_registry_1 = [].
Proof.
  destruct filtered_queries as (Hv & _ & _ & Hin).
  split; [|split].
  - apply (Hin sample_registry_2 77). exact sample_registry_2_reachable.
  - rewrite Hv. vm_compute. reflexivity.
  - rewrite Hv. vm_compute. reflexivity.
Defined.

(** *** Who changes the record of a token *)

Lemma exec_metadata m s c s' t :
  exec m s c = Ok s' ->
  TokenMetadata.active (getTokenMetadata s t) = true ->
  getTokenMetadata s' t = getTokenMetadata s t \/
  (sender m = TokenMetadata.creator (getTokenMetadata s t) /\
   exists d w l,
     c = updateTokenMetadata t d w l /\
     getTokenMetadata s' t = TokenMetadata.set_texts (getTokenMetadata s t) d w l) \/
  (sender m = owner s /\
   exists b,
     c = setTokenVerification t b /\
     getTokenMetadata s' t = TokenMetadata.set_verified (getTokenMetadata s t) b).
Proof.
  intros H Hact. destruct c; simpl in H.
  - left. do 2 peel H. injection H as <-.
    apply register_effect in Hg0 as (md & _ & _ & _ & _ & _ & Hold & Hm & _).
    change (getTokenMetadata (receive_value msg_value x0) t) with (getTokenMetadata x0 t).
    rewrite (getTokenMetadata_insert _ _ _ _ _ Hm).
    case_decide; [congruence | reflexivity].
  - left. do 2 peel H. injection H as <-.
    apply register_effect in Hg0 as (md & _ & _ & _ & _ & _ & Hold & Hm & _).
    change (getTokenMetadata (receive_value msg_value x0) t) with (getTokenMetadata x0 t).
    rewrite (getTokenMetadata_insert _ _ _ _ _ Hm).
    case_decide; [congruence | reflexivity].
  - unfold do_updateTokenMetadata in H. do 2 peel H. injection H as <-.
    rewrite getTokenMetadata_set. case_decide; [subst tokenAddress_ | left; reflexivity].
    right. left. apply N.eqb_eq in Hg. split; [congruence|]. eauto.
  - left. unfold do_registerCreator in H. do 2 peel H.
    destruct (_ =? 0); [peel H|]; injection H as <-; reflexivity.
  - left. unfold do_updateCreatorInfo in H. do 3 peel H. injection H as <-. reflexivity.
  - left. peel H. injection H as <-. reflexivity.
  - left. peel H. injection H as <-. reflexivity.
  - left. peel H. injection H as <-. reflexivity.
  - rewrite do_setTokenVerification_eq in H. do 2 peel H. cbv zeta in H.
    peel H. injection H as <-.
    change (getTokenMetadata (set_creatorInfo ?s0 ?c0 ?ci) t)
      with (getTokenMetadata s0 t).
    rewrite getTokenMetadata_set. case_decide; [subst tokenAddress_ | left; reflexivity].
    right. right. apply N.eqb_eq in Hg.
    split; [congruence|]. eauto.
  - left. unfold do_setCreatorVerification in H. do 2 peel H. injection H as <-.
    reflexivity.
  - left. peel H. unfold _createCategory in H. peel H. injection H as <-. reflexivity.
  - left. unfold do_updateCategory in H. do 2 peel H. injection H as <-. reflexivity.
  - left. unfold do_withdrawFees in H. do 4 peel H. injection H as <-.
    destruct (to =? self s); reflexivity.
  - left. injection H as <-. reflexivity.
  - left. do 2 peel H. injection H as <-. reflexivity.
  - left. peel H. injection H as <-. reflexivity.
Qed.



(** *** The counters of a creator *)

Lemma registration_counters m v t d w l cat tags c a s s' :
  registry_inv s -> c <> 0 ->
  _registerToken m v t d w l cat tags c a s = Ok s' ->
  CreatorInfo.totalTokens (getCreatorInfo s' c)
  = CreatorInfo.totalTokens (getCreatorInfo s c) + 1 /\
  CreatorInfo.lastActivity (getCreatorInfo s' c) = timestamp m /\
  CreatorInfo.verifiedTokens (getCreatorInfo s' c)
  = CreatorInfo.verifiedTokens (getCreatorInfo s c) /\
  CreatorInfo.totalVolume (getCreatorInfo s' c)
  = CreatorInfo.totalVolume (getCreatorInfo s c) /\
  (forall c', c' <> c -> getCreatorInfo s' c' = getCreatorInfo s c').
Proof.
  intros Hi Hc H.
  apply register_effect in H as (md & _ & _ & _ & _ & _ & _ & _ & _ & _ & _ & Hci).
  rewrite (getCreatorInfo_insert _ _ _ _ c Hci), decide_True by reflexivity.
  assert (Hothers : forall c', c' <> c -> getCreatorInfo s' c' = getCreatorInfo s c').
  { intros c' Hne. rewrite (getCreatorInfo_insert _ _ _ _ c' Hci).
    rewrite decide_False by congruence. reflexivity. }
  unfold updated_creator.
  destruct (CreatorInfo.creator (getCreatorInfo s c) =? 0) eqn:Hnew.
  - apply N.eqb_eq in Hnew. rewrite (inv_new_creator s c Hi Hc Hnew). simpl.
    repeat split; try reflexivity. exact Hothers.
  - simpl. repeat split; try reflexivity. exact Hothers.
Qed.

(** C2 (as amended). In a reachable state, a successful registration for
    a creator other than the zero address adds one to the [totalTokens] of
    the creator and sets its [lastActivity] to the time of the block;
    [verifiedTokens] and [totalVolume] stay as they were. A successful
    [setTokenVerification] adds one to, or takes one from, the
    [verifiedTokens] of the creator of the token and leaves the other
    three counters alone. No call updates [totalVolume]: it is zero for
    every creator in every reachable state. *)
Theorem creator_counters :
  (forall s m s' v t d w l cat tags creator_ a,
      reachable s -> creator_ <> 0 ->
      (exec m s (registerTokenForCreator v t d w l cat tags creator_ a) = Ok s' \/
       (creator_ = sender m /\
        exec m s (registerToken v t d w l cat tags a) = Ok s')) ->
      CreatorInfo.totalTokens (getCreatorInfo s' creator_)
      = CreatorInfo.totalTokens (getCreatorInfo s creator_) + 1 /\
      CreatorInfo.lastActivity (getCreatorInfo s' creator_) = timestamp m /\
      CreatorInfo.verifiedTokens (getCreatorInfo s' creator_)
      = CreatorInfo.verifiedTokens (getCreatorInfo s creator_) /\
      CreatorInfo.totalVolume (getCreatorInfo s' creator_)
      = CreatorInfo.totalVolume (getCreatorInfo s creator_)) /\
  (forall s m s' t b,
      exec m s (setTokenVerification t b) = Ok s' ->
      let c := TokenMetadata.creator (getTokenMetadata s t) in
      CreatorInfo.verifiedTokens (getCreatorInfo s' c)
      = (if b then CreatorInfo.verifiedTokens (getCreatorInfo s c) + 1
         else CreatorInfo.verifiedTokens (getCreatorInfo s c) - 1) /\
      (b = false -> 1 <= CreatorInfo.verifiedTokens (getCreatorInfo s c)) /\
      CreatorInfo.totalTokens (getCreatorInfo s' c)
      = CreatorInfo.totalTokens (getCreatorInfo s c) /\
      CreatorInfo.lastActivity (getCreatorInfo s' c)
      = CreatorInfo.lastActivity (getCreatorInfo s c) /\
      CreatorInfo.totalVolume (getCreatorInfo s' c)
      = CreatorInfo.totalVolume (getCreatorInfo s c)) /\
  (forall s c, reachable s -> CreatorInfo.totalVolume (getCreatorInfo s c) = 0).
Proof.
  split; [|split].
  - intros s m s' v t d w l cat tags creator_ a Hr Hc Hx.
    apply registry_reachable_inv in Hr.
    assert (Hreg : exists s1,
               _registerToken m v t d w l cat tags creator_ a s = Ok s1 /\
               s' = receive_value v s1).
    { destruct Hx as [Hx | [-> Hx]]; simpl in Hx; do 2 peel Hx;
        injection Hx as <-; eauto. }
    destruct Hreg as (s1 & Hreg & ->).
    destruct (registration_counters _ _ _ _ _ _ _ _ _ _ _ _ Hr Hc Hreg)
      as (H1 & H2 & H3 & H4 & _).
    change (getCreatorInfo (receive_value v s1) creator_)
      with (getCreatorInfo s1 creator_).
    auto.
  - intros s m s' t b Hx c. simpl in Hx.
    rewrite do_setTokenVerification_eq in Hx. do 2 peel Hx. cbv zeta in Hx.
    peel Hx. injection Hx as <-. fold c in Hg1 |- *.
    rewrite getCreatorInfo_set, decide_True by reflexivity. simpl.
    destruct b.
    + apply checked_add_Ok in Hg1 as [-> _].
      repeat split; try reflexivity. discriminate.
    + apply checked_sub_Ok in Hg1 as [-> Hle].
      repeat split; try reflexivity. intros _. exact Hle.
  - intros s c Hr. apply inv_totalVolume, registry_reachable_inv, Hr.
Qed.

Lemma creator_counters_witness :
  CreatorInfo.totalTokens (getCreatorInfo sample_registry_1 2)
  = CreatorInfo.totalTokens (getCreatorInfo sample_registry 2) + 1 /\
  CreatorInfo.totalVolume (getCreatorInfo sample_registry_2 2) = 0.
Proof.
  destruct creator_counters as (Hreg & _ & Hvol).
  split.
  - destruct (Hreg sample_registry (mkMsg 2 1700000000) sample_registry_1
                3 77 "A wrapped coin"%string "https://coin.example"%string
                "https://coin.example/logo.png"%string 0 ["wrapped"%string] 2
                sample_answers sample_registry_reachable) as (H & _).
    + discriminate.
    + right. split; [reflexivity | vm_compute; reflexivity].
    + exact H.
  - apply Hvol. exact sample_registry_2_reachable.
Defined.

(** C2 (as stated) fails on [totalVolume]: address 2 registers the token
    77 and the owner verifies it; both calls succeed, and the total volume
    of the creator is zero before, between and after them. *)
Lemma totalVolume_not_updated :
  exec (mkMsg 2 1700000000) sample_registry sample_registerToken
  = Ok sample_registry_1 /\
  exec (mkMsg 1 1700000100) sample_registry_1 (setTokenVerification 77 true)
  = Ok sample_registry_2 /\
  CreatorInfo.totalVolume (getCreatorInfo sample_registry 2) = 0 /\
  CreatorInfo.totalVolume (getCreatorInfo sample_registry_1 2) = 0 /\
  CreatorInfo.totalVolume (getCreatorInfo sample_registry_2 2) = 0 /\
  CreatorInfo.totalTokens (getCreatorInfo sample_registry_2 2) = 1 /\
  CreatorInfo.verifiedTokens (getCreatorInfo sample_registry_2 2) = 1.
Proof. repeat split; vm_compute; reflexivity. Qed.

(** *** Registration of any token *)

Lemma update_creator_succeeds m c s :
  totalCreators s < uint256_max ->
  CreatorInfo.totalTokens (getCreatorInfo s c) < uint256_max ->
  succeeds (update_creator m c s).
Proof.
  intros Hc Ht. unfold update_creator, checked_add.
  destruct (CreatorInfo.creator (getCreatorInfo s c) =? 0); simpl.
  - assert (H : (totalCreators s + 1 <=? uint256_max) = true) by (apply N.leb_le; lia).
    rewrite H. eexists; reflexivity.
  - assert (H : (CreatorInfo.totalTokens (getCreatorInfo s c) + 1 <=? uint256_max) = true)
      by (apply N.leb_le; lia).
    rewrite H. eexists; reflexivity.
Qed.

Lemma _registerToken_succeeds m v t d w l cat tags c a s name_ symbol_ :
  registryPaused s = false -> t <> 0 -> isTokenRegistered s t = false ->
  cat < totalCategories s -> registrationFee s <= v ->
  name_answer a = Returned name_ -> name_ <> EmptyString ->
  symbol_answer a = Returned symbol_ -> symbol_ <> EmptyString ->
  answers_decode a = true ->
  totalTokensRegistered s < uint256_max -> totalCreators s < uint256_max ->
  CreatorInfo.totalTokens (getCreatorInfo s c) < uint256_max ->
  succeeds (_registerToken m v t d w l cat tags c a s).
Proof.
  intros Hp Ht Hreg Hcat Hfee Hn Hne Hs Hse Ha Hcount Hcreators Htokens.
  unfold _registerToken. unfold isTokenRegistered in Hreg.
  apply N.eqb_neq in Ht. apply N.leb_gt in Hcat. apply N.ltb_ge in Hfee.
  rewrite Hp, Ht, Hreg, Hcat, Hfee, Hn, Hs. simpl.
  unfold is_empty. rewrite (nonempty_length _ Hne), (nonempty_length _ Hse). simpl.
  unfold answers_decode in Ha.
  apply andb_true_iff in Ha as [Ha Hmax]. apply andb_true_iff in Ha as [Hdec Hsup].
  assert (Hd : exists dec, decode_optional 18 (decimals_answer a) = Ok dec /\
                           (dec <=? 255) = true).
  { destruct (decimals_answer a); simpl; try discriminate; eauto. }
  destruct Hd as (dec & -> & Hdle). simpl. rewrite Hdle. simpl.
  assert (Hts : exists sup, decode_optional 0 (totalSupply_answer a) = Ok sup).
  { destruct (totalSupply_answer a); simpl; try discriminate; eauto. }
  destruct Hts as (sup & ->). simpl.
  assert (Hmd : exists md,
             try_maxSupply
               (TokenMetadata.mk t name_ symbol_ dec sup 0 c (timestamp m) d w l
                  false true cat tags) (maxSupply_answer a) = Ok md).
  { destruct (maxSupply_answer a); simpl; try discriminate; eauto. }
  destruct Hmd as (md & ->). simpl.
  unfold checked_add.
  assert (Hfit : (totalTokensRegistered s + 1 <=? uint256_max) = true)
    by (apply N.leb_le; lia).
  rewrite Hfit. simpl.
  apply update_creator_succeeds; assumption.
Qed.

(** C8. The registry takes in any token, whether the factory deployed it
    or not: [registerToken] succeeds for a token that is in no list of the
    factory when the registry is not paused (and not re-entered), the
    address is not zero and not registered, the category exists, the fee
    is paid, the token answers [name()] and [symbol()] with non-empty
    strings and its other answers decode, and the counters have room. The
    token is then registered; and the call succeeds whatever factory
    address the registry stores. *)
Theorem registry_accepts_any_token (factory : TokenFactory.state)
    m s v t d w l cat tags a name_ symbol_ :
  t ∉ TokenFactory.allTokens factory ->
  entered s = false -> registryPaused s = false ->
  t <> 0 -> isTokenRegistered s t = false ->
  cat < totalCategories s -> registrationFee s <= v ->
  name_answer a = Returned name_ -> name_ <> EmptyString ->
  symbol_answer a = Returned symbol_ -> symbol_ <> EmptyString ->
  answers_decode a = true ->
  totalTokensRegistered s < uint256_max -> totalCreators s < uint256_max ->
  CreatorInfo.totalTokens (getCreatorInfo s (sender m)) < uint256_max ->
  (exists s',
      exec m s (registerToken v t d w l cat tags a) = Ok s' /\
      isTokenRegistered s' t = true /\
      allTokens s' = allTokens s ++ [t] /\
      TokenMetadata.creator (getTokenMetadata s' t) = sender m) /\
  (forall factoryAddress,
      succeeds (exec m (set_tokenFactory s factoryAddress)
                  (registerToken v t d w l cat tags a))).
Proof.
  intros _ He Hp Ht Hreg Hcat Hfee Hn Hne Hs Hse Ha Hcount Hcreators Htokens.
  split.
  - destruct (_registerToken_succeeds m v t d w l cat tags (sender m) a s name_ symbol_)
      as [s1 Hs1]; try assumption.
    exists (receive_value v s1). simpl. unfold nonReentrant. rewrite He, Hs1. simpl.
    split; [reflexivity|].
    apply register_effect in Hs1
      as (md & _ & Hc & Hact & _ & _ & _ & Hm & Hall & _).
    unfold isTokenRegistered.
    change (getTokenMetadata (receive_value v s1) t) with (getTokenMetadata s1 t).
    rewrite (getTokenMetadata_insert _ _ _ _ t Hm), decide_True by reflexivity.
    auto.
  - intros factoryAddress.
    destruct (_registerToken_succeeds m v t d w l cat tags (sender m) a
                (set_tokenFactory s factoryAddress) name_ symbol_)
      as [s1 Hs1]; try assumption.
    exists (receive_value v s1). simpl. unfold nonReentrant. simpl.
    rewrite He, Hs1. reflexivity.
Qed.

Lemma registry_accepts_any_token_witness :
  (77 ∉ TokenFactory.allTokens TokenFactory.sample_factory_1) /\
  exists s',
    exec (mkMsg 2 1700000000) sample_registry sample_registerToken = Ok s' /\
    isTokenRegistered s' 77 = true.
Proof.
  assert (Hnot : 77 ∉ TokenFactory.allTokens TokenFactory.sample_factory_1).
  { change (TokenFactory.allTokens TokenFactory.sample_factory_1) with [1001].
    intros Hin. apply list_elem_of_singleton in Hin. discriminate. }
  split; [exact Hnot|].
  destruct (registry_accepts_any_token TokenFactory.sample_factory_1
              (mkMsg 2 1700000000) sample_registry 3 77
              "A wrapped coin"%string "https://coin.example"%string
              "https://coin.example/logo.png"%string 0 ["wrapped"%string]
              sample_answers "Wrapped Coin"%string "WCN"%string Hnot)
    as [(s' & Hx & Hreg & _) _];
    try reflexivity; try discriminate.
  exists s'. split; [exact Hx | exact Hreg].
Defined.

(** *** The fee check of the registry *)

Lemma _registerToken_underpaid m v t d w l cat tags c a s :
  v < registrationFee s -> reverts (_registerToken m v t d w l cat tags c a s).
Proof.
  intros Hfee. unfold _registerToken.
  do 4 (apply bind_reverts; intros _).
  apply N.ltb_lt in Hfee. rewrite Hfee. simpl. eexists; reflexivity.
Qed.

Lemma _registerToken_paid m v t d w l cat tags c a s f :
  registrationFee s <= v ->
  _registerToken m v t d w l cat tags c a s = Revert f ->
  f <> Custom InsufficientRegistrationFee.
Proof.
  intros Hfee. apply N.ltb_ge in Hfee. unfold _registerToken. rewrite Hfee.
  destruct (registryPaused s); simpl; [intros [= <-]; discriminate|].
  destruct (t =? 0); simpl; [intros [= <-]; discriminate|].
  destruct (TokenMetadata.active (getTokenMetadata s t)); simpl;
    [intros [= <-]; discriminate|].
  destruct (totalCategories s <=? cat); simpl; [intros [= <-]; discriminate|].
  destruct (name_answer a) as [| | |name_]; simpl; try (intros [= <-]; discriminate).
  destruct (symbol_answer a) as [| | |symbol_]; simpl;
    try (intros [= <-]; discriminate).
  destruct (is_empty name_); simpl; [intros [= <-]; discriminate|].
  destruct (is_empty symbol_); simpl; [intros [= <-]; discriminate|].
  destruct (decode_optional 18 (decimals_answer a)) as [dec|e] eqn:Hdec; simpl.
  2:{ intros [= <-]. destruct (decimals_answer a); simpl in Hdec; try discriminate;
        injection Hdec as <-; discriminate. }
  destruct (dec <=? 255); simpl; [|intros [= <-]; discriminate].
  destruct (decode_optional 0 (totalSupply_answer a)) as [sup|e] eqn:Hsup; simpl.
  2:{ intros [= <-]. destruct (totalSupply_answer a); simpl in Hsup; try discriminate;
        injection Hsup as <-; discriminate. }
  destruct (try_maxSupply _ (maxSupply_answer a)) as [md|e] eqn:Hmd; simpl.
  2:{ intros [= <-]. destruct (maxSupply_answer a); simpl in Hmd; try discriminate;
        injection Hmd as <-; discriminate. }
  unfold checked_add.
  destruct (_ + 1 <=? uint256_max); simpl; [|intros [= <-]; discriminate].
  unfold update_creator, checked_add.
  destruct (CreatorInfo.creator _ =? 0); simpl;
    destruct (_ + 1 <=? uint256_max); simpl; intros [= <-]; discriminate.
Qed.

(** Which check stops an underpaid [_registerToken]: the first that
    fails, in the order of the source. *)
Lemma _registerToken_underpaid_error m v t d w l cat tags c a s :
  v < registrationFee s ->
  _registerToken m v t d w l cat tags c a s
  = Revert (if registryPaused s then Custom RegistryPaused
            else if t =? 0 then Custom InvalidTokenAddress
            else if TokenMetadata.active (getTokenMetadata s t)
                 then Custom TokenAlreadyRegistered
            else if totalCategories s <=? cat then Custom InvalidCategoryId
            else Custom InsufficientRegistrationFee).
Proof.
  intros Hfee. apply N.ltb_lt in Hfee. unfold _registerToken.
  destruct (registryPaused s); simpl; [reflexivity|].
  destruct (t =? 0); simpl; [reflexivity|].
  destruct (TokenMetadata.active (getTokenMetadata s t)); simpl; [reflexivity|].
  destruct (totalCategories s <=? cat); simpl; [reflexivity|].
  rewrite Hfee. reflexivity.
Qed.

Lemma registerToken_fee_check m s v t d w l cat tags a :
  let c := registerToken v t d w l cat tags a in
  (v < registrationFee s ->
   reverts (exec m s c) /\ state_after s (exec m s c) = s /\
   (entered s = false -> registryPaused s = false -> t <> 0 ->
    isTokenRegistered s t = false -> cat < totalCategories s ->
    exec m s c = Revert (Custom InsufficientRegistrationFee)) /\
   exec m s c
   = Revert (if entered s then Base ReentrancyGuardReentrantCall
             else if registryPaused s then Custom RegistryPaused
             else if t =? 0 then Custom InvalidTokenAddress
             else if isTokenRegistered s t then Custom TokenAlreadyRegistered
             else if totalCategories s <=? cat then Custom InvalidCategoryId
             else Custom InsufficientRegistrationFee)) /\
  (registrationFee s <= v ->
   exec m s c <> Revert (Custom InsufficientRegistrationFee)).
Proof.
  intros c. split.
  - intros Hfee.
    assert (Hr : reverts (exec m s c)).
    { simpl. apply bind_reverts; intros _. apply bind_reverts_l.
      apply _registerToken_underpaid, Hfee. }
    split; [exact Hr|]. split; [apply reverts_state_after, Hr|]. split.
    + intros He Hp Ht Hreg Hcat. simpl. unfold nonReentrant, _registerToken.
      unfold isTokenRegistered in Hreg.
      apply N.eqb_neq in Ht. apply N.leb_gt in Hcat. apply N.ltb_lt in Hfee.
      rewrite He, Hp, Ht, Hreg, Hcat, Hfee. reflexivity.
    + unfold c. simpl. unfold nonReentrant, isTokenRegistered.
      rewrite (_registerToken_underpaid_error _ _ _ _ _ _ _ _ _ _ _ Hfee).
      destruct (entered s); reflexivity.
  - intros Hfee. simpl. unfold nonReentrant.
    destruct (negb (entered s)); simpl; [|discriminate].
    destruct (_registerToken m v t d w l cat tags (sender m) a s) as [s1|f] eqn:Hx;
      simpl; [discriminate|].
    intros [= ->]. eapply _registerToken_paid; eauto.
Qed.

(** *** The list of the registry only grows *)

Lemma exec_tokens m s c s' :
  exec m s c = Ok s' ->
  (allTokens s' = allTokens s /\ totalTokensRegistered s' = totalTokensRegistered s) \/
  (exists t, allTokens s' = allTokens s ++ [t] /\
             totalTokensRegistered s' = totalTokensRegistered s + 1).
Proof.
  intros H. destruct c; simpl in H.
  - right. do 2 peel H. injection H as <-.
    apply register_effect in Hg0 as (md & _ & _ & _ & _ & _ & _ & _ & Hall & Hn & _).
    eauto.
  - right. do 2 peel H. injection H as <-.
    apply register_effect in Hg0 as (md & _ & _ & _ & _ & _ & _ & _ & Hall & Hn & _).
    eauto.
  - left. unfold do_updateTokenMetadata in H. do 2 peel H. injection H as <-. auto.
  - left. unfold do_registerCreator in H. do 2 peel H.
    destruct (_ =? 0); [peel H|]; injection H as <-; auto.
  - left. unfold do_updateCreatorInfo in H. do 3 peel H. injection H as <-. auto.
  - left. peel H. injection H as <-. auto.
  - left. peel H. injection H as <-. auto.
  - left. peel H. injection H as <-. auto.
  - left. rewrite do_setTokenVerification_eq in H. do 2 peel H. cbv zeta in H.
    peel H. injection H as <-. auto.
  - left. unfold do_setCreatorVerification in H. do 2 peel H. injection H as <-. auto.
  - left. peel H. unfold _createCategory in H. peel H. injection H as <-. auto.
  - left. unfold do_updateCategory in H. do 2 peel H. injection H as <-. auto.
  - left. unfold do_withdrawFees in H. do 4 peel H. injection H as <-.
    destruct (to =? self s); auto.
  - left. injection H as <-. auto.
  - left. do 2 peel H. injection H as <-. auto.
  - left. peel H. injection H as <-. auto.
Qed.



Lemma registry_reachable_count s :
  reachable s -> totalTokensRegistered s = N.of_nat (length (allTokens s)).
Proof. intros Hr. apply (reg_count _ _ _ _ (registry_reachable_inv s Hr)). Qed.

(** *** Verification of a token *)

(** C10. [setTokenVerification] does not look at the flag the token has.
    Called by the owner on a registered token whose creator has a
    [verifiedTokens] counter of zero, with [false] it reverts on the
    checked decrement ([Panic(0x11)]) and the registry stays as it was,
    whether the token was verified or not. Called with [true] on a token
    that is already verified, it succeeds and adds one more to the
    counter of the creator (as long as the counter fits), and the token
    stays verified. *)
Theorem setTokenVerification_ignores_flag m s t :
  sender m = owner s ->
  TokenMetadata.active (getTokenMetadata s t) = true ->
  let c := TokenMetadata.creator (getTokenMetadata s t) in
  (CreatorInfo.verifiedTokens (getCreatorInfo s c) = 0 ->
   exec m s (setTokenVerification t false) = Revert (Panic arithmetic_overflow) /\
   state_after s (exec m s (setTokenVerification t false)) = s) /\
  (TokenMetadata.verified (getTokenMetadata s t) = true ->
   CreatorInfo.verifiedTokens (getCreatorInfo s c) < uint256_max ->
   exists s',
     exec m s (setTokenVerification t true) = Ok s' /\
     CreatorInfo.verifiedTokens (getCreatorInfo s' c)
     = CreatorInfo.verifiedTokens (getCreatorInfo s c) + 1 /\
     TokenMetadata.verified (getTokenMetadata s' t) = true).
Proof.
  intros Ho Hact c. simpl exec. rewrite !do_setTokenVerification_eq.
  unfold onlyOwner. rewrite Ho, N.eqb_refl, Hact. simpl. fold c. split.
  - intros Hz. rewrite Hz. unfold checked_sub. simpl. split; reflexivity.
  - intros Hv Hfit. unfold checked_add.
    assert (Hle : (CreatorInfo.verifiedTokens (getCreatorInfo s c) + 1 <=? uint256_max)
                  = true) by (apply N.leb_le; lia).
    rewrite Hle. simpl. eexists. split; [reflexivity|].
    rewrite getCreatorInfo_set, decide_True by reflexivity. simpl.
    split; [reflexivity|].
    change (getTokenMetadata (set_creatorInfo ?s0 ?c0 ?ci) t)
      with (getTokenMetadata s0 t).
    rewrite getTokenMetadata_set, decide_True by reflexivity. reflexivity.
Qed.

Lemma setTokenVerification_ignores_flag_witness :
  exec (mkMsg 1 1700000200) sample_registry_1 (setTokenVerification 77 false)
  = Revert (Panic arithmetic_overflow) /\
  exists s',
    exec (mkMsg 1 1700000200) sample_registry_2 (setTokenVerification 77 true) = Ok s' /\
    CreatorInfo.verifiedTokens (getCreatorInfo s' 2) = 2.
Proof.
  split.
  - apply (setTokenVerification_ignores_flag (mkMsg 1 1700000200) sample_registry_1 77);
      reflexivity.
  - destruct (setTokenVerification_ignores_flag (mkMsg 1 1700000200)
                sample_registry_2 77 eq_refl eq_refl) as [_ H].
    destruct H as (s' & Hx & Hn & _).
    + reflexivity.
    + vm_compute. reflexivity.
    + exists s'. split; [exact Hx | exact Hn].
Defined.

End TokenRegistryProps.

(** ** TokenRegistry: creators, categories, statistics *)

Module TokenRegistryBook.
Import TokenRegistry TokenRegistryProps.

(** *** The invariant of the creators and the categories *)

Lemma registered_for_ext s s' c :
  allTokens s' = allTokens s ->
  (forall t, t ∈ allTokens s ->
             TokenMetadata.creator (getTokenMetadata s' t)
             = TokenMetadata.creator (getTokenMetadata s t)) ->
  registered_for s' c = registered_for s c.
Proof.
  intros Ha Hc. unfold registered_for. rewrite Ha. apply List.filter_ext_in.
  intros t Hin. rewrite Hc; [reflexivity|]. apply list_elem_of_In. exact Hin.
Qed.

Lemma new_creator_unwritten s c :
  registry_inv s -> c <> 0 ->
  CreatorInfo.creator (getCreatorInfo s c) = 0 -> creatorInfo s !! c = None.
Proof.
  intros Hi Hc Hz. destruct (creatorInfo s !! c) as [ci|] eqn:Hl; [|reflexivity].
  pose proof (reg_creator_key _ _ _ _ Hi c ci Hl) as Hk.
  unfold getCreatorInfo in Hz. rewrite Hl in Hz. simpl in Hz. congruence.
Qed.

Lemma new_creator_no_tokens s c :
  registry_inv s -> creatorInfo s !! c = None -> registered_for s c = [].
Proof.
  intros Hi Hnone. unfold registered_for.
  destruct (List.filter _ (allTokens s)) as [|t l] eqn:Hf; [reflexivity|].
  assert (Hin : In t (List.filter
                        (fun t => TokenMetadata.creator (getTokenMetadata s t) =? c)
                        (allTokens s))) by (rewrite Hf; left; reflexivity).
  apply List.filter_In in Hin as [Hin Hc]. apply N.eqb_eq in Hc.
  apply list_elem_of_In in Hin.
  destruct (reg_listed _ _ _ _ Hi t Hin) as [md Hmd].
  destruct (reg_written _ _ _ _ Hi t md Hmd) as (_ & _ & [ci Hci]).
  unfold getTokenMetadata in Hc. rewrite Hmd in Hc. simpl in Hc.
  rewrite Hc, Hnone in Hci. discriminate.
Qed.

Lemma book_inv_same s s' :
  tokenMetadata s' = tokenMetadata s -> creatorInfo s' = creatorInfo s ->
  categories s' = categories s -> allTokens s' = allTokens s ->
  allCreators s' = allCreators s ->
  totalTokensRegistered s' = totalTokensRegistered s ->
  totalCreators s' = totalCreators s -> totalCategories s' = totalCategories s ->
  book_inv s -> book_inv s'.
Proof.
  destruct s, s'. simpl. intros -> -> -> -> -> -> -> -> H.
  destruct H; split; assumption.
Qed.

Lemma book_inv_metadata s t md :
  TokenMetadata.creator md = TokenMetadata.creator (getTokenMetadata s t) ->
  book_inv s -> book_inv (set_tokenMetadata s t md).
Proof.
  intros Hc [B1 B2 B3 B4 B5 B6 B7 B8]. split; try assumption.
  intros c Hne.
  change (getCreatorInfo (set_tokenMetadata s t md) c) with (getCreatorInfo s c).
  rewrite (registered_for_ext s (set_tokenMetadata s t md) c);
    [apply B6, Hne | reflexivity |].
  intros t' _. rewrite getTokenMetadata_set.
  case_decide; [subst; exact Hc | reflexivity].
Qed.

Lemma book_inv_creator s c ci :
  is_Some (creatorInfo s !! c) ->
  (c <> 0 ->
   CreatorInfo.totalTokens ci = CreatorInfo.totalTokens (getCreatorInfo s c)) ->
  book_inv s -> book_inv (set_creatorInfo s c ci).
Proof.
  intros Hs Ht [B1 B2 B3 B4 B5 B6 B7 B8]. split; try assumption.
  - intros c'. simpl. rewrite lookup_insert_is_Some, <- B4. split.
    + intros [<-|[_ ?]]; assumption.
    + intros ?. destruct (decide (c = c')); [left | right]; auto.
  - intros c' Hne. rewrite getCreatorInfo_set.
    change (registered_for (set_creatorInfo s c ci) c') with (registered_for s c').
    case_decide; [subst; rewrite Ht by auto|]; apply B6; auto.
Qed.

Lemma book_inv_push s c ci n :
  (c <> 0 -> creatorInfo s !! c = None) ->
  (c <> 0 -> CreatorInfo.totalTokens ci = N.of_nat (length (registered_for s c))) ->
  n = totalCreators s + 1 -> n <= uint256_max ->
  book_inv s -> book_inv (push_creator (set_creatorInfo s c ci) c n).
Proof.
  intros Hnone Ht -> Hfit [B1 B2 B3 B4 B5 B6 B7 B8]. split; try assumption.
  - simpl. rewrite length_app. simpl. lia.
  - intros c'. simpl.
    rewrite lookup_insert_is_Some, elem_of_app, list_elem_of_singleton, <- B4.
    split.
    + intros [<-|[_ ?]]; auto.
    + intros [?| ->]; [destruct (decide (c = c')); auto | auto].
  - simpl. rewrite list.filter_app, list.filter_cons, list.filter_nil.
    destruct (decide (c <> 0)) as [Hne|Hz]; [|rewrite app_nil_r; assumption].
    apply list.NoDup_app. split; [assumption|]. split; [|apply NoDup_singleton].
    intros x Hx Hx'. apply list_elem_of_singleton in Hx'. subst x.
    apply list_elem_of_filter in Hx as [_ Hin]. apply B4 in Hin.
    rewrite (Hnone Hne) in Hin. destruct Hin; discriminate.
  - intros c' Hne.
    change (getCreatorInfo (push_creator (set_creatorInfo s c ci) c
                              (totalCreators s + 1)) c')
      with (getCreatorInfo (set_creatorInfo s c ci) c').
    rewrite getCreatorInfo_set.
    change (registered_for (push_creator (set_creatorInfo s c ci) c
                              (totalCreators s + 1)) c')
      with (registered_for s c').
    case_decide; [subst; apply Ht; auto | apply B6; auto].
Qed.

Lemma categories_ok_create cats total name_ description_ :
  categories_ok cats total -> total + 1 <= uint256_max ->
  categories_ok (<[total := CategoryInfo.mk name_ description_ 0 true]> cats)
    (total + 1).
Proof.
  intros (Hb & Hdom & Hcount) Hfit. split; [exact Hfit|]. split.
  - intros id. rewrite lookup_insert_is_Some, Hdom. split.
    + intros [<-|[_ ?]]; lia.
    + intros ?. destruct (decide (total = id)); [left | right; split]; auto; lia.
  - intros id ci. destruct (decide (total = id)) as [<-|Hne].
    + rewrite lookup_insert_eq. intros [= <-]. reflexivity.
    + rewrite lookup_insert_ne by exact Hne. apply Hcount.
Qed.

Lemma categories_ok_update cats total id ci :
  categories_ok cats total -> id < total -> CategoryInfo.tokenCount ci = 0 ->
  categories_ok (<[id := ci]> cats) total.
Proof.
  intros (Hb & Hdom & Hcount) Hid Hci. split; [exact Hb|]. split.
  - intros id'. rewrite lookup_insert_is_Some, Hdom. split.
    + intros [<-|[_ ?]]; assumption.
    + intros ?. destruct (decide (id = id')); [left | right; split]; auto.
  - intros id' ci'. destruct (decide (id = id')) as [<-|Hne].
    + rewrite lookup_insert_eq. intros [= <-]. exact Hci.
    + rewrite lookup_insert_ne by exact Hne. apply Hcount.
Qed.

Lemma categories_ok_tokenCount s id :
  categories_ok (categories s) (totalCategories s) ->
  CategoryInfo.tokenCount (getCategoryInfo s id) = 0.
Proof.
  intros (_ & _ & Hcount). unfold getCategoryInfo.
  destruct (categories s !! id) as [ci|] eqn:Hl; simpl; [eauto | reflexivity].
Qed.

(** [_createCategory] on the categories. *)
Lemma _createCategory_categories name_ description_ s s' :
  _createCategory name_ description_ s = Ok s' ->
  totalCategories s + 1 <= uint256_max /\
  totalCategories s' = totalCategories s + 1 /\
  categories s'
  = <[totalCategories s := CategoryInfo.mk name_ description_ 0 true]> (categories s).
Proof.
  unfold _createCategory. intros H. peel_as H n Hn.
  apply checked_add_Ok in Hn as [-> Hfit]. injection H as <-. simpl in *. auto.
Qed.

(** What [_registerToken] does to the list of creators; it leaves the
    categories alone. *)
Lemma _registerToken_creators m v t d w l cat tags c a s s' :
  _registerToken m v t d w l cat tags c a s = Ok s' ->
  categories s' = categories s /\ totalCategories s' = totalCategories s /\
  ((CreatorInfo.creator (getCreatorInfo s c) <> 0 /\
    allCreators s' = allCreators s /\ totalCreators s' = totalCreators s) \/
   (CreatorInfo.creator (getCreatorInfo s c) = 0 /\
    allCreators s' = allCreators s ++ [c] /\
    totalCreators s' = totalCreators s + 1 /\
    totalCreators s + 1 <= uint256_max)).
Proof.
  intros H.
  apply _registerToken_Ok in H as (_ & _ & _ & _ & _ & _ & md & _ & _ & _ & _ & _ & _ & H).
  unfold update_creator in H.
  change (getCreatorInfo
            (push_token (set_tokenMetadata s t md) t (totalTokensRegistered s + 1)) c)
    with (getCreatorInfo s c) in H.
  destruct (CreatorInfo.creator (getCreatorInfo s c) =? 0) eqn:Hnew.
  - peel_as H n Hn. apply checked_add_Ok in Hn as [-> Hfit]. injection H as <-.
    simpl in *. apply N.eqb_eq in Hnew.
    split; [reflexivity|]. split; [reflexivity|]. right. auto.
  - peel H. injection H as <-. simpl. apply N.eqb_neq in Hnew.
    split; [reflexivity|]. split; [reflexivity|]. left. auto.
Qed.

Lemma _registerToken_book m v t d w l cat tags c a s s' :
  _registerToken m v t d w l cat tags c a s = Ok s' ->
  registry_inv s -> book_inv s -> book_inv s'.
Proof.
  intros H Hi Hb.
  pose proof (_registerToken_creators _ _ _ _ _ _ _ _ _ _ _ _ H) as (Hcat & Hncat & Hcr).
  pose proof (_registerToken_Ok _ _ _ _ _ _ _ _ _ _ _ _ H)
    as (_ & _ & Hinactive & _ & _ & Hfit & _).
  apply register_effect in H
    as (md & Hta & Hmc & Hact & _ & _ & _ & Hmeta & Hall & Hn & _ & Hci).
  assert (Hfresh : t ∉ allTokens s).
  { intros Hin. apply (reg_listed _ _ _ _ Hi) in Hin.
    rewrite (inactive_unwritten s t Hi Hinactive) in Hin.
    destruct Hin; discriminate. }
  assert (Hold : forall t', t' ∈ allTokens s ->
                            getTokenMetadata s' t' = getTokenMetadata s t').
  { intros t' Hin. rewrite (getTokenMetadata_insert s s' t md t' Hmeta).
    rewrite decide_False; [reflexivity|]. intros ->. contradiction. }
  assert (Hnew : getTokenMetadata s' t = md).
  { rewrite (getTokenMetadata_insert s s' t md t Hmeta), decide_True; reflexivity. }
  assert (Hreg : forall c',
             registered_for s' c'
             = registered_for s c'
               ++ (if TokenMetadata.creator md =? c' then [t] else [])).
  { intros c'. unfold registered_for. rewrite Hall, List.filter_app. simpl.
    rewrite Hnew. f_equal. apply List.filter_ext_in. intros t' Hin.
    rewrite Hold; [reflexivity | apply list_elem_of_In; exact Hin]. }
  destruct Hb as [B1 B2 B3 B4 B5 B6 B7 B8].
  assert (Hwritten : CreatorInfo.creator (getCreatorInfo s c) <> 0 ->
                     is_Some (creatorInfo s !! c)).
  { intros Hex. rewrite (creator_written s c Hex). eauto. }
  split.
  - rewrite Hn. exact Hfit.
  - destruct Hcr as [(_ & -> & ->) | (_ & -> & -> & _)]; [assumption|].
    rewrite length_app. simpl. lia.
  - destruct Hcr as [(_ & _ & ->) | (_ & _ & -> & ?)]; assumption.
  - intros c'. rewrite Hci, lookup_insert_is_Some.
    destruct Hcr as [(Hex & -> & _) | (Hz & -> & _)].
    + rewrite <- B4. split.
      * intros [<-|[_ ?]]; auto.
      * intros ?. destruct (decide (c = c')); [left | right]; auto.
    + rewrite elem_of_app, list_elem_of_singleton, <- B4. split.
      * intros [<-|[_ ?]]; auto.
      * intros [?| ->]; [destruct (decide (c = c')); auto | auto].
  - destruct Hcr as [(_ & -> & _) | (Hz & -> & _)]; [assumption|].
    rewrite list.filter_app, list.filter_cons, list.filter_nil.
    destruct (decide (c <> 0)) as [Hne|_]; [|rewrite app_nil_r; assumption].
    apply list.NoDup_app. split; [assumption|]. split; [|apply NoDup_singleton].
    intros x Hx Hx'. apply list_elem_of_singleton in Hx'. subst x.
    apply list_elem_of_filter in Hx as [_ Hin]. apply B4 in Hin.
    rewrite (new_creator_unwritten s c Hi Hne Hz) in Hin. destruct Hin; discriminate.
  - intros c' Hne. rewrite (getCreatorInfo_insert s s' c _ c' Hci), Hreg, Hmc.
    case_decide.
    + subst c'. rewrite N.eqb_refl, length_app. simpl. unfold updated_creator.
      destruct (CreatorInfo.creator (getCreatorInfo s c) =? 0) eqn:Hz; simpl.
      * apply N.eqb_eq in Hz.
        rewrite (new_creator_no_tokens s c Hi (new_creator_unwritten s c Hi Hne Hz)).
        reflexivity.
      * rewrite (B6 c Hne). lia.
    + assert (Hneq : (c =? c') = false) by (apply N.eqb_neq; assumption).
      rewrite Hneq, app_nil_r. apply B6, Hne.
  - rewrite Hncat. exact B7.
  - rewrite Hcat, Hncat. exact B8.
Qed.

Lemma book_exec_inv m s c s' :
  exec m s c = Ok s' -> registry_inv s -> book_inv s -> book_inv s'.
Proof.
  intros H Hi Hb. destruct c; simpl in H.
  - do 2 peel H. injection H as <-.
    eapply book_inv_same; [..| eapply _registerToken_book; eauto]; reflexivity.
  - do 2 peel H. injection H as <-.
    eapply book_inv_same; [..| eapply _registerToken_book; eauto]; reflexivity.
  - unfold do_updateTokenMetadata in H. do 2 peel H. injection H as <-.
    apply book_inv_metadata; [reflexivity | exact Hb].
  - unfold do_registerCreator in H. do 2 peel H.
    destruct (CreatorInfo.creator (getCreatorInfo s (sender m)) =? 0) eqn:Hnew.
    + peel_as H n Hn. apply checked_add_Ok in Hn as [-> Hfit]. injection H as <-.
      apply N.eqb_eq in Hnew.
      apply book_inv_push; [| | reflexivity | exact Hfit | exact Hb].
      * intros Hne. apply new_creator_unwritten; assumption.
      * intros Hne. simpl.
        rewrite (new_creator_no_tokens s (sender m) Hi
                   (new_creator_unwritten s (sender m) Hi Hne Hnew)).
        reflexivity.
    + injection H as <-. apply N.eqb_neq in Hnew.
      apply book_inv_creator; [| reflexivity | exact Hb].
      rewrite (creator_written s (sender m) Hnew). eauto.
  - unfold do_updateCreatorInfo in H. do 3 peel H. injection H as <-.
    apply negb_true_iff, N.eqb_neq in Hg.
    apply book_inv_creator; [| reflexivity | exact Hb].
    rewrite (creator_written s (sender m) Hg). eauto.
  - peel H. injection H as <-. destruct Hb; split; assumption.
  - peel H. injection H as <-. destruct Hb; split; assumption.
  - peel H. injection H as <-. destruct Hb; split; assumption.
  - rewrite do_setTokenVerification_eq in H. do 2 peel H. cbv zeta in H.
    peel H. injection H as <-.
    apply active_written in Hg0.
    destruct (reg_written _ _ _ _ Hi _ _ Hg0) as (_ & _ & Hsome).
    apply book_inv_creator; [exact Hsome | reflexivity |].
    apply book_inv_metadata; [reflexivity | exact Hb].
  - unfold do_setCreatorVerification in H. do 2 peel H. injection H as <-.
    apply negb_true_iff, N.eqb_neq in Hg0.
    apply book_inv_creator; [| reflexivity | exact Hb].
    rewrite (creator_written s creator_ Hg0). eauto.
  - peel H. apply _createCategory_categories in H as Hc. destruct Hc as (Hfit & Hn & Hc).
    apply _createCategory_Ok in H as (M & A & N1 & C & AC & TC & _).
    destruct Hb as [B1 B2 B3 B4 B5 B6 B7 B8].
    assert (Hb' : book_inv s') .
    { split.
      - rewrite N1. exact B1.
      - rewrite TC, AC. exact B2.
      - rewrite TC. exact B3.
      - intros c. rewrite C, AC. apply B4.
      - rewrite AC. exact B5.
      - intros c Hne.
        replace (getCreatorInfo s' c) with (getCreatorInfo s c)
          by (unfold getCreatorInfo; rewrite C; reflexivity).
        rewrite (registered_for_ext s s' c A); [apply B6, Hne|].
        intros t _. unfold getTokenMetadata. rewrite M. reflexivity.
      - rewrite Hn. lia.
      - rewrite Hn, Hc. apply categories_ok_create; assumption. }
    exact Hb'.
  - unfold do_updateCategory in H. do 2 peel H. injection H as <-.
    apply negb_true_iff, N.leb_gt in Hg0.
    destruct Hb as [B1 B2 B3 B4 B5 B6 B7 B8]. split; try assumption.
    simpl. apply categories_ok_update; [exact B8 | exact Hg0 |].
    simpl. apply categories_ok_tokenCount. exact B8.
  - unfold do_withdrawFees in H. do 4 peel H. injection H as <-.
    destruct (to =? self s); destruct Hb; split; assumption.
  - injection H as <-. destruct Hb; split; assumption.
  - do 2 peel H. injection H as <-. destruct Hb; split; assumption.
  - peel H. injection H as <-. destruct Hb; split; assumption.
Qed.

Lemma book_constructor_inv self_ initialOwner fee factory minTokens minVolume s :
  constructor self_ initialOwner fee factory minTokens minVolume = Ok s ->
  book_inv s /\ allCreators s = [] /\
  (forall id, id < 5 -> CategoryInfo.active (getCategoryInfo s id) = true).
Proof.
  unfold constructor. intros H. do 3 peel H.
  peel_as H s1 H1. peel_as H s2 H2. peel_as H s3 H3. peel_as H s4 H4.
  pose proof (_createCategory_categories _ _ _ _ H1) as (F1 & T1 & K1).
  pose proof (_createCategory_categories _ _ _ _ H2) as (F2 & T2 & K2).
  pose proof (_createCategory_categories _ _ _ _ H3) as (F3 & T3 & K3).
  pose proof (_createCategory_categories _ _ _ _ H4) as (F4 & T4 & K4).
  pose proof (_createCategory_categories _ _ _ _ H) as (F5 & T5 & K5).
  apply _createCategory_Ok in H1 as (M1 & A1 & N1 & C1 & L1 & Q1 & _).
  apply _createCategory_Ok in H2 as (M2 & A2 & N2 & C2 & L2 & Q2 & _).
  apply _createCategory_Ok in H3 as (M3 & A3 & N3 & C3 & L3 & Q3 & _).
  apply _createCategory_Ok in H4 as (M4 & A4 & N4 & C4 & L4 & Q4 & _).
  apply _createCategory_Ok in H as (M5 & A5 & N5 & C5 & L5 & Q5 & _).
  simpl in *.
  assert (Hm : tokenMetadata s = ∅) by congruence.
  assert (Ha : allTokens s = []) by congruence.
  assert (Hn : totalTokensRegistered s = 0) by congruence.
  assert (Hc : creatorInfo s = ∅) by congruence.
  assert (Hl : allCreators s = []) by congruence.
  assert (Hq : totalCreators s = 0) by congruence.
  assert (Ht : totalCategories s = 5) by lia.
  assert (Ht4 : totalCategories s4 = 4) by lia.
  assert (Ht3 : totalCategories s3 = 3) by lia.
  assert (Ht2 : totalCategories s2 = 2) by lia.
  assert (Ht1 : totalCategories s1 = 1) by lia.
  assert (Hk0 : categories_ok ∅ 0).
  { split; [lia|]. split.
    - intros id. rewrite lookup_empty. split; [intros [? ?]; discriminate | lia].
    - intros id ci. rewrite lookup_empty. discriminate. }
  pose proof (categories_ok_create ∅ 0 "DeFi" "Decentralized Finance tokens" Hk0
                ltac:(lia)) as Hk1.
  rewrite <- K1 in Hk1. change (0 + 1) with 1 in Hk1.
  pose proof (categories_ok_create _ 1 "Gaming" "Gaming and NFT tokens" Hk1
                ltac:(lia)) as Hk2.
  rewrite <- Ht1, <- K2 in Hk2. rewrite Ht1 in Hk2. change (1 + 1) with 2 in Hk2.
  pose proof (categories_ok_create _ 2 "Infrastructure"
                "Infrastructure and utility tokens" Hk2 ltac:(lia)) as Hk3.
  rewrite <- Ht2, <- K3 in Hk3. rewrite Ht2 in Hk3. change (2 + 1) with 3 in Hk3.
  pose proof (categories_ok_create _ 3 "Social" "Social and community tokens" Hk3
                ltac:(lia)) as Hk4.
  rewrite <- Ht3, <- K4 in Hk4. rewrite Ht3 in Hk4. change (3 + 1) with 4 in Hk4.
  pose proof (categories_ok_create _ 4 "Other" "Other miscellaneous tokens" Hk4
                ltac:(lia)) as Hk5.
  rewrite <- Ht4, <- K5 in Hk5. rewrite Ht4 in Hk5. change (4 + 1) with 5 in Hk5.
  split; [|split; [exact Hl|]].
  - split.
    + rewrite Hn. lia.
    + rewrite Hq, Hl. reflexivity.
    + rewrite Hq. lia.
    + intros c. rewrite Hc, Hl, lookup_empty. split.
      * intros [? ?]; discriminate.
      * intros Hin. apply elem_of_nil in Hin. contradiction.
    + rewrite Hl. apply NoDup_nil_2.
    + intros c Hne. unfold getCreatorInfo, registered_for. rewrite Hc, Ha, lookup_empty.
      reflexivity.
    + lia.
    + rewrite Ht. exact Hk5.
  - intros id Hid. unfold getCategoryInfo. rewrite K5, K4, K3, K2, K1, Ht4, Ht3, Ht2, Ht1.
    assert (Hcases : id = 0 \/ id = 1 \/ id = 2 \/ id = 3 \/ id = 4) by lia.
    destruct Hcases as [-> | [-> | [-> | [-> | ->]]]]; reflexivity.
Qed.

Lemma book_reachable_inv s : reachable s -> book_inv s.
Proof.
  induction 1 as [? ? ? ? ? ? s Hc | s m c s' Hr IH Hx].
  - apply book_constructor_inv in Hc as [? _]. assumption.
  - eapply book_exec_inv; eauto using registry_reachable_inv.
Qed.

Lemma getTokensByCreator_registered_for s c :
  getTokensByCreator s c = registered_for s c.
Proof. unfold getTokensByCreator. apply scan_filter. Qed.

(** X20. The creators of the registry, in every reachable state:
    [totalCreators] is the length of [allCreators]; an address other than
    zero is listed exactly when [isCreatorRegistered] holds for it, and
    then once; its [totalTokens] is the number of tokens
    [getTokensByCreator] returns for it; and the creator of every
    registered token is a listed creator. *)
Theorem creators_book s :
  reachable s ->
  totalCreators s = N.of_nat (length (getAllCreators s)) /\
  (forall c, c <> 0 -> (c ∈ getAllCreators s <-> isCreatorRegistered s c = true)) /\
  NoDup (filter (fun c => c <> 0) (getAllCreators s)) /\
  (forall c, c <> 0 ->
             CreatorInfo.totalTokens (getCreatorInfo s c)
             = N.of_nat (length (getTokensByCreator s c))) /\
  (forall t, isTokenRegistered s t = true ->
             TokenMetadata.creator (getTokenMetadata s t) ∈ getAllCreators s).
Proof.
  intros Hr. pose proof (registry_reachable_inv s Hr) as Hi.
  destruct (book_reachable_inv s Hr) as [B1 B2 B3 B4 B5 B6 B7 B8].
  unfold getAllCreators. split; [exact B2|]. split; [|split; [exact B5|split]].
  - intros c Hne. unfold isCreatorRegistered. rewrite negb_true_iff, N.eqb_neq. split.
    + intros Hin. apply B4 in Hin as [ci Hci].
      unfold getCreatorInfo. rewrite Hci. simpl.
      rewrite (reg_creator_key _ _ _ _ Hi c ci Hci). exact Hne.
    + intros Hex. apply B4. rewrite (creator_written s c Hex). eauto.
  - intros c Hne. rewrite getTokensByCreator_registered_for. apply B6, Hne.
  - intros t Hact. unfold isTokenRegistered in Hact. apply active_written in Hact.
    destruct (reg_written _ _ _ _ Hi _ _ Hact) as (_ & _ & Hsome).
    apply B4. exact Hsome.
Qed.

(** X21. The categories of the registry, in every reachable state: there
    are at least the five the constructor creates; the slots at and above
    [totalCategories] are unwritten; and [tokenCount] is zero for every
    category, since no function writes it: a registration in a category
    leaves the record of the category as it was. *)
Theorem categories_book s :
  reachable s ->
  5 <= totalCategories s /\
  (forall id, totalCategories s <= id -> getCategoryInfo s id = CategoryInfo.zero) /\
  (forall id, CategoryInfo.tokenCount (getCategoryInfo s id) = 0) /\
  (forall m v t d w l cat tags creator_ a s',
      exec m s (registerTokenForCreator v t d w l cat tags creator_ a) = Ok s' \/
      exec m s (registerToken v t d w l cat tags a) = Ok s' ->
      cat < totalCategories s /\ TokenMetadata.category (getTokenMetadata s' t) = cat /\
      getCategoryInfo s' cat = getCategoryInfo s cat).
Proof.
  intros Hr. destruct (book_reachable_inv s Hr) as [B1 B2 B3 B4 B5 B6 B7 B8].
  split; [exact B7|]. split; [|split].
  - intros id Hid. destruct B8 as (_ & Hdom & _). unfold getCategoryInfo.
    destruct (categories s !! id) as [ci|] eqn:Hl; [|reflexivity].
    assert (Hlt : id < totalCategories s) by (apply Hdom; eauto). lia.
  - intros id. apply categories_ok_tokenCount. exact B8.
  - intros m v t d w l cat tags creator_ a s' Hx.
    assert (Hreg : exists c s1,
               _registerToken m v t d w l cat tags c a s = Ok s1 /\
               s' = receive_value v s1).
    { destruct Hx as [Hx|Hx]; simpl in Hx; do 2 peel Hx; injection Hx as <-; eauto. }
    destruct Hreg as (c & s1 & H1 & ->).
    pose proof (_registerToken_creators _ _ _ _ _ _ _ _ _ _ _ _ H1) as (Hc & _ & _).
    pose proof (_registerToken_Ok _ _ _ _ _ _ _ _ _ _ _ _ H1) as (_ & _ & _ & Hlt & _).
    apply register_effect in H1 as (md & _ & _ & _ & _ & Hcat & _ & Hmeta & _).
    split; [exact Hlt|]. split.
    + change (getTokenMetadata (receive_value v s1) t) with (getTokenMetadata s1 t).
      rewrite (getTokenMetadata_insert s s1 t md t Hmeta), decide_True by reflexivity.
      exact Hcat.
    + unfold getCategoryInfo. simpl. rewrite Hc. reflexivity.
Qed.

(** The counting loop counts the entries that pass the test. *)
Lemma count_loop_prefix test (all : list N) n :
  N.of_nat (length all) <= uint256_max -> (n <= length all)%nat ->
  fold_left (count_step test all) (seq 0 n) (Ok 0)
  = Ok (N.of_nat (length (List.filter test (take n all)))).
Proof.
  intros Hfit. induction n as [|n IH]; intros Hn; [reflexivity|].
  rewrite seq_S, fold_left_app, IH by lia. simpl.
  destruct (lookup_lt_is_Some_2 all n) as [x Hx]; [lia|].
  rewrite Hx, (take_S_r _ _ _ Hx), List.filter_app. simpl.
  pose proof (List.filter_length_le test (take n all)) as Hle.
  rewrite length_take in Hle.
  destruct (test x); simpl.
  - unfold checked_add.
    assert (Hc : (N.of_nat (length (List.filter test (take n all))) + 1
                  <=? uint256_max) = true) by (apply N.leb_le; lia).
    rewrite Hc, length_app. simpl. f_equal. lia.
  - rewrite app_nil_r. reflexivity.
Qed.

Lemma count_loop_filter test (all : list N) :
  N.of_nat (length all) <= uint256_max ->
  count_loop test all = Ok (N.of_nat (length (List.filter test all))).
Proof.
  intros Hfit. unfold count_loop.
  rewrite (count_loop_prefix test all (length all) Hfit (le_n _)), firstn_all.
  reflexivity.
Qed.

(** X22. [getStatistics] in a reachable state does not revert; it returns
    the lengths of [allTokens] and [allCreators], the number of
    categories, and the numbers of tokens and of creators that
    [getVerifiedTokens] and [getVerifiedCreators] list. *)
Theorem getStatistics_counts s :
  reachable s ->
  getStatistics s
  = Ok (N.of_nat (length (getAllTokens s)), N.of_nat (length (getAllCreators s)),
        totalCategories s,
        N.of_nat (length (getVerifiedTokens s)),
        N.of_nat (length (getVerifiedCreators s))).
Proof.
  intros Hr. pose proof (registry_reachable_count s Hr) as Hcount.
  destruct (book_reachable_inv s Hr) as [B1 B2 B3 B4 B5 B6 B7 B8].
  unfold getStatistics, getVerifiedTokens, getVerifiedCreators, getAllTokens,
    getAllCreators.
  rewrite !scan_filter, !count_loop_filter by lia.
  simpl. rewrite Hcount, B2. reflexivity.
Qed.

(** *** Registrations *)

Lemma not_is_empty x : negb (is_empty x) = true -> x <> EmptyString.
Proof. intros H ->. discriminate. Qed.

(** The record that a successful [_registerToken] wrote. *)
Lemma _registerToken_record m v t d w l cat tags c a s s' :
  _registerToken m v t d w l cat tags c a s = Ok s' ->
  exists name_ symbol_,
    name_answer a = Returned name_ /\ symbol_answer a = Returned symbol_ /\
    name_ <> EmptyString /\ symbol_ <> EmptyString /\
    getTokenMetadata s' t
    = TokenMetadata.mk t name_ symbol_
        (match decimals_answer a with Returned n => n | _ => 18 end)
        (match totalSupply_answer a with Returned n => n | _ => 0 end)
        (match maxSupply_answer a with Returned n => n | _ => 0 end)
        c (timestamp m) d w l false true cat tags.
Proof.
  unfold _registerToken. intros H. do 5 peel H.
  peel_as H name_ Hname. peel_as H symbol_ Hsymbol.
  peel_as H u6 Hn. peel_as H u7 Hs.
  peel_as H decimals_ Hdec. peel_as H u8 Hd. peel_as H supply_ Hsup.
  peel_as H md Hmd. peel_as H n Hcount.
  apply update_creator_Ok in H as (Hmeta & _). simpl in Hmeta.
  exists name_, symbol_.
  split; [destruct (name_answer a); try discriminate; injection Hname as ->;
          reflexivity|].
  split; [destruct (symbol_answer a); try discriminate; injection Hsymbol as ->;
          reflexivity|].
  split; [exact (not_is_empty _ Hn)|]. split; [exact (not_is_empty _ Hs)|].
  unfold getTokenMetadata. rewrite Hmeta, lookup_insert_eq. simpl.
  assert (Hdec' : decimals_ = match decimals_answer a with Returned n => n | _ => 18 end)
    by (destruct (decimals_answer a); simpl in Hdec; congruence).
  assert (Hsup' : supply_ = match totalSupply_answer a with Returned n => n | _ => 0 end)
    by (destruct (totalSupply_answer a); simpl in Hsup; congruence).
  subst decimals_ supply_.
  destruct (maxSupply_answer a); simpl in Hmd; try discriminate;
    injection Hmd as <-; reflexivity.
Qed.

(** X23. What a registration records. After a successful [registerToken]
    or [registerTokenForCreator] the record of the token holds the name
    and the symbol the token returned (neither empty), the decimals and
    the total supply it returned, or 18 and 0 when those calls failed or
    returned nothing, the maximum supply it returned, or 0 when that call
    failed, the creator, the time of the block, the texts, the category
    and the tags given, and it is active and not verified. The token was
    not registered before. *)
Theorem registration_writes_snapshot m s v t d w l cat tags creator_ a s' :
  exec m s (registerTokenForCreator v t d w l cat tags creator_ a) = Ok s' \/
  (creator_ = sender m /\ exec m s (registerToken v t d w l cat tags a) = Ok s') ->
  exists name_ symbol_,
    name_answer a = Returned name_ /\ symbol_answer a = Returned symbol_ /\
    name_ <> EmptyString /\ symbol_ <> EmptyString /\
    getTokenMetadata s' t
    = TokenMetadata.mk t name_ symbol_
        (match decimals_answer a with Returned n => n | _ => 18 end)
        (match totalSupply_answer a with Returned n => n | _ => 0 end)
        (match maxSupply_answer a with Returned n => n | _ => 0 end)
        creator_ (timestamp m) d w l false true cat tags /\
    isTokenRegistered s t = false /\ isTokenRegistered s' t = true.
Proof.
  intros Hx.
  assert (Hreg : exists s1,
             _registerToken m v t d w l cat tags creator_ a s = Ok s1 /\
             s' = receive_value v s1).
  { destruct Hx as [Hx|[-> Hx]]; simpl in Hx; do 2 peel Hx; injection Hx as <-; eauto. }
  destruct Hreg as (s1 & H1 & ->).
  pose proof (_registerToken_Ok _ _ _ _ _ _ _ _ _ _ _ _ H1) as (_ & _ & Hinactive & _).
  destruct (_registerToken_record _ _ _ _ _ _ _ _ _ _ _ _ H1)
    as (name_ & symbol_ & Hn & Hs & Hne & Hse & Hmd).
  exists name_, symbol_. do 4 (split; [assumption|]).
  split; [exact Hmd|]. split; [exact Hinactive|].
  unfold isTokenRegistered.
  change (getTokenMetadata (receive_value v s1) t) with (getTokenMetadata s1 t).
  rewrite Hmd. reflexivity.
Qed.

(** A call keeps the fixed fields of a registered token. *)
Lemma exec_fixed_fields m s c t :
  isTokenRegistered s t = true ->
  fixed_fields (getTokenMetadata (state_after s (exec m s c)) t)
  = fixed_fields (getTokenMetadata s t).
Proof.
  intros Hact. destruct (exec m s c) as [s'|f] eqn:Hx; simpl; [|reflexivity].
  destruct (exec_metadata m s c s' t Hx Hact)
    as [-> | [(_ & d & w & l & _ & ->) | (_ & b & _ & ->)]]; reflexivity.
Qed.

Lemma run_fixed_fields cs : forall s t,
  isTokenRegistered s t = true ->
  fixed_fields (getTokenMetadata (run s cs) t) = fixed_fields (getTokenMetadata s t).
Proof.
  induction cs as [|[m c] cs IH]; intros s t Hact; simpl; [reflexivity|].
  pose proof (exec_fixed_fields m s c t Hact) as Hstep.
  rewrite IH; [exact Hstep|].
  unfold isTokenRegistered.
  assert (Ha : TokenMetadata.active (getTokenMetadata (state_after s (exec m s c)) t)
               = TokenMetadata.active (getTokenMetadata s t)).
  { unfold fixed_fields in Hstep. congruence. }
  rewrite Ha. exact Hact.
Qed.

Lemma _registerToken_registered m v t d w l cat tags c a s :
  isTokenRegistered s t = true ->
  reverts (_registerToken m v t d w l cat tags c a s) /\
  (registryPaused s = false -> t <> 0 ->
   _registerToken m v t d w l cat tags c a s = Revert (Custom TokenAlreadyRegistered)).
Proof.
  unfold isTokenRegistered, _registerToken. intros Hact. rewrite Hact. split.
  - destruct (registryPaused s); simpl; [eexists; reflexivity|].
    destruct (t =? 0); simpl; eexists; reflexivity.
  - intros -> Hne. apply N.eqb_neq in Hne. rewrite Hne. reflexivity.
Qed.

(** X24. A registration is final. Once a token is registered, no run of
    calls changes its address, name, symbol, decimals, total supply,
    maximum supply, creator, time of registration, category or tags, or
    makes it inactive; and it cannot be registered again: both
    registration functions revert, with [TokenAlreadyRegistered] when
    the registry is not paused and not re-entered. *)
Theorem registration_is_final s t cs :
  isTokenRegistered s t = true ->
  let s' := run s cs in
  fixed_fields (getTokenMetadata s' t) = fixed_fields (getTokenMetadata s t) /\
  isTokenRegistered s' t = true /\
  (forall m v d w l cat tags creator_ a,
      reverts (exec m s' (registerToken v t d w l cat tags a)) /\
      reverts (exec m s' (registerTokenForCreator v t d w l cat tags creator_ a)) /\
      (entered s' = false -> registryPaused s' = false -> t <> 0 ->
       exec m s' (registerToken v t d w l cat tags a)
       = Revert (Custom TokenAlreadyRegistered) /\
       exec m s' (registerTokenForCreator v t d w l cat tags creator_ a)
       = Revert (Custom TokenAlreadyRegistered))).
Proof.
  intros Hact s'. pose proof (run_fixed_fields cs s t Hact) as Hf. fold s' in Hf.
  assert (Hact' : isTokenRegistered s' t = true).
  { unfold isTokenRegistered in *. unfold fixed_fields in Hf.
    assert (Ha : TokenMetadata.active (getTokenMetadata s' t)
                 = TokenMetadata.active (getTokenMetadata s t)) by congruence.
    rewrite Ha. exact Hact. }
  split; [exact Hf|]. split; [exact Hact'|].
  intros m v d w l cat tags creator_ a. simpl.
  destruct (_registerToken_registered m v t d w l cat tags (sender m) a s' Hact')
    as [[f1 Hr1] He1].
  destruct (_registerToken_registered m v t d w l cat tags creator_ a s' Hact')
    as [[f2 Hr2] He2].
  split; [|split].
  - unfold nonReentrant. destruct (entered s'); simpl; [eexists; reflexivity|].
    rewrite Hr1. eexists; reflexivity.
  - unfold nonReentrant. destruct (entered s'); simpl; [eexists; reflexivity|].
    rewrite Hr2. eexists; reflexivity.
  - intros He Hp Hne. unfold nonReentrant. rewrite He. simpl.
    rewrite (He1 Hp Hne), (He2 Hp Hne). split; reflexivity.
Qed.

(** *** Settings that no function reads *)

(** Both sides run the same checks: follow them one by one. *)
Ltac step_guard :=
  cbv zeta;
  match goal with
  | |- bind (bind ?r _) _ = bind (bind ?r' _) _ =>
      change r' with r; destruct r; cbn [bind]; [|reflexivity]
  | |- bind ?r _ = bind (bind ?r' _) _ =>
      change r' with r; destruct r; cbn [bind]; [|reflexivity]
  | |- (if ?x then _ else _) = bind (if ?x' then _ else _) _ =>
      change x' with x; destruct x
  | |- Ok (if ?x then _ else _) = _ =>
      match goal with
      | |- _ = ?rhs =>
          match rhs with
          | context [if ?x' then _ else _] => change x' with x
          end
      end;
      destruct x
  end.

Ltac commute := repeat step_guard; try reflexivity.

Lemma _registerToken_tokenFactory m v t d w l cat tags c a s f :
  _registerToken m v t d w l cat tags c a (set_tokenFactory s f)
  = let! s' := _registerToken m v t d w l cat tags c a s in
    Ok (set_tokenFactory s' f).
Proof. unfold _registerToken, update_creator. commute. Qed.

Lemma _registerToken_requirements m v t d w l cat tags c a s x y :
  _registerToken m v t d w l cat tags c a (set_requirements s x y)
  = let! s' := _registerToken m v t d w l cat tags c a s in
    Ok (set_requirements s' x y).
Proof. unfold _registerToken, update_creator. commute. Qed.

(** The creator and the status of the record after a registration. *)
Lemma registration_record_of m s v t d w l cat tags creator_ a s' :
  exec m s (registerTokenForCreator v t d w l cat tags creator_ a) = Ok s' \/
  (creator_ = sender m /\ exec m s (registerToken v t d w l cat tags a) = Ok s') ->
  TokenMetadata.creator (getTokenMetadata s' t) = creator_ /\
  isTokenRegistered s' t = true.
Proof.
  intros Hx.
  assert (Hreg : exists s1,
             _registerToken m v t d w l cat tags creator_ a s = Ok s1 /\
             s' = receive_value v s1).
  { destruct Hx as [Hx|[-> Hx]]; simpl in Hx; do 2 peel Hx; injection Hx as <-; eauto. }
  destruct Hreg as (s1 & H1 & ->).
  destruct (_registerToken_record _ _ _ _ _ _ _ _ _ _ _ _ H1)
    as (name_ & symbol_ & _ & _ & _ & _ & Hmd).
  unfold isTokenRegistered.
  change (getTokenMetadata (receive_value v s1) t) with (getTokenMetadata s1 t).
  rewrite Hmd. split; reflexivity.
Qed.

Ltac unfold_calls :=
  cbn [exec];
  unfold do_updateTokenMetadata, do_registerCreator, do_updateCreatorInfo,
    do_setTokenVerification, do_setCreatorVerification, do_updateCategory,
    do_withdrawFees, _createCategory.

(** X25. The registry stores the address of the factory and the two
    requirements for verification, and reads none of them: a call runs
    the same way whatever they hold. With another factory address every
    call reverts with the same error or succeeds with the same state up
    to that address; likewise for the requirements and every call other
    than [setVerificationRequirements]. So the owner verifies tokens and
    creators without regard to the requirements. *)
Theorem tokenFactory_and_requirements_unused m s c :
  (forall f,
      exec m (set_tokenFactory s f) c
      = let! s' := exec m s c in Ok (set_tokenFactory s' f)) /\
  (forall x y,
      (forall x' y', c <> setVerificationRequirements x' y') ->
      exec m (set_requirements s x y) c
      = let! s' := exec m s c in Ok (set_requirements s' x y)).
Proof.
  split.
  - intros f. destruct c; unfold_calls;
      rewrite ?_registerToken_tokenFactory; commute.
  - intros x y Hc. destruct c; unfold_calls;
      rewrite ?_registerToken_requirements; commute.
    exfalso. eapply Hc. reflexivity.
Qed.


(** X26. [registerTokenForCreator] gives the token to the creator it
    names, without asking it: after a successful call the record names
    that creator, every other account (the caller included, when it is
    not the creator) gets [OnlyCreator] from [updateTokenMetadata], and
    the named creator can update the texts; in a reachable registry a
    named creator other than the zero address is from then on a
    registered creator, listed in [allCreators]. *)
Theorem registerTokenForCreator_gives_rights m s v t d w l cat tags creator_ a s' :
  exec m s (registerTokenForCreator v t d w l cat tags creator_ a) = Ok s' ->
  TokenMetadata.creator (getTokenMetadata s' t) = creator_ /\
  (forall m' d' w' l',
      sender m' <> creator_ ->
      exec m' s' (updateTokenMetadata t d' w' l') = Revert (Custom OnlyCreator)) /\
  (forall m' d' w' l',
      sender m' = creator_ ->
      exists s'',
        exec m' s' (updateTokenMetadata t d' w' l') = Ok s'' /\
        getTokenMetadata s'' t
        = TokenMetadata.set_texts (getTokenMetadata s' t) d' w' l') /\
  (reachable s -> creator_ <> 0 ->
   isCreatorRegistered s' creator_ = true /\ creator_ ∈ getAllCreators s').
Proof.
  intros Hx.
  destruct (registration_record_of m s v t d w l cat tags creator_ a s' (or_introl Hx))
    as (Hc & Hact).
  split; [exact Hc|]. split; [|split].
  - intros m' d' w' l' Hne. simpl. unfold do_updateTokenMetadata.
    assert (Hn : (TokenMetadata.creator (getTokenMetadata s' t) =? sender m') = false)
      by (apply N.eqb_neq; congruence).
    rewrite Hn. reflexivity.
  - intros m' d' w' l' Heq. simpl. unfold do_updateTokenMetadata.
    assert (Hn : (TokenMetadata.creator (getTokenMetadata s' t) =? sender m') = true)
      by (apply N.eqb_eq; congruence).
    unfold isTokenRegistered in Hact. rewrite Hn, Hact. cbn [require bind].
    eexists. split; [reflexivity|].
    rewrite getTokenMetadata_set, decide_True by reflexivity. reflexivity.
  - intros Hr Hne.
    assert (Hr' : reachable s') by (eapply reachable_call; eassumption).
    pose proof (registry_reachable_inv s' Hr') as Hi.
    destruct (book_reachable_inv s' Hr') as [B1 B2 B3 B4 B5 B6 B7 B8].
    unfold isTokenRegistered in Hact. apply active_written in Hact.
    destruct (reg_written _ _ _ _ Hi _ _ Hact) as (_ & _ & Hsome).
    rewrite Hc in Hsome. split; [|apply B4; exact Hsome].
    destruct Hsome as [ci Hci]. unfold isCreatorRegistered, getCreatorInfo.
    rewrite Hci. simpl. rewrite (reg_creator_key _ _ _ _ Hi _ _ Hci).
    apply negb_true_iff, N.eqb_neq. exact Hne.
Qed.


Lemma _registerToken_paused m v t d w l cat tags c a s :
  registryPaused s = true ->
  _registerToken m v t d w l cat tags c a s = Revert (Custom RegistryPaused).
Proof. intros Hp. unfold _registerToken. rewrite Hp. reflexivity. Qed.

(** X28. The pause stops registrations and nothing else. While
    [registryPaused] is set both registration functions revert, with
    [RegistryPaused] when not re-entered, and the list of tokens does not
    change; every other call except [setRegistryPaused] runs the same
    way whatever the flag holds: creators still update their tokens and
    profiles, and the owner still verifies and withdraws. *)
Theorem pause_stops_registrations_only m s c :
  (registryPaused s = true ->
   allTokens (state_after s (exec m s c)) = allTokens s /\
   (entered s = false ->
    forall v t d w l cat tags creator_ a,
      exec m s (registerToken v t d w l cat tags a)
      = Revert (Custom RegistryPaused) /\
      exec m s (registerTokenForCreator v t d w l cat tags creator_ a)
      = Revert (Custom RegistryPaused))) /\
  (forall b,
      match c with
      | registerToken _ _ _ _ _ _ _ _
      | registerTokenForCreator _ _ _ _ _ _ _ _ _
      | setRegistryPaused _ => False
      | _ => True
      end ->
      exec m (set_registryPaused s b) c
      = let! s' := exec m s c in Ok (set_registryPaused s' b)).
Proof.
  split.
  - intros Hp. split.
    + destruct (exec m s c) as [s'|f] eqn:Hx; simpl; [|reflexivity].
      destruct (exec_tokens m s c s' Hx) as [[Ha _] | (t & Ha & _)]; [exact Ha|].
      exfalso. destruct c; simpl in Hx;
        try (do 2 peel Hx;
             rewrite _registerToken_paused in Hg0 by exact Hp; discriminate).
      * unfold do_updateTokenMetadata in Hx. do 2 peel Hx. injection Hx as <-.
        simpl in Ha. apply (f_equal length) in Ha. rewrite length_app in Ha.
        simpl in Ha. lia.
      * unfold do_registerCreator in Hx. do 2 peel Hx.
        destruct (_ =? 0); [peel Hx|]; injection Hx as <-;
          simpl in Ha; apply (f_equal length) in Ha; rewrite length_app in Ha;
          simpl in Ha; lia.
      * unfold do_updateCreatorInfo in Hx. do 3 peel Hx. injection Hx as <-.
        simpl in Ha. apply (f_equal length) in Ha. rewrite length_app in Ha.
        simpl in Ha. lia.
      * peel Hx. injection Hx as <-.
        simpl in Ha. apply (f_equal length) in Ha. rewrite length_app in Ha.
        simpl in Ha. lia.
      * peel Hx. injection Hx as <-.
        simpl in Ha. apply (f_equal length) in Ha. rewrite length_app in Ha.
        simpl in Ha. lia.
      * peel Hx. injection Hx as <-.
        simpl in Ha. apply (f_equal length) in Ha. rewrite length_app in Ha.
        simpl in Ha. lia.
      * rewrite do_setTokenVerification_eq in Hx. do 2 peel Hx. cbv zeta in Hx.
        peel Hx. injection Hx as <-.
        simpl in Ha. apply (f_equal length) in Ha. rewrite length_app in Ha.
        simpl in Ha. lia.
      * unfold do_setCreatorVerification in Hx. do 2 peel Hx. injection Hx as <-.
        simpl in Ha. apply (f_equal length) in Ha. rewrite length_app in Ha.
        simpl in Ha. lia.
      * peel Hx. apply _createCategory_Ok in Hx as (_ & A & _).
        rewrite A in Ha. apply (f_equal length) in Ha. rewrite length_app in Ha.
        simpl in Ha. lia.
      * unfold do_updateCategory in Hx. do 2 peel Hx. injection Hx as <-.
        simpl in Ha. apply (f_equal length) in Ha. rewrite length_app in Ha.
        simpl in Ha. lia.
      * unfold do_withdrawFees in Hx. do 4 peel Hx. injection Hx as <-.
        destruct (to =? self s); simpl in Ha; apply (f_equal length) in Ha;
          rewrite length_app in Ha; simpl in Ha; lia.
      * injection Hx as <-.
        simpl in Ha. apply (f_equal length) in Ha. rewrite length_app in Ha.
        simpl in Ha. lia.
      * do 2 peel Hx. injection Hx as <-.
        simpl in Ha. apply (f_equal length) in Ha. rewrite length_app in Ha.
        simpl in Ha. lia.
      * peel Hx. injection Hx as <-.
        simpl in Ha. apply (f_equal length) in Ha. rewrite length_app in Ha.
        simpl in Ha. lia.
    + intros He v t d w l cat tags creator_ a. simpl. unfold nonReentrant.
      rewrite He, !_registerToken_paused by exact Hp. split; reflexivity.
  - intros b Hc. destruct c; try contradiction; unfold_calls; commute.
Qed.

(** *** The sample registry *)

Lemma creators_book_witness :
  totalCreators sample_registry_2 = N.of_nat (length (getAllCreators sample_registry_2)) /\
  CreatorInfo.totalTokens (getCreatorInfo sample_registry_2 2)
  = N.of_nat (length (getTokensByCreator sample_registry_2 2)).
Proof.
  destruct (creators_book sample_registry_2 sample_registry_2_reachable)
    as (H1 & _ & _ & H4 & _).
  split; [exact H1 | apply H4; discriminate].
Defined.

Lemma categories_book_witness :
  5 <= totalCategories sample_registry_1 /\
  CategoryInfo.tokenCount (getCategoryInfo sample_registry_1 0) = 0.
Proof.
  destruct (categories_book sample_registry_1 sample_registry_1_reachable)
    as (H1 & _ & H3 & _).
  split; [exact H1 | apply H3].
Defined.

Lemma getStatistics_counts_witness :
  getStatistics sample_registry_2 = Ok (1, 1, 5, 1, 0).
Proof.
  rewrite (getStatistics_counts sample_registry_2 sample_registry_2_reachable).
  vm_compute. reflexivity.
Defined.

Lemma registration_writes_snapshot_witness :
  TokenMetadata.totalSupply
    (getTokenMetadata
       (state_after sample_registry
          (exec (mkMsg 2 1700000000) sample_registry sample_registerToken)) 77)
  = 1000000 /\
  TokenMetadata.maxSupply
    (getTokenMetadata
       (state_after sample_registry
          (exec (mkMsg 2 1700000000) sample_registry sample_registerToken)) 77)
  = 0.
Proof.
  destruct (exec (mkMsg 2 1700000000) sample_registry sample_registerToken)
    as [s'|f] eqn:Hx; [|vm_compute in Hx; discriminate].
  destruct (registration_writes_snapshot (mkMsg 2 1700000000) sample_registry 3 77
              "A wrapped coin" "https://coin.example" "https://coin.example/logo.png"
              0 ["wrapped"%string] 2 sample_answers s'
              (or_intror (conj eq_refl Hx)))
    as (name_ & symbol_ & _ & _ & _ & _ & Hmd & _).
  simpl state_after. rewrite Hmd. split; reflexivity.
Defined.

Lemma registration_is_final_witness :
  fixed_fields
    (getTokenMetadata
       (run sample_registry_1 [(mkMsg 1 1700000100, setTokenVerification 77 true)]) 77)
  = fixed_fields (getTokenMetadata sample_registry_1 77) /\
  exec (mkMsg 3 1700000200)
    (run sample_registry_1 [(mkMsg 1 1700000100, setTokenVerification 77 true)])
    (registerToken 3 77 "A wrapped coin" "https://coin.example"
       "https://coin.example/logo.png" 0 ["wrapped"%string] sample_answers)
  = Revert (Custom TokenAlreadyRegistered).
Proof.
  destruct (registration_is_final sample_registry_1 77
              [(mkMsg 1 1700000100, setTokenVerification 77 true)])
    as (Hf & _ & Hrev); [vm_compute; reflexivity|].
  split; [exact Hf|].
  destruct (Hrev (mkMsg 3 1700000200) 3 "A wrapped coin"%string
              "https://coin.example"%string "https://coin.example/logo.png"%string
              0 ["wrapped"%string] 0 sample_answers) as (_ & _ & Herr).
  destruct Herr as [Herr _];
    [vm_compute; reflexivity | vm_compute; reflexivity | discriminate |].
  exact Herr.
Defined.

Lemma tokenFactory_and_requirements_unused_witness :
  exec (mkMsg 1 1700000100) (set_requirements sample_registry_1 50 50)
    (setCreatorVerification 2 true)
  = let! s' := exec (mkMsg 1 1700000100) sample_registry_1
                 (setCreatorVerification 2 true) in
    Ok (set_requirements s' 50 50).
Proof.
  apply (tokenFactory_and_requirements_unused (mkMsg 1 1700000100) sample_registry_1
           (setCreatorVerification 2 true)).
  discriminate.
Defined.

Lemma registerTokenForCreator_gives_rights_witness :
  exec (mkMsg 3 1700000300)
    (state_after sample_registry_1
       (exec (mkMsg 3 1700000200) sample_registry_1 sample_registerTokenForCreator))
    (updateTokenMetadata 88 "mine" "w" "l")
  = Revert (Custom OnlyCreator).
Proof.
  destruct (exec (mkMsg 3 1700000200) sample_registry_1 sample_registerTokenForCreator)
    as [s'|f] eqn:Hx; [|vm_compute in Hx; discriminate].
  destruct (registerTokenForCreator_gives_rights _ _ _ _ _ _ _ _ _ _ _ _ Hx)
    as (_ & Hother & _).
  apply Hother. discriminate.
Defined.


Lemma pause_stops_registrations_only_witness :
  exec (mkMsg 3 1700000200) (set_registryPaused sample_registry_1 true)
    sample_registerTokenForCreator
  = Revert (Custom RegistryPaused).
Proof.
  destruct (pause_stops_registrations_only (mkMsg 3 1700000200)
              (set_registryPaused sample_registry_1 true)
              sample_registerTokenForCreator) as [H _].
  destruct (H eq_refl) as [_ Hrev].
  destruct (Hrev eq_refl 3 88 "A gift"%string "https://gift.example"%string
              "https://gift.example/logo.png"%string 1 [] 4 sample_answers)
    as [_ Herr].
  exact Herr.
Defined.

End TokenRegistryBook.

(** ** Properties of SimpleStorage *)

Module SimpleStorageProps.
Import SimpleStorage.

Lemma storage_exec_inv m s c s' :
  exec m s c = Ok s' -> storage_inv s -> storage_inv s'.
Proof.
  intros Hx [Hmax Hzero Hsum Hfit]. destruct c; simpl in Hx.
  - peel Hx. peel Hx. peel_as Hx u1 Hnz. peel_as Hx u2 Hle.
    peel_as Hx n Hn. peel_as Hx k Hk.
    apply checked_add_Ok in Hn as [-> Hn]. apply checked_add_Ok in Hk as [-> Hk].
    injection Hx as <-. simpl in *.
    apply negb_true_iff in Hnz, Hle. apply N.eqb_neq in Hnz. apply N.ltb_ge in Hle.
    split; simpl.
    + exact Hle.
    + split; intros; lia.
    + unfold getUserStores. simpl.
      pose proof (sum_balances_insert (_userStores s) (sender m)
                    (default 0 (_userStores s !! sender m) + 1)) as Hi.
      lia.
    + exact Hn.
  - injection Hx as <-. split; assumption.
  - do 2 peel Hx. injection Hx as <-. split; assumption.
  - peel Hx. injection Hx as <-. split; assumption.
Qed.

Lemma storage_reachable_inv s : reachable s -> storage_inv s.
Proof.
  induction 1 as [initialOwner s Hc | s m c s' _ IH Hx].
  - unfold constructor in Hc. peel Hc. injection Hc as <-. split; simpl.
    + unfold MAX_VALUE. lia.
    + tauto.
    + apply sum_balances_empty.
    + lia.
  - eauto using storage_exec_inv.
Qed.

Lemma sample_storage_3_reachable : reachable sample_storage_3.
Proof.
  assert (H0 : reachable sample_storage)
    by (apply (reachable_constructor 1); vm_compute; reflexivity).
  assert (H1 : reachable (run sample_storage [(mkMsg 1 1700000000, store 42)])).
  { eapply reachable_call; [exact H0|].
    instantiate (1 := store 42). instantiate (1 := mkMsg 1 1700000000).
    vm_compute. reflexivity. }
  assert (H2 : reachable (run sample_storage
                            [(mkMsg 1 1700000000, store 42);
                             (mkMsg 1 1700000100, transferOwnership 2)])).
  { eapply reachable_call; [exact H1|].
    instantiate (1 := transferOwnership 2). instantiate (1 := mkMsg 1 1700000100).
    vm_compute. reflexivity. }
  eapply reachable_call; [exact H2|].
  instantiate (1 := store 7). instantiate (1 := mkMsg 2 1700000200).
  vm_compute. reflexivity.
Qed.

(** X29. The counters of SimpleStorage, in every reachable state: the
    stored value is at most [MAX_VALUE], and it is zero exactly when
    nothing was stored yet; the stores of all users add up to
    [getTotalStores()], so no user has more than the total;
    [getContractInfo()] returns the stored value, the total and
    1000000. *)
Theorem storage_counters s :
  reachable s ->
  _storedValue s <= getMaxValue /\
  (_storedValue s = 0 <-> getTotalStores s = 0) /\
  URBEToken.sum_balances (_userStores s) = getTotalStores s /\
  (forall user, getUserStores s user <= getTotalStores s) /\
  getContractInfo s = (_storedValue s, getTotalStores s, 1000000).
Proof.
  intros Hr. destruct (storage_reachable_inv s Hr) as [Hmax Hzero Hsum Hfit].
  split; [exact Hmax|]. split; [exact Hzero|]. split; [exact Hsum|].
  split; [|reflexivity].
  intros user. unfold getUserStores, getTotalStores. rewrite <- Hsum.
  apply balance_le_sum.
Qed.

Lemma storage_counters_witness :
  URBEToken.sum_balances (_userStores sample_storage_3) = getTotalStores sample_storage_3 /\
  getUserStores sample_storage_3 1 <= getTotalStores sample_storage_3.
Proof.
  destruct (storage_counters sample_storage_3 sample_storage_3_reachable)
    as (_ & _ & H3 & H4 & _).
  split; [exact H3 | apply H4].
Defined.

(** X30. [store] and [retrieve]. In a reachable state only the owner
    stores: the call of another account reverts with
    [OwnableUnauthorizedAccount]; the owner's [store(0)] reverts with
    [InvalidValue] and a value above [MAX_VALUE] with [ValueTooHigh];
    with [0 < newValue <= MAX_VALUE] and the total below [2^256 - 1] the
    call succeeds, after it [retrieve] returns [newValue], and the total
    and the count of the caller have gone up by one. [retrieve] changes
    nothing. *)
Theorem store_then_retrieve m s newValue :
  reachable s -> entered s = false ->
  (sender m <> owner s ->
   exec m s (store newValue)
   = Revert (Base (OwnableUnauthorizedAccount (sender m)))) /\
  (sender m = owner s -> newValue = 0 ->
   exec m s (store newValue) = Revert (Custom InvalidValue)) /\
  (sender m = owner s -> MAX_VALUE < newValue ->
   exec m s (store newValue) = Revert (Custom ValueTooHigh)) /\
  (sender m = owner s -> 0 < newValue -> newValue <= MAX_VALUE ->
   getTotalStores s < uint256_max ->
   exists s',
     exec m s (store newValue) = Ok s' /\
     (forall m', exec m' s' retrieve = Ok s') /\
     returned s' retrieve = Some newValue /\
     getTotalStores s' = getTotalStores s + 1 /\
     getUserStores s' (sender m) = getUserStores s (sender m) + 1 /\
     (forall user, user <> sender m -> getUserStores s' user = getUserStores s user)).
Proof.
  intros Hr He. pose proof (storage_reachable_inv s Hr) as [Hmax Hzero Hsum Hfit].
  simpl. unfold onlyOwner, nonReentrant. rewrite He.
  split; [|split; [|split]].
  - intros Hne. assert (Ho : (owner s =? sender m) = false)
      by (apply N.eqb_neq; congruence).
    rewrite Ho. reflexivity.
  - intros -> ->. rewrite N.eqb_refl. reflexivity.
  - intros -> Hbig. rewrite N.eqb_refl. cbn [require bind negb].
    assert (Hnz : (newValue =? 0) = false)
      by (apply N.eqb_neq; unfold MAX_VALUE in Hbig; lia).
    apply N.ltb_lt in Hbig. rewrite Hnz, Hbig. reflexivity.
  - intros Ho Hpos Hle Htot. rewrite Ho, N.eqb_refl. cbn [require bind negb].
    assert (Hnz : (newValue =? 0) = false) by (apply N.eqb_neq; lia).
    assert (Hok : (MAX_VALUE <? newValue) = false) by (apply N.ltb_ge; exact Hle).
    rewrite Hnz, Hok. cbn [require bind negb]. unfold checked_add.
    unfold getTotalStores in Htot.
    assert (H1 : (_totalStores s + 1 <=? uint256_max) = true)
      by (apply N.leb_le; lia).
    rewrite H1. cbn [bind].
    pose proof (balance_le_sum (_userStores s) (owner s)) as Hu.
    change (getUserStores (set_totalStores (set_storedValue s newValue)
                             (_totalStores s + 1)) (owner s))
      with (getUserStores s (owner s)).
    assert (H2 : (getUserStores s (owner s) + 1 <=? uint256_max) = true).
    { apply N.leb_le. unfold getUserStores. lia. }
    rewrite H2. cbn [bind].
    eexists. split; [reflexivity|]. split; [reflexivity|]. split; [reflexivity|].
    split; [reflexivity|]. split.
    + unfold getUserStores. simpl. rewrite lookup_insert_eq. reflexivity.
    + intros user Hne. unfold getUserStores. simpl.
      rewrite lookup_insert_ne by congruence. reflexivity.
Qed.

Lemma store_then_retrieve_witness :
  exec (mkMsg 1 1700000300) sample_storage_3 (store 9)
  = Revert (Base (OwnableUnauthorizedAccount 1)) /\
  exists s',
    exec (mkMsg 2 1700000300) sample_storage_3 (store 9) = Ok s' /\
    returned s' retrieve = Some 9.
Proof.
  split.
  - destruct (store_then_retrieve (mkMsg 1 1700000300) sample_storage_3 9
                sample_storage_3_reachable eq_refl) as (H & _).
    apply H. vm_compute. discriminate.
  - destruct (store_then_retrieve (mkMsg 2 1700000300) sample_storage_3 9
                sample_storage_3_reachable eq_refl) as (_ & _ & _ & H).
    destruct H as (s' & Hx & _ & Hret & _);
      [vm_compute; reflexivity | vm_compute; reflexivity
      | vm_compute; discriminate | vm_compute; reflexivity |].
    exists s'. split; [exact Hx | exact Hret].
Defined.

End SimpleStorageProps.

(** ** The factory and the registry together *)

Module LedgerProps.

(** C7 (as amended). A call of [deployToken] that sends less than the
    deployment fee reverts and leaves the factory as it was; the error is
    [InsufficientDeploymentFee] when the call is not re-entrant and the
    checks that come first pass (factory not paused, name and symbol not
    empty, supplies not zero, initial supply within the maximum, sender not
    zero), and otherwise the error of the first of these checks that
    fails, in this order, after [ReentrancyGuardReentrantCall] for a
    re-entrant call. A call of [registerToken] that sends less than the
    registration fee reverts and leaves the registry as it was; the error
    is [InsufficientRegistrationFee] when the call is not re-entrant and
    the checks that come first pass (registry not paused, address not
    zero, token not registered, category valid), and otherwise the error
    of the first of these checks that fails, in this order. A call that
    sends the fee or more never fails with the error of the fee. *)
Theorem fee_gates (new_token_address : N -> address) :
  (forall m s v name_ symbol_ init max me be pe,
      let c := TokenFactory.deployToken v name_ symbol_ init max me be pe in
      (v < TokenFactory.deploymentFee s ->
       reverts (TokenFactory.exec new_token_address m s c) /\
       state_after s (TokenFactory.exec new_token_address m s c) = s /\
       (TokenFactory.entered s = false -> TokenFactory.factoryPaused s = false ->
        name_ <> EmptyString -> symbol_ <> EmptyString ->
        init <> 0 -> max <> 0 -> init <= max -> sender m <> 0 ->
        TokenFactory.exec new_token_address m s c
        = Revert (Custom TokenFactory.InsufficientDeploymentFee)) /\
       TokenFactory.exec new_token_address m s c
       = Revert
           (if TokenFactory.entered s then Base ReentrancyGuardReentrantCall
            else if TokenFactory.factoryPaused s
                 then Custom TokenFactory.FactoryPaused
            else if (String.length name_ =? 0)%nat
                 then Custom TokenFactory.EmptyName
            else if (String.length symbol_ =? 0)%nat
                 then Custom TokenFactory.EmptySymbol
            else if init =? 0 then Custom TokenFactory.ZeroInitialSupply
            else if max =? 0 then Custom TokenFactory.ZeroMaxSupply
            else if max <? init then Custom TokenFactory.InitialSupplyExceedsMax
            else if sender m =? 0 then Custom TokenFactory.InvalidTokenAddress
            else Custom TokenFactory.InsufficientDeploymentFee)) /\
      (TokenFactory.deploymentFee s <= v ->
       TokenFactory.exec new_token_address m s c
       <> Revert (Custom TokenFactory.InsufficientDeploymentFee))) /\
  (forall m s v t d w l cat tags a,
      let c := TokenRegistry.registerToken v t d w l cat tags a in
      (v < TokenRegistry.registrationFee s ->
       reverts (TokenRegistry.exec m s c) /\
       state_after s (TokenRegistry.exec m s c) = s /\
       (TokenRegistry.entered s = false -> TokenRegistry.registryPaused s = false ->
        t <> 0 -> TokenRegistry.isTokenRegistered s t = false ->
        cat < TokenRegistry.totalCategories s ->
        TokenRegistry.exec m s c
        = Revert (Custom TokenRegistry.InsufficientRegistrationFee)) /\
       TokenRegistry.exec m s c
       = Revert
           (if TokenRegistry.entered s then Base ReentrancyGuardReentrantCall
            else if TokenRegistry.registryPaused s
                 then Custom TokenRegistry.RegistryPaused
            else if t =? 0 then Custom TokenRegistry.InvalidTokenAddress
            else if TokenRegistry.isTokenRegistered s t
                 then Custom TokenRegistry.TokenAlreadyRegistered
            else if TokenRegistry.totalCategories s <=? cat
                 then Custom TokenRegistry.InvalidCategoryId
            else Custom TokenRegistry.InsufficientRegistrationFee)) /\
      (TokenRegistry.registrationFee s <= v ->
       TokenRegistry.exec m s c
       <> Revert (Custom TokenRegistry.InsufficientRegistrationFee))).
Proof.
  split.
  - intros. apply TokenFactoryProps.deployToken_fee_check.
  - intros. apply TokenRegistryProps.registerToken_fee_check.
Qed.

Lemma fee_gates_witness :
  TokenFactory.exec TokenFactory.sample_new_token_address (mkMsg 3 1700000100)
    TokenFactory.sample_factory_1
    (TokenFactory.deployToken 4 "Token" "TKN" 100 1000 true true true)
  = Revert (Custom TokenFactory.InsufficientDeploymentFee) /\
  TokenRegistry.exec (mkMsg 3 1700000100) TokenRegistry.sample_registry_1
    (TokenRegistry.registerToken 2 78 "d" "w" "l" 0 [] TokenRegistry.sample_answers)
  = Revert (Custom TokenRegistry.InsufficientRegistrationFee).
Proof.
  destruct (fee_gates TokenFactory.sample_new_token_address) as [Hf Hr].
  split.
  - destruct (Hf (mkMsg 3 1700000100) TokenFactory.sample_factory_1 4
                "Token"%string "TKN"%string 100 1000 true true true) as [Hlow _].
    destruct Hlow as (_ & _ & Herr & _).
    + vm_compute. reflexivity.
    + apply Herr; try reflexivity; try discriminate.
  - destruct (Hr (mkMsg 3 1700000100) TokenRegistry.sample_registry_1 2 78
                "d"%string "w"%string "l"%string 0 [] TokenRegistry.sample_answers)
      as [Hlow _].
    destruct Hlow as (_ & _ & Herr & _).
    + vm_compute. reflexivity.
    + apply Herr; try reflexivity; try discriminate.
Defined.

(** C7 (as stated) fails on the error: once the owner has paused the
    factory, a deployment that sends less than the fee reverts with
    [FactoryPaused]; once the owner has paused the registry, a
    registration that sends less than the fee reverts with
    [RegistryPaused]. *)
Lemma underpaid_while_paused_other_error :
  TokenFactory.exec TokenFactory.sample_new_token_address (mkMsg 3 1700000200)
    (TokenFactory.run TokenFactory.sample_new_token_address
       TokenFactory.sample_factory_1
       [(mkMsg 1 1700000100, TokenFactory.setFactoryPaused true)])
    (TokenFactory.deployToken 4 "Token" "TKN" 100 1000 true true true)
  = Revert (Custom TokenFactory.FactoryPaused) /\
  TokenRegistry.exec (mkMsg 3 1700000200)
    (TokenRegistry.run TokenRegistry.sample_registry_1
       [(mkMsg 1 1700000100, TokenRegistry.setRegistryPaused true)])
    (TokenRegistry.registerToken 2 78 "d" "w" "l" 0 [] TokenRegistry.sample_answers)
  = Revert (Custom TokenRegistry.RegistryPaused).
Proof. split; vm_compute; reflexivity. Qed.



End LedgerProps.
